(** * kvstore: a key-value store for embedded environments

    A shallow embedding of [kvstore.c] / [kvstore.h] and the properties of
    its slot codec, allocator and cursor search.

    Conventions of the embedding.
    - [size_t] is a 32-bit unsigned integer (the store targets 32-bit
      microcontrollers); every [size_t] operation of the source is written
      with its wrap-around, [size_t x = x mod 2^32].
    - The length fields are stored the way the source stores them, by copying
      the object representation of a [uintN_t] ([(uint8_t * )&tmp]); the
      embedding fixes a little-endian target.
    - A pointer argument is an [option]: [None] is [NULL].  A buffer is the
      list of the bytes it holds.
    - The backend context ([self->backend_context]) is the state threaded
      through every function; the three callbacks may all change it. *)

From Stdlib Require Import ZArith List Lia Bool.
From coqutil Require Import Byte Word.LittleEndianList.
Import ListNotations.
Local Open Scope Z_scope.

(** ** Configuration ([kvstore.h], default parameters) *)

Definition KVSTORE_MAX_KEY_SIZE : Z := 16.
Definition KVSTORE_KEY_SIZE_BYTES : Z := 4.
Definition KVSTORE_VALUE_SIZE_BYTES : Z := 4.
Definition KVSTORE_HEADER_SIZE_BYTES : Z := 4.
Definition KVSTORE_HEADER_MAGIC : list byte :=
  [Byte.xf8; Byte.x2a; Byte.x93; Byte.x11].

Inductive KvStoreResult : Set :=
| KVSTORE_OK
| KVSTORE_FAILED
| KVSTORE_BAD_ARG
| KVSTORE_NOT_FOUND.

Definition result_eqb (a b : KvStoreResult) : bool :=
  match a, b with
  | KVSTORE_OK, KVSTORE_OK
  | KVSTORE_FAILED, KVSTORE_FAILED
  | KVSTORE_BAD_ARG, KVSTORE_BAD_ARG
  | KVSTORE_NOT_FOUND, KVSTORE_NOT_FOUND => true
  | _, _ => false
  end.

(** ** Machine integers and buffers *)

Definition SIZE_BITS : Z := 32.

(** Reduction of an integer to [size_t]. *)
Definition size_t (x : Z) : Z := x mod 2 ^ SIZE_BITS.

(** [uintN_t tmp = x] for a field of [n] bytes. *)
Definition uint_of_width (n : Z) (x : Z) : Z := x mod 2 ^ (8 * n).

(** Object representation of a [uintN_t] of [n] bytes. *)
Definition bytes_of_uint (n : Z) (x : Z) : list byte := le_split (Z.to_nat n) x.

(** [fill buf data]: the buffer after a callback stored [data] at its start. *)
Definition fill (buf data : list byte) : list byte :=
  data ++ skipn (length data) buf.

(** Value of a [uintN_t] of [n] bytes, initialised to 0, after [data] was
    read into its object representation. *)
Definition uint_of_bytes (n : Z) (data : list byte) : Z :=
  le_combine (firstn (Z.to_nat n) (fill (bytes_of_uint n 0) data)).

Definition bytes_eq_dec : forall a b : list byte, {a = b} + {a <> b} :=
  list_eq_dec Byte.byte_eq_dec.

(** [memcmp a b n]: 0 when the first [n] bytes agree. *)
Definition memcmp (a b : list byte) (n : Z) : Z :=
  if bytes_eq_dec (firstn (Z.to_nat n) a) (firstn (Z.to_nat n) b) then 0 else 1.

(** [memcpy(dst, src, n)]. *)
Definition memcpy (dst src : list byte) (n : Z) : list byte :=
  fill dst (firstn (Z.to_nat n) src).

(** ** The backend interface and the store *)

Section Store.

(** The type of the backend context. *)
Variable C : Type.

(** [struct kvstore_backend]: three callbacks, each possibly [NULL].  [read]
    returns the bytes it stored into the buffer. *)
Record kvstore_backend : Type := {
  read : option (C -> Z -> Z -> KvStoreResult * list byte * C);
  write : option (C -> list byte -> Z -> Z -> KvStoreResult * C);
  get_size : option (C -> Z * C)
}.

(** [struct kvstore]; the context the [backend_context] pointer refers to is
    the threaded state. *)
Record KvStore : Type := { backend : kvstore_backend }.

(** [struct kvstore_cursor]; the fields carry the prefix [cursor_] because
    the source reuses their names for function parameters. *)
Record KvStoreCursor : Type := {
  cursor_position : Z;
  cursor_key : list byte;
  cursor_key_size : Z
}.

(** Computations over the backend context. *)
Definition M (A : Type) : Type := C -> A * C.

Definition ret {A} (a : A) : M A := fun c => (a, c).
Definition bind {A B} (m : M A) (k : A -> M B) : M B :=
  fun c => let (a, c1) := m c in k a c1.

Notation "x <- m ;; k" := (bind m (fun x => k))
  (at level 61, m at next level, right associativity).
Notation "' p <- m ;; k" := (bind m (fun x => let 'p := x in k))
  (at level 61, p pattern, m at next level, right associativity).

Definition calculate_slot_size (key_size value_size : Z) : Z :=
  size_t (KVSTORE_HEADER_SIZE_BYTES + KVSTORE_KEY_SIZE_BYTES + key_size
          + KVSTORE_VALUE_SIZE_BYTES + value_size).

Definition calculate_value_size (slot_size key_size : Z) : Z :=
  size_t (slot_size - KVSTORE_HEADER_SIZE_BYTES - KVSTORE_KEY_SIZE_BYTES
          - key_size - KVSTORE_VALUE_SIZE_BYTES).

Definition write_slot (self : option KvStore) (position : Z)
    (key : option (list byte)) (key_size : Z)
    (value : option (list byte)) (value_size : Z) : M KvStoreResult :=
  match self with
  | None => ret KVSTORE_BAD_ARG
  | Some s =>
  if value_size =? 0 then ret KVSTORE_BAD_ARG else
  match get_size (backend s), write (backend s) with
  | Some be_get_size, Some be_write =>
    let slot_size := calculate_slot_size key_size value_size in
    size <- be_get_size ;;
    if size_t (position + slot_size) >? size then ret KVSTORE_FAILED else
    r <- (fun c => be_write c KVSTORE_HEADER_MAGIC position KVSTORE_HEADER_SIZE_BYTES) ;;
    if negb (result_eqb r KVSTORE_OK) then ret KVSTORE_FAILED else
    let position := size_t (position + KVSTORE_HEADER_SIZE_BYTES) in
    let tmp := uint_of_width KVSTORE_KEY_SIZE_BYTES key_size in
    r <- (fun c => be_write c (bytes_of_uint KVSTORE_KEY_SIZE_BYTES tmp) position
                     KVSTORE_KEY_SIZE_BYTES) ;;
    if negb (result_eqb r KVSTORE_OK) then ret KVSTORE_FAILED else
    let position := size_t (position + KVSTORE_KEY_SIZE_BYTES) in
    r <- match key with
         | Some k => fun c => be_write c k position key_size
         | None => ret KVSTORE_OK
         end ;;
    if negb (result_eqb r KVSTORE_OK) then ret KVSTORE_FAILED else
    let position := size_t (position + key_size) in
    let tmp2 := uint_of_width KVSTORE_VALUE_SIZE_BYTES value_size in
    r <- (fun c => be_write c (bytes_of_uint KVSTORE_VALUE_SIZE_BYTES tmp2) position
                     KVSTORE_VALUE_SIZE_BYTES) ;;
    if negb (result_eqb r KVSTORE_OK) then ret KVSTORE_FAILED else
    let position := size_t (position + KVSTORE_VALUE_SIZE_BYTES) in
    r <- match value with
         | Some v => fun c => be_write c v position value_size
         | None => ret KVSTORE_OK
         end ;;
    if negb (result_eqb r KVSTORE_OK) then ret KVSTORE_FAILED else
    ret KVSTORE_OK
  | _, _ => ret KVSTORE_BAD_ARG
  end
  end.

(** The local [uint8_t header[KVSTORE_HEADER_SIZE_BYTES]] of [read_slot];
    its initial bytes are indeterminate in the source and zero here. *)
Definition header_buffer : list byte :=
  repeat Byte.x00 (Z.to_nat KVSTORE_HEADER_SIZE_BYTES).

(** What [read_slot] leaves in its four pointer arguments: the key buffer,
    [*key_size], the value buffer and [*value_size]. *)
Record slot_out : Type := {
  out_key : option (list byte);
  out_key_size : option Z;
  out_value : option (list byte);
  out_value_size : option Z
}.

Definition read_slot (self : option KvStore) (position : Z)
    (key : option (list byte)) (key_size : option Z)
    (value : option (list byte)) (value_size : option Z)
    : M (KvStoreResult * slot_out) :=
  let out k ks v vs :=
    {| out_key := k; out_key_size := ks; out_value := v; out_value_size := vs |} in
  match self, key_size, value_size with
  | Some s, Some key_size0, Some value_size0 =>
  match get_size (backend s), read (backend s) with
  | Some be_get_size, Some be_read =>
    let unchanged := out key key_size value value_size in
    size <- be_get_size ;;
    if size_t (position + KVSTORE_HEADER_SIZE_BYTES) >? size
    then ret (KVSTORE_FAILED, unchanged) else
    '(r, header_data) <- (fun c => be_read c position KVSTORE_HEADER_SIZE_BYTES) ;;
    if negb (result_eqb r KVSTORE_OK) then ret (KVSTORE_FAILED, unchanged) else
    let header := fill header_buffer header_data in
    let position := size_t (position + KVSTORE_HEADER_SIZE_BYTES) in
    if negb (memcmp header KVSTORE_HEADER_MAGIC KVSTORE_HEADER_SIZE_BYTES =? 0)
    then ret (KVSTORE_FAILED, unchanged) else
    if size_t (position + KVSTORE_KEY_SIZE_BYTES) >? size
    then ret (KVSTORE_FAILED, unchanged) else
    '(r, tmp_bytes) <- (fun c => be_read c position KVSTORE_KEY_SIZE_BYTES) ;;
    if negb (result_eqb r KVSTORE_OK) then ret (KVSTORE_FAILED, unchanged) else
    let tmp := uint_of_bytes KVSTORE_KEY_SIZE_BYTES tmp_bytes in
    let position := size_t (position + KVSTORE_KEY_SIZE_BYTES) in
    if (tmp >? key_size0) && (match key with Some _ => true | None => false end)
    then ret (KVSTORE_FAILED, unchanged) else
    let key_size := Some tmp in
    if size_t (position + tmp) >? size
    then ret (KVSTORE_FAILED, out key key_size value value_size) else
    '(r, key) <- match key with
                 | Some k =>
                   '(r, data) <- (fun c => be_read c position tmp) ;;
                   ret (r, Some (fill k data))
                 | None => ret (KVSTORE_OK, None)
                 end ;;
    if negb (result_eqb r KVSTORE_OK)
    then ret (KVSTORE_FAILED, out key key_size value value_size) else
    let position := size_t (position + tmp) in
    if size_t (position + KVSTORE_VALUE_SIZE_BYTES) >? size
    then ret (KVSTORE_FAILED, out key key_size value value_size) else
    '(r, tmp2_bytes) <- (fun c => be_read c position KVSTORE_VALUE_SIZE_BYTES) ;;
    if negb (result_eqb r KVSTORE_OK)
    then ret (KVSTORE_FAILED, out key key_size value value_size) else
    let tmp2 := uint_of_bytes KVSTORE_VALUE_SIZE_BYTES tmp2_bytes in
    let position := size_t (position + KVSTORE_VALUE_SIZE_BYTES) in
    if (tmp2 >? value_size0) && (match value with Some _ => true | None => false end)
    then ret (KVSTORE_FAILED, out key key_size value value_size) else
    let value_size := Some tmp2 in
    if size_t (position + tmp2) >? size
    then ret (KVSTORE_FAILED, out key key_size value value_size) else
    '(r, value) <- match value with
                   | Some v =>
                     '(r, data) <- (fun c => be_read c position tmp2) ;;
                     ret (r, Some (fill v data))
                   | None => ret (KVSTORE_OK, None)
                   end ;;
    if negb (result_eqb r KVSTORE_OK)
    then ret (KVSTORE_FAILED, out key key_size value value_size) else
    ret (KVSTORE_OK, out key key_size value value_size)
  | _, _ => ret (KVSTORE_BAD_ARG, out key key_size value value_size)
  end
  | _, _, _ => ret (KVSTORE_BAD_ARG, out key key_size value value_size)
  end.

Definition advance_slot (self : option KvStore) (position : option Z)
    : M KvStoreResult :=
  match self, position with
  | Some _, Some _ => ret KVSTORE_OK
  | _, _ => ret KVSTORE_BAD_ARG
  end.

(** [kvstore_init] fills the caller's [KvStore]; it performs no backend call. *)
Definition kvstore_init (self : option KvStore) (backend : option kvstore_backend)
    : KvStoreResult * option KvStore :=
  match self, backend with
  | Some _, Some b => (KVSTORE_OK, Some {| backend := b |})
  | _, _ => (KVSTORE_BAD_ARG, self)
  end.

Definition kvstore_free (self : option KvStore) : KvStoreResult :=
  match self with
  | Some _ => KVSTORE_OK
  | None => KVSTORE_BAD_ARG
  end.

Definition kvstore_prepare (self : option KvStore) : M KvStoreResult :=
  match self with
  | None => ret KVSTORE_BAD_ARG
  | Some s =>
  match get_size (backend s) with
  | None => ret KVSTORE_BAD_ARG
  | Some be_get_size =>
    size <- be_get_size ;;
    let value_size := calculate_value_size size 0 in
    _ <- write_slot self 0 None 0 None value_size ;;
    ret KVSTORE_OK
  end
  end.

(** Value of a length variable after a call that received its address. *)
Definition deref (p : option Z) (old : Z) : Z :=
  match p with Some x => x | None => old end.

(** How the scan loop of [kvstore_put] is left: by [return] or by [break]
    (with the scan position reached). *)
Inductive loop_exit : Type :=
| LoopReturn (r : KvStoreResult)
| LoopBreak (position : Z).

(** The [while (1)] loop of [kvstore_put]; [fuel] bounds the number of
    iterations and [None] means that it ran out. *)
Fixpoint put_loop (fuel : nat) (self : option KvStore)
    (key : option (list byte)) (key_size : Z)
    (value : option (list byte)) (value_size : Z)
    (size position found_key_size found_value_size : Z) (c : C)
    : option (loop_exit * C) :=
  match fuel with
  | O => None
  | S fuel =>
    if position >=? size then Some (LoopBreak position, c) else
    let '(r, o, c) :=
      read_slot self position None (Some found_key_size) None (Some found_value_size) c in
    if negb (result_eqb r KVSTORE_OK) then Some (LoopReturn KVSTORE_FAILED, c) else
    let found_key_size := deref (out_key_size o) found_key_size in
    let found_value_size := deref (out_value_size o) found_value_size in
    if found_key_size >? 0 then
      put_loop fuel self key key_size value value_size size
        (size_t (position + calculate_slot_size found_key_size found_value_size))
        found_key_size found_value_size c
    else
    if calculate_slot_size found_key_size found_value_size <?
       size_t (calculate_slot_size key_size value_size + calculate_slot_size 0 0)
    then
      put_loop fuel self key key_size value value_size size
        (size_t (position + calculate_slot_size found_key_size found_value_size))
        found_key_size found_value_size c
    else
    let remaining_space :=
      size_t (calculate_slot_size found_key_size found_value_size
              - calculate_slot_size key_size value_size) in
    let slot2_value_size := calculate_value_size remaining_space 0 in
    let '(_, c) := write_slot self position key key_size value value_size c in
    let position := size_t (position + calculate_slot_size key_size value_size) in
    let '(_, c) := write_slot self position None 0 None slot2_value_size c in
    Some (LoopReturn KVSTORE_OK, c)
  end.

Definition kvstore_put (fuel : nat) (self : option KvStore)
    (key : option (list byte)) (key_size : Z)
    (value : option (list byte)) (value_size : Z) (c : C)
    : option (KvStoreResult * C) :=
  match self, key, value with
  | Some s, Some _, Some _ =>
    if (key_size =? 0) || (value_size =? 0) || (key_size >? KVSTORE_MAX_KEY_SIZE)
    then Some (KVSTORE_BAD_ARG, c) else
    match get_size (backend s) with
    | None => Some (KVSTORE_BAD_ARG, c)
    | Some be_get_size =>
      let '(size, c) := be_get_size c in
      match put_loop fuel self key key_size value value_size size 0 0 0 c with
      | None => None
      | Some (LoopReturn r, c) => Some (r, c)
      | Some (LoopBreak position, c) =>
        let '(r, c) := write_slot self position key key_size value value_size c in
        if negb (result_eqb r KVSTORE_OK) then Some (KVSTORE_NOT_FOUND, c)
        else Some (KVSTORE_OK, c)
      end
    end
  | _, _, _ => Some (KVSTORE_BAD_ARG, c)
  end.

Definition kvstore_advance (self : option KvStore) (cursor : option KvStoreCursor)
    : M (KvStoreResult * option KvStoreCursor) :=
  match self, cursor with
  | Some _, Some cur =>
    '(r, o) <- read_slot self (cursor_position cur) None (Some 0) None (Some 0) ;;
    if negb (result_eqb r KVSTORE_OK) then ret (KVSTORE_FAILED, cursor) else
    let key_size := deref (out_key_size o) 0 in
    let value_size := deref (out_value_size o) 0 in
    ret (KVSTORE_OK,
         Some {| cursor_position :=
                   size_t (cursor_position cur + calculate_slot_size key_size value_size);
                 cursor_key := cursor_key cur;
                 cursor_key_size := cursor_key_size cur |})
  | _, _ => ret (KVSTORE_BAD_ARG, cursor)
  end.

(** The local [uint8_t key[KVSTORE_MAX_KEY_SIZE]] of [kvstore_search_next];
    its initial bytes are indeterminate in the source and zero here. *)
Definition search_key_buffer : list byte :=
  repeat Byte.x00 (Z.to_nat KVSTORE_MAX_KEY_SIZE).

(** The [while (1)] loop of [kvstore_search_next] on a non-[NULL] cursor. *)
Fixpoint search_next_loop (fuel : nat) (self : option KvStore) (cur : KvStoreCursor)
    (c : C) : option (KvStoreResult * KvStoreCursor * C) :=
  match fuel with
  | O => None
  | S fuel =>
    let '(r, o, c) :=
      read_slot self (cursor_position cur) (Some search_key_buffer)
        (Some KVSTORE_MAX_KEY_SIZE) None (Some 0) c in
    if negb (result_eqb r KVSTORE_OK) then Some (KVSTORE_FAILED, cur, c) else
    let key := match out_key o with Some k => k | None => search_key_buffer end in
    let key_size := deref (out_key_size o) KVSTORE_MAX_KEY_SIZE in
    if negb (key_size =? cursor_key_size cur) then
      let '(_, cursor, c) := kvstore_advance self (Some cur) c in
      search_next_loop fuel self (match cursor with Some x => x | None => cur end) c
    else
    if negb (memcmp key (cursor_key cur) key_size =? 0) then
      let '(_, cursor, c) := kvstore_advance self (Some cur) c in
      search_next_loop fuel self (match cursor with Some x => x | None => cur end) c
    else
    Some (KVSTORE_OK, cur, c)
  end.

Definition kvstore_search_next (fuel : nat) (self : option KvStore)
    (cursor : option KvStoreCursor) (c : C)
    : option (KvStoreResult * option KvStoreCursor * C) :=
  match self, cursor with
  | Some _, Some cur =>
    match search_next_loop fuel self cur c with
    | Some (r, cur, c) => Some (r, Some cur, c)
    | None => None
    end
  | _, _ => Some (KVSTORE_BAD_ARG, cursor, c)
  end.

Definition kvstore_search (fuel : nat) (self : option KvStore)
    (cursor : option KvStoreCursor) (key : option (list byte)) (key_size : Z) (c : C)
    : option (KvStoreResult * option KvStoreCursor * C) :=
  match self, cursor, key with
  | Some _, Some cur, Some k =>
    if (key_size =? 0) || (key_size >? KVSTORE_MAX_KEY_SIZE)
    then Some (KVSTORE_BAD_ARG, cursor, c) else
    let cur := {| cursor_position := 0;
                  cursor_key := memcpy (cursor_key cur) k key_size;
                  cursor_key_size := key_size |} in
    kvstore_search_next fuel self (Some cur) c
  | _, _, _ => Some (KVSTORE_BAD_ARG, cursor, c)
  end.

Definition kvstore_get (self : option KvStore) (cursor : option KvStoreCursor)
    (value : option (list byte)) (value_size : option Z)
    : M (KvStoreResult * option (list byte) * option Z) :=
  match self, cursor, value, value_size with
  | Some _, Some cur, Some _, Some value_size0 =>
    if value_size0 =? 0 then ret (KVSTORE_BAD_ARG, value, value_size) else
    '(r, o) <- read_slot self (cursor_position cur) None (Some 0) value value_size ;;
    ret (r, out_value o, out_value_size o)
  | _, _, _, _ => ret (KVSTORE_BAD_ARG, value, value_size)
  end.

Definition kvstore_get_kv (self : option KvStore) (cursor : option KvStoreCursor)
    (key : option (list byte)) (key_size : option Z)
    (value : option (list byte)) (value_size : option Z)
    : M (KvStoreResult * slot_out) :=
  match self, cursor, key_size, value_size with
  | Some _, Some cur, Some _, Some _ =>
    read_slot self (cursor_position cur) key key_size value value_size
  | _, _, _, _ =>
    ret (KVSTORE_BAD_ARG,
         {| out_key := key; out_key_size := key_size;
            out_value := value; out_value_size := value_size |})
  end.

End Store.

Arguments read {C}.
Arguments write {C}.
Arguments get_size {C}.
Arguments backend {C}.
Arguments Build_kvstore_backend {C}.
Arguments Build_KvStore {C}.
Arguments ret {C A}.
Arguments bind {C A B}.
Arguments write_slot {C}.
Arguments read_slot {C}.
Arguments advance_slot {C}.
Arguments kvstore_init {C}.
Arguments kvstore_free {C}.
Arguments kvstore_prepare {C}.
Arguments put_loop {C}.
Arguments kvstore_put {C}.
Arguments kvstore_advance {C}.
Arguments search_next_loop {C}.
Arguments kvstore_search_next {C}.
Arguments kvstore_search {C}.
Arguments kvstore_get {C}.
Arguments kvstore_get_kv {C}.

(** ** A fixed-capacity RAM buffer as backend

    The storage medium is supplied by the caller of the library.  This
    instance is the byte buffer of the backend contract: [read] and [write]
    succeed exactly on ranges inside the buffer, a failed call changes
    nothing, and [get_size] is the constant capacity.  A [write] whose
    source holds fewer bytes than requested has no counterpart in C (it
    would read past the source object) and is refused. *)

Definition ram : Type := list byte.

Definition ram_read (m : ram) (pos size : Z) : KvStoreResult * list byte * ram :=
  if (0 <=? pos) && (0 <=? size) && (pos + size <=? Z.of_nat (length m))
  then (KVSTORE_OK, firstn (Z.to_nat size) (skipn (Z.to_nat pos) m), m)
  else (KVSTORE_FAILED, [], m).

Definition ram_write (m : ram) (buf : list byte) (pos size : Z) : KvStoreResult * ram :=
  if (0 <=? pos) && (0 <=? size) && (pos + size <=? Z.of_nat (length m))
     && (size <=? Z.of_nat (length buf))
  then (KVSTORE_OK,
        firstn (Z.to_nat pos) m ++ firstn (Z.to_nat size) buf
          ++ skipn (Z.to_nat (pos + size)) m)
  else (KVSTORE_FAILED, m).

Definition ram_get_size (m : ram) : Z * ram := (Z.of_nat (length m), m).

Definition ram_backend : kvstore_backend ram :=
  {| read := Some ram_read; write := Some ram_write; get_size := Some ram_get_size |}.

Definition ram_store : option (KvStore ram) := Some {| backend := ram_backend |}.

(** ** The contents of the RAM buffer *)

(** The [size] bytes at offset [pos]. *)
Definition bytes_at (m : ram) (pos size : Z) : list byte :=
  firstn (Z.to_nat size) (skipn (Z.to_nat pos) m).

(** The buffer with [data] stored at offset [pos]. *)
Definition store_bytes (m : ram) (pos : Z) (data : list byte) : ram :=
  firstn (Z.to_nat pos) m ++ data ++ skipn (Z.to_nat pos + length data) m.

(** The encoding of an occupied slot and of the fields of a free slot (whose
    padding bytes are never written). *)
Definition encode_slot (k v : list byte) : list byte :=
  KVSTORE_HEADER_MAGIC
    ++ bytes_of_uint KVSTORE_KEY_SIZE_BYTES (Z.of_nat (length k)) ++ k
    ++ bytes_of_uint KVSTORE_VALUE_SIZE_BYTES (Z.of_nat (length v)) ++ v.

Definition encode_free (value_size : Z) : list byte :=
  KVSTORE_HEADER_MAGIC
    ++ bytes_of_uint KVSTORE_KEY_SIZE_BYTES 0
    ++ bytes_of_uint KVSTORE_VALUE_SIZE_BYTES value_size.

(** The slot that starts at offset [p], as its two lengths, when the header,
    both length fields and the payloads lie inside the buffer. *)
Definition slot_at (m : ram) (p : Z) : option (Z * Z) :=
  let size := Z.of_nat (length m) in
  if (0 <=? p) && (p + 8 <=? size)
     && (if bytes_eq_dec (bytes_at m p 4) KVSTORE_HEADER_MAGIC then true else false)
  then
    let ks := le_combine (bytes_at m (p + 4) 4) in
    if p + 8 + ks + 4 <=? size then
      let vs := le_combine (bytes_at m (p + 8 + ks) 4) in
      if p + 12 + ks + vs <=? size then Some (ks, vs) else None
    else None
  else None.

(** A decoded slot: offset, key length, value length. *)
Definition slot : Type := (Z * Z * Z)%type.

Definition slot_pos (s : slot) : Z := fst (fst s).
Definition slot_key_size (s : slot) : Z := snd (fst s).
Definition slot_value_size (s : slot) : Z := snd s.
Definition slot_span (s : slot) : Z := 12 + slot_key_size s + slot_value_size s.
Definition slot_key (m : ram) (s : slot) : list byte :=
  bytes_at m (slot_pos s + 8) (slot_key_size s).
Definition slot_value (m : ram) (s : slot) : list byte :=
  bytes_at m (slot_pos s + 12 + slot_key_size s) (slot_value_size s).

(** Decoding slots one after the other from offset [p]; the result is the
    list of the slots when the decoding stops exactly at the end of the
    buffer, and [None] when a slot does not decode. *)
Fixpoint slots_from (fuel : nat) (m : ram) (p : Z) : option (list slot) :=
  if p =? Z.of_nat (length m) then Some [] else
  match fuel with
  | O => None
  | S fuel =>
    match slot_at m p with
    | Some (ks, vs) =>
      match slots_from fuel m (p + 12 + ks + vs) with
      | Some l => Some ((p, ks, vs) :: l)
      | None => None
      end
    | None => None
    end
  end.

(** The packing invariant: the slots decoded from offset 0 tile the buffer. *)
Definition slots (m : ram) : option (list slot) := slots_from (S (length m)) m 0.

Definition packed (m : ram) : bool :=
  match slots m with Some _ => true | None => false end.

(** [chain m p l q]: the slots [l] tile the range from [p] to [q]. *)
Inductive chain (m : ram) : Z -> list slot -> Z -> Prop :=
| chain_nil p : chain m p [] p
| chain_cons p ks vs l q :
    slot_at m p = Some (ks, vs) ->
    chain m (p + 12 + ks + vs) l q ->
    chain m p ((p, ks, vs) :: l) q.

(** ** Cursors, scans, recorded calls and sample stores *)

(** The cursor [cur] moved to offset [p]. *)
Definition with_position (cur : KvStoreCursor) (p : Z) : KvStoreCursor :=
  {| cursor_position := p;
     cursor_key := cursor_key cur;
     cursor_key_size := cursor_key_size cur |}.

(** The cursor has captured the key [K]. *)
Definition cursor_for (K : list byte) (cur : KvStoreCursor) : Prop :=
  cursor_key_size cur = Z.of_nat (length K)
  /\ firstn (length K) (cursor_key cur) = K.

(** The occupied slot [s] of [m] holds the key [K]. *)
Definition holds_key (m : ram) (K : list byte) (s : slot) : bool :=
  if bytes_eq_dec (slot_key m s) K then true else false.

(** A free slot that the pair of slot size [need] can split. *)
Definition usable (need : Z) (s : slot) : bool :=
  (slot_key_size s =? 0) && (need + 12 <=? slot_span s).

(** The buffer after the split of the free slot at [p], of value size [fvs]:
    the occupied slot, then the fields of the free slot of the remaining
    space, which [write_slot] refuses to write when no padding remains. *)
Definition split_result (m : ram) (p : Z) (k v : list byte) (fvs : Z) : ram :=
  let m1 := store_bytes m p (encode_slot k v) in
  let rest := fvs - Z.of_nat (length k) - Z.of_nat (length v) - 12 in
  if rest =? 0 then m1
  else store_bytes m1 (p + 12 + Z.of_nat (length k) + Z.of_nat (length v)) (encode_free rest).

(** The key [K] is not the key of any occupied slot of [l]. *)
Definition key_absent (m : ram) (K : list byte) (l : list slot) : bool :=
  forallb (fun s => negb ((0 <? slot_key_size s) && holds_key m K s)) l.

(** Every key stored in [l] fits the key buffer of a cursor. *)
Definition keys_fit (l : list slot) : bool :=
  forallb (fun s => slot_key_size s <=? KVSTORE_MAX_KEY_SIZE) l.

(** The cursor that [kvstore_search] initialises from the caller's cursor. *)
Definition search_cursor (cur0 : KvStoreCursor) (K : list byte) : KvStoreCursor :=
  {| cursor_position := 0;
     cursor_key := memcpy (cursor_key cur0) K (Z.of_nat (length K));
     cursor_key_size := Z.of_nat (length K) |}.

(** A backend that records the calls it receives. *)
Inductive backend_call : Type :=
| CallRead (pos size : Z)
| CallWrite (buf : list byte) (pos size : Z)
| CallGetSize.

Definition is_write (e : backend_call) : bool :=
  match e with CallWrite _ _ _ => true | _ => false end.

Definition writes_of (log : list backend_call) : list backend_call :=
  filter is_write log.

Definition traced {C} (b : kvstore_backend C) : kvstore_backend (C * list backend_call) :=
  {| read := option_map
       (fun f (st : C * list backend_call) pos size =>
          let '(r, data, c) := f (fst st) pos size in
          (r, data, (c, snd st ++ [CallRead pos size])))
       (read b);
     write := option_map
       (fun f (st : C * list backend_call) buf pos size =>
          let '(r, c) := f (fst st) buf pos size in
          (r, (c, snd st ++ [CallWrite buf pos size])))
       (write b);
     get_size := option_map
       (fun f (st : C * list backend_call) =>
          let '(n, c) := f (fst st) in (n, (c, snd st ++ [CallGetSize])))
       (get_size b) |}.

(** The context in which a fuelled call ends; the initial one when the fuel
    ran out. *)
Definition state_after {A S} (o : option (A * S)) (s : S) : S :=
  match o with Some (_, s') => s' | None => s end.

(** Every slot of [l] is occupied, with a key that fits the key buffer. *)
Definition occupied_fit (l : list slot) : bool :=
  forallb (fun s => (0 <? slot_key_size s) && (slot_key_size s <=? KVSTORE_MAX_KEY_SIZE)) l.

(** A zero-filled buffer of [n] bytes. *)
Definition zeros (n : nat) : ram := repeat Byte.x00 n.

(** The buffer of [n] zero bytes after [kvstore_prepare]. *)
Definition prepared (n : nat) : ram := snd (kvstore_prepare ram_store (zeros n)).

(** The buffer [m] after [kvstore_put] of the pair [(k, v)]. *)
Definition after_put (k v : list byte) (m : ram) : ram :=
  state_after
    (kvstore_put (S (length m)) ram_store (Some k) (Z.of_nat (length k))
       (Some v) (Z.of_nat (length v)) m) m.

Definition key_a : list byte := [Byte.x61].
Definition key_z : list byte := [Byte.x7a].
Definition value_bc : list byte := [Byte.x62; Byte.x63].
Definition value_de : list byte := [Byte.x64; Byte.x65].

(** A 64-byte store that holds the pair ("a", "bc"). *)
Definition store_a : ram := after_put key_a value_bc (prepared 64).

(** A 30-byte store that holds ("a", "bc"); its free slot is too small for
    another such pair. *)
Definition store_full : ram := after_put key_a value_bc (prepared 30).

(** A cursor as a caller declares it before [kvstore_search]. *)
Definition blank_cursor : KvStoreCursor :=
  {| cursor_position := 0;
     cursor_key := repeat Byte.x00 (Z.to_nat KVSTORE_MAX_KEY_SIZE);
     cursor_key_size := 0 |}.

(** A backend over the same bytes whose [write] callback always fails
    (a write-protected medium). *)
Definition write_protected_backend : kvstore_backend ram :=
  {| read := Some ram_read;
     write := Some (fun m _ _ _ => (KVSTORE_FAILED, m));
     get_size := Some ram_get_size |}.

Definition write_protected_store : option (KvStore ram) :=
  Some {| backend := write_protected_backend |}.

(** ** The store as a list of pairs *)

(** The slot is occupied: its key length is not 0. *)
Definition slot_occupied (s : slot) : bool := 0 <? slot_key_size s.

(** The pairs that the occupied slots of [l] hold, in scan order. *)
Definition contents (m : ram) (l : list slot) : list (list byte * list byte) :=
  map (fun s => (slot_key m s, slot_value m s)) (filter slot_occupied l).

(** The value of the first pair of [ps] whose key is [K]. *)
Definition lookup (K : list byte) (ps : list (list byte * list byte))
    : option (list byte) :=
  match find (fun kv => if bytes_eq_dec (fst kv) K then true else false) ps with
  | Some kv => Some (snd kv)
  | None => None
  end.

(** A 25-byte buffer whose second slot, at offset 17, carries the key length
    [2^32 - 12]: the position after its key wraps around to offset 13, the
    value of the first slot, which reads as the value length 0. *)
Definition store_wrapping : ram :=
  encode_slot key_a (zeros 4) ++ KVSTORE_HEADER_MAGIC ++ bytes_of_uint 4 (2 ^ 32 - 12).

(** A packed 47-byte buffer whose first slot holds a key of 17 bytes, one more
    than the key buffer of a cursor takes. *)
Definition key17 : list byte := repeat Byte.x6b 17.

Definition store17 : ram := encode_slot key17 value_bc ++ encode_free 4 ++ zeros 4.

(** ** What the backend answers to the calls of [read_slot] *)

(** The [get_size] and [read] callbacks of the store, when the store and
    both callbacks are there. *)
Definition callbacks {C : Type} (self : option (KvStore C))
    : option ((C -> Z * C) * (C -> Z -> Z -> KvStoreResult * list byte * C)) :=
  match self with
  | Some s =>
    match get_size (backend s), read (backend s) with
    | Some be_get_size, Some be_read => Some (be_get_size, be_read)
    | _, _ => None
    end
  | None => None
  end.

Section Answers.

Variable C : Type.
Variable be_get_size : C -> Z * C.
Variable be_read : C -> Z -> Z -> KvStoreResult * list byte * C.
Variables (position : Z) (key : option (list byte)) (key_capacity : Z).
Variables (value : option (list byte)) (value_capacity : Z) (c : C).

(** The size that the backend reports to [read_slot]. *)
Definition reported_size : Z := fst (be_get_size c).

(** The answer of the backend to the read of the header. *)
Definition header_answer : KvStoreResult * list byte * C :=
  be_read (snd (be_get_size c)) position KVSTORE_HEADER_SIZE_BYTES.

Definition key_size_position : Z := size_t (position + KVSTORE_HEADER_SIZE_BYTES).

(** The answer of the backend to the read of the key length, and the key
    length decoded from it. *)
Definition key_size_answer : KvStoreResult * list byte * C :=
  be_read (snd header_answer) key_size_position KVSTORE_KEY_SIZE_BYTES.

Definition decoded_key_size : Z :=
  uint_of_bytes KVSTORE_KEY_SIZE_BYTES (snd (fst key_size_answer)).

(** The header and the key length lie within the reported size, the backend
    read both, and the header is the magic number. *)
Definition key_size_decoded : bool :=
  negb (key_size_position >? reported_size)
  && result_eqb (fst (fst header_answer)) KVSTORE_OK
  && (memcmp (fill header_buffer (snd (fst header_answer))) KVSTORE_HEADER_MAGIC
        KVSTORE_HEADER_SIZE_BYTES =? 0)
  && negb (size_t (key_size_position + KVSTORE_KEY_SIZE_BYTES) >? reported_size)
  && result_eqb (fst (fst key_size_answer)) KVSTORE_OK.

(** The key length was decoded and is within the capacity of the key buffer,
    when there is one. *)
Definition key_size_stored : bool :=
  key_size_decoded
  && negb ((decoded_key_size >? key_capacity)
           && match key with Some _ => true | None => false end).

Definition key_position : Z := size_t (key_size_position + KVSTORE_KEY_SIZE_BYTES).

(** The result of the read of the key and the context after it; without a
    key buffer the backend is not called. *)
Definition key_answer : KvStoreResult * C :=
  match key with
  | Some _ =>
    let '(r, _, c) := be_read (snd key_size_answer) key_position decoded_key_size in (r, c)
  | None => (KVSTORE_OK, snd key_size_answer)
  end.

Definition value_size_position : Z := size_t (key_position + decoded_key_size).

(** The answer of the backend to the read of the value length, and the value
    length decoded from it. *)
Definition value_size_answer : KvStoreResult * list byte * C :=
  be_read (snd key_answer) value_size_position KVSTORE_VALUE_SIZE_BYTES.

Definition decoded_value_size : Z :=
  uint_of_bytes KVSTORE_VALUE_SIZE_BYTES (snd (fst value_size_answer)).

(** The key length was stored, the key and the value length lie within the
    reported size and the backend read them. *)
Definition value_size_decoded : bool :=
  key_size_stored
  && negb (value_size_position >? reported_size)
  && result_eqb (fst key_answer) KVSTORE_OK
  && negb (size_t (value_size_position + KVSTORE_VALUE_SIZE_BYTES) >? reported_size)
  && result_eqb (fst (fst value_size_answer)) KVSTORE_OK.

(** The value length was decoded and is within the capacity of the value
    buffer, when there is one. *)
Definition value_size_stored : bool :=
  value_size_decoded
  && negb ((decoded_value_size >? value_capacity)
           && match value with Some _ => true | None => false end).

Definition value_position : Z := size_t (value_size_position + KVSTORE_VALUE_SIZE_BYTES).

(** The value lies within the reported size and the backend read it, when
    there is a value buffer. *)
Definition value_read : bool :=
  negb (size_t (value_position + decoded_value_size) >? reported_size)
  && match value with
     | Some _ =>
       result_eqb
         (fst (fst (be_read (snd value_size_answer) value_position decoded_value_size)))
         KVSTORE_OK
     | None => true
     end.

End Answers.

Arguments decoded_key_size {C}.
Arguments key_size_stored {C}.
Arguments decoded_value_size {C}.
Arguments value_size_stored {C}.
Arguments value_read {C}.

(** * Lemmas and theorems *)

(** ** Lists of bytes *)

Lemma bytes_at_length m p n :
  0 <= p -> 0 <= n -> p + n <= Z.of_nat (length m) ->
  length (bytes_at m p n) = Z.to_nat n.
Proof.
  intros Hp Hn Hb. unfold bytes_at.
  rewrite length_firstn, length_skipn. lia.
Qed.

Lemma store_bytes_length m p d :
  0 <= p -> p + Z.of_nat (length d) <= Z.of_nat (length m) ->
  length (store_bytes m p d) = length m.
Proof.
  intros Hp Hb. unfold store_bytes.
  rewrite !length_app, length_firstn, length_skipn. lia.
Qed.

Lemma store_bytes_nil m p : store_bytes m p [] = m.
Proof.
  unfold store_bytes. simpl. rewrite Nat.add_0_r. apply firstn_skipn.
Qed.

Lemma bytes_at_store_in m p d i n :
  0 <= p -> p + Z.of_nat (length d) <= Z.of_nat (length m) ->
  0 <= i -> 0 <= n -> i + n <= Z.of_nat (length d) ->
  bytes_at (store_bytes m p d) (p + i) n = firstn (Z.to_nat n) (skipn (Z.to_nat i) d).
Proof.
  intros Hp Hb Hi Hn Hin. unfold bytes_at, store_bytes.
  rewrite skipn_app, length_firstn.
  replace (skipn (Z.to_nat (p + i)) (firstn (Z.to_nat p) m)) with (@nil byte)
    by (symmetry; apply skipn_all2; rewrite length_firstn; lia).
  simpl.
  replace (Z.to_nat (p + i) - Nat.min (Z.to_nat p) (length m))%nat with (Z.to_nat i) by lia.
  rewrite skipn_app, firstn_app.
  rewrite length_skipn.
  replace (Z.to_nat n - (length d - Z.to_nat i))%nat with 0%nat by lia.
  simpl. apply app_nil_r.
Qed.

Lemma bytes_at_store_same m p d :
  0 <= p -> p + Z.of_nat (length d) <= Z.of_nat (length m) ->
  bytes_at (store_bytes m p d) p (Z.of_nat (length d)) = d.
Proof.
  intros Hp Hb.
  replace p with (p + 0) at 2 by lia.
  rewrite bytes_at_store_in by lia.
  simpl. rewrite Nat2Z.id. apply firstn_all.
Qed.

Lemma bytes_at_store_before m p d q n :
  0 <= q -> 0 <= n -> q + n <= p -> p <= Z.of_nat (length m) ->
  bytes_at (store_bytes m p d) q n = bytes_at m q n.
Proof.
  intros Hq Hn Hqp Hb. unfold bytes_at, store_bytes.
  rewrite skipn_app, firstn_app.
  rewrite length_skipn, length_firstn.
  replace (Z.to_nat n - (Nat.min (Z.to_nat p) (length m) - Z.to_nat q))%nat with 0%nat by lia.
  simpl. rewrite app_nil_r.
  rewrite skipn_firstn_comm, firstn_firstn.
  f_equal. lia.
Qed.

Lemma bytes_at_store_after m p d q n :
  0 <= p -> p + Z.of_nat (length d) <= q -> p + Z.of_nat (length d) <= Z.of_nat (length m) ->
  bytes_at (store_bytes m p d) q n = bytes_at m q n.
Proof.
  intros Hp Hpq Hb. unfold bytes_at, store_bytes.
  f_equal.
  rewrite app_assoc, skipn_app.
  rewrite skipn_all2 by (rewrite length_app, length_firstn; lia).
  simpl. rewrite length_app, length_firstn, skipn_skipn.
  f_equal. lia.
Qed.

Lemma store_bytes_adjacent m p d1 d2 :
  0 <= p ->
  p + Z.of_nat (length d1) + Z.of_nat (length d2) <= Z.of_nat (length m) ->
  store_bytes (store_bytes m p d1) (p + Z.of_nat (length d1)) d2
  = store_bytes m p (d1 ++ d2).
Proof.
  intros Hp Hb. unfold store_bytes.
  rewrite <- !app_assoc. rewrite firstn_app, length_firstn.
  rewrite firstn_firstn.
  replace (Nat.min (Z.to_nat (p + Z.of_nat (length d1))) (Z.to_nat p)) with (Z.to_nat p) by lia.
  replace (Z.to_nat (p + Z.of_nat (length d1)) - Nat.min (Z.to_nat p) (length m))%nat
    with (length d1) by lia.
  rewrite firstn_app, firstn_all, Nat.sub_diag. simpl. rewrite app_nil_r.
  rewrite <- app_assoc. do 3 f_equal.
  rewrite app_assoc, skipn_app.
  rewrite skipn_all2 by (rewrite length_app, length_firstn; lia).
  simpl. rewrite !length_app, length_firstn, skipn_skipn.
  f_equal. lia.
Qed.

(** ** The callbacks of the RAM buffer and the slot codec over it *)

Lemma size_t_small x : 0 <= x < 2 ^ 32 -> size_t x = x.
Proof. intros H. unfold size_t, SIZE_BITS. apply Z.mod_small. exact H. Qed.

Lemma gtb_false a b : a <= b -> (a >? b) = false.
Proof. intros H. rewrite Z.gtb_ltb. apply Z.ltb_ge. exact H. Qed.

Lemma gtb_true a b : b < a -> (a >? b) = true.
Proof. intros H. rewrite Z.gtb_ltb. apply Z.ltb_lt. exact H. Qed.

Lemma ram_read_ok m p n :
  0 <= p -> 0 <= n -> p + n <= Z.of_nat (length m) ->
  ram_read m p n = (KVSTORE_OK, bytes_at m p n, m).
Proof.
  intros Hp Hn Hb. unfold ram_read.
  replace ((0 <=? p) && (0 <=? n) && (p + n <=? Z.of_nat (length m))) with true; [reflexivity|].
  symmetry. rewrite !andb_true_iff, !Z.leb_le. lia.
Qed.

Lemma ram_write_ok m d p n :
  0 <= p -> n = Z.of_nat (length d) -> p + n <= Z.of_nat (length m) ->
  ram_write m d p n = (KVSTORE_OK, store_bytes m p d).
Proof.
  intros Hp -> Hb. unfold ram_write.
  replace ((0 <=? p) && (0 <=? Z.of_nat (length d))
           && (p + Z.of_nat (length d) <=? Z.of_nat (length m))
           && (Z.of_nat (length d) <=? Z.of_nat (length d))) with true.
  - unfold store_bytes. rewrite Nat2Z.id, firstn_all.
    replace (Z.to_nat (p + Z.of_nat (length d))) with (Z.to_nat p + length d)%nat by lia.
    reflexivity.
  - symmetry. rewrite !andb_true_iff, !Z.leb_le. lia.
Qed.

Lemma uint_of_bytes_4 d : length d = 4%nat -> uint_of_bytes 4 d = le_combine d.
Proof.
  intros H. unfold uint_of_bytes, fill.
  rewrite firstn_app, H. change (Z.to_nat 4) with 4%nat.
  rewrite Nat.sub_diag. simpl firstn at 2. rewrite app_nil_r.
  rewrite <- H. rewrite firstn_all. reflexivity.
Qed.

Lemma slot_at_inv m p ks vs :
  slot_at m p = Some (ks, vs) ->
  0 <= p /\ bytes_at m p 4 = KVSTORE_HEADER_MAGIC
  /\ ks = le_combine (bytes_at m (p + 4) 4) /\ 0 <= ks
  /\ vs = le_combine (bytes_at m (p + 8 + ks) 4) /\ 0 <= vs
  /\ p + 12 + ks + vs <= Z.of_nat (length m).
Proof.
  unfold slot_at. intros H.
  destruct ((0 <=? p) && (p + 8 <=? Z.of_nat (length m))
     && (if bytes_eq_dec (bytes_at m p 4) KVSTORE_HEADER_MAGIC then true else false)) eqn:E1;
    [|discriminate].
  apply andb_true_iff in E1. destruct E1 as [E1 E3].
  apply andb_true_iff in E1. destruct E1 as [E1 E2].
  destruct (bytes_eq_dec (bytes_at m p 4) KVSTORE_HEADER_MAGIC) as [Hm|]; [|discriminate].
  destruct (p + 8 + le_combine (bytes_at m (p + 4) 4) + 4 <=? Z.of_nat (length m)) eqn:E4;
    [|discriminate].
  destruct (p + 12 + le_combine (bytes_at m (p + 4) 4)
            + le_combine (bytes_at m (p + 8 + le_combine (bytes_at m (p + 4) 4)) 4)
            <=? Z.of_nat (length m)) eqn:E5; [|discriminate].
  inversion H; subst; clear H.
  apply Z.leb_le in E1, E2, E4, E5.
  pose proof (le_combine_bound (bytes_at m (p + 4) 4)).
  pose proof (le_combine_bound (bytes_at m (p + 8 + le_combine (bytes_at m (p + 4) 4)) 4)).
  repeat split; try assumption; try lia.
Qed.

Lemma memcmp_refl a n : memcmp a a n = 0.
Proof. unfold memcmp. destruct (bytes_eq_dec _ _); [reflexivity | congruence]. Qed.

Lemma fill_header_buffer d : length d = 4%nat -> fill header_buffer d = d.
Proof.
  intros H. unfold fill. rewrite H. apply app_nil_r.
Qed.

Ltac ram_step :=
  match goal with
  | |- context [fill header_buffer (bytes_at ?m ?p 4)] =>
    rewrite (fill_header_buffer (bytes_at m p 4)) by (rewrite bytes_at_length; lia)
  | |- context [size_t ?x] => rewrite (size_t_small x) by lia
  | |- context [?a >? ?b] =>
    first [rewrite (gtb_false a b) by lia | rewrite (gtb_true a b) by lia]
  | |- context [ram_read ?m ?p ?n] => rewrite (ram_read_ok m p n) by lia
  | |- context [uint_of_bytes 4 (bytes_at ?m ?p 4)] =>
    rewrite (uint_of_bytes_4 (bytes_at m p 4)) by (rewrite bytes_at_length; lia)
  | |- context [memcmp ?a ?a ?n] => rewrite (memcmp_refl a n)
  end.

Ltac ram_simpl :=
  repeat first
    [ ram_step
    | progress (cbn beta iota zeta)
    | progress (cbn [negb result_eqb Z.eqb andb orb option_map
                     out_key out_key_size out_value out_value_size deref]) ].
Lemma read_slot_ram m p ks vs key kcap value vcap :
  Z.of_nat (length m) < 2 ^ 32 ->
  slot_at m p = Some (ks, vs) ->
  read_slot ram_store p key (Some kcap) value (Some vcap) m =
  if (ks >? kcap) && (match key with Some _ => true | None => false end) then
    (KVSTORE_FAILED,
     {| out_key := key; out_key_size := Some kcap;
        out_value := value; out_value_size := Some vcap |}, m)
  else
  let key' := option_map (fun k => fill k (bytes_at m (p + 8) ks)) key in
  if (vs >? vcap) && (match value with Some _ => true | None => false end) then
    (KVSTORE_FAILED,
     {| out_key := key'; out_key_size := Some ks;
        out_value := value; out_value_size := Some vcap |}, m)
  else
    (KVSTORE_OK,
     {| out_key := key'; out_key_size := Some ks;
        out_value := option_map (fun v => fill v (bytes_at m (p + 12 + ks) vs)) value;
        out_value_size := Some vs |}, m).
Proof.
  intros Hsz Hs. apply slot_at_inv in Hs.
  destruct Hs as (Hp & Hmagic & Hks & Hks0 & Hvs & Hvs0 & Hend).
  unfold read_slot.
  cbn [ram_store backend ram_backend get_size read bind ret ram_get_size].
  unfold KVSTORE_HEADER_SIZE_BYTES, KVSTORE_KEY_SIZE_BYTES, KVSTORE_VALUE_SIZE_BYTES.
  unfold bind, ret.
  ram_simpl. rewrite Hmagic. ram_simpl. rewrite <- Hks.
  replace (p + 4 + 4) with (p + 8) by lia.
  assert (Hk : forall k, (let (a, c1) := ram_read m (p + 8) ks in
             (let '(r, data) := a in fun c2 : ram => (r, Some (fill k data), c2)) c1)
            = (KVSTORE_OK, Some (fill k (bytes_at m (p + 8) ks)), m)).
  { intros k. rewrite ram_read_ok by lia. reflexivity. }
  destruct (ks >? kcap) eqn:Ek; destruct key as [k|]; cbn [andb option_map];
    try reflexivity; cbn beta iota zeta; rewrite ?Hk; ram_simpl; rewrite <- Hvs;
    replace (p + 8 + ks + 4) with (p + 12 + ks) by lia;
    (destruct (vs >? vcap) eqn:Ev; destruct value as [v|]; cbn [andb option_map];
     try reflexivity; cbn beta iota zeta; ram_simpl; reflexivity).
Qed.

Lemma ram_read_fail m p n :
  Z.of_nat (length m) < p + n -> ram_read m p n = (KVSTORE_FAILED, [], m).
Proof.
  intros H. unfold ram_read.
  replace (p + n <=? Z.of_nat (length m)) with false
    by (symmetry; apply Z.leb_gt; exact H).
  rewrite andb_false_r. reflexivity.
Qed.

(** Past the last whole header, [read_slot] fails and changes nothing. *)
Lemma read_slot_ram_end m p key kcap value vcap :
  Z.of_nat (length m) < 2 ^ 32 -> 0 <= p < 2 ^ 32 ->
  Z.of_nat (length m) < p + 4 ->
  read_slot ram_store p key (Some kcap) value (Some vcap) m =
  (KVSTORE_FAILED,
   {| out_key := key; out_key_size := Some kcap;
      out_value := value; out_value_size := Some vcap |}, m).
Proof.
  intros Hsz Hp Hb. unfold read_slot.
  cbn [ram_store backend ram_backend get_size read bind ret ram_get_size].
  unfold KVSTORE_HEADER_SIZE_BYTES, bind, ret. cbn beta iota zeta.
  destruct (size_t (p + 4) >? Z.of_nat (length m)) eqn:E; [reflexivity|].
  rewrite ram_read_fail by lia. reflexivity.
Qed.

(** Without a whole header and key-length field at [p], or with another
    header than the magic number, [read_slot] fails and leaves its
    out-parameters as they were. *)
Lemma read_slot_ram_no_header m p key kcap value vcap :
  Z.of_nat (length m) < 2 ^ 32 -> 0 <= p < 2 ^ 32 ->
  Z.of_nat (length m) < p + 8 \/ bytes_at m p 4 <> KVSTORE_HEADER_MAGIC ->
  read_slot ram_store p key (Some kcap) value (Some vcap) m =
  (KVSTORE_FAILED,
   {| out_key := key; out_key_size := Some kcap;
      out_value := value; out_value_size := Some vcap |}, m).
Proof.
  intros Hsz Hp Hbad.
  destruct (Z_lt_le_dec (Z.of_nat (length m)) (p + 4)) as [Hshort|Hhdr].
  { apply read_slot_ram_end; assumption. }
  unfold read_slot.
  cbn [ram_store backend ram_backend get_size read bind ret ram_get_size].
  unfold KVSTORE_HEADER_SIZE_BYTES, KVSTORE_KEY_SIZE_BYTES, bind, ret. cbn beta iota zeta.
  rewrite (size_t_small (p + 4)) by lia.
  rewrite (gtb_false (p + 4)) by lia.
  assert (L : length (bytes_at m p 4) = 4%nat) by (rewrite bytes_at_length; lia).
  rewrite ram_read_ok by lia. cbn beta iota zeta. cbn [negb result_eqb].
  rewrite fill_header_buffer by exact L.
  unfold memcmp.
  change (Z.to_nat 4) with 4%nat.
  replace (firstn 4 (bytes_at m p 4)) with (bytes_at m p 4)
    by (symmetry; rewrite <- L; apply firstn_all).
  change (firstn 4 KVSTORE_HEADER_MAGIC) with KVSTORE_HEADER_MAGIC.
  destruct (bytes_eq_dec (bytes_at m p 4) KVSTORE_HEADER_MAGIC) as [E|N];
    [|reflexivity].
  destruct Hbad as [Hbad|Hbad]; [|contradiction].
  cbn [Z.eqb negb].
  destruct (size_t (p + 4 + 4) >? Z.of_nat (length m)); [reflexivity|].
  rewrite ram_read_fail by lia. reflexivity.
Qed.

Lemma store_bytes_then m p d1 q d2 :
  0 <= p -> q = p + Z.of_nat (length d1) ->
  q + Z.of_nat (length d2) <= Z.of_nat (length m) ->
  store_bytes (store_bytes m p d1) q d2 = store_bytes m p (d1 ++ d2).
Proof. intros Hp -> Hb. apply store_bytes_adjacent; lia. Qed.

Lemma uint_of_width_small x : 0 <= x < 2 ^ 32 -> uint_of_width 4 x = x.
Proof. intros H. unfold uint_of_width. apply Z.mod_small. exact H. Qed.

Lemma bytes_of_uint_length x : length (bytes_of_uint 4 x) = 4%nat.
Proof. unfold bytes_of_uint. apply length_le_split. Qed.

Lemma write_slot_zero C (self : option (KvStore C)) p k ks v c :
  write_slot self p k ks v 0 c = (KVSTORE_BAD_ARG, c).
Proof. unfold write_slot. destruct self; reflexivity. Qed.

Ltac ramw_step :=
  match goal with
  | |- context [size_t ?x] => rewrite (size_t_small x) by lia
  | |- context [uint_of_width 4 ?x] => rewrite (uint_of_width_small x) by lia
  | |- context [?a >? ?b] =>
    first [rewrite (gtb_false a b) by lia | rewrite (gtb_true a b) by lia]
  | |- context [ram_write ?m ?d ?p ?n] =>
    rewrite (ram_write_ok m d p n)
      by (rewrite ?store_bytes_length; rewrite ?length_app, ?bytes_of_uint_length;
          cbn [length KVSTORE_HEADER_MAGIC]; lia)
  | |- context [store_bytes (store_bytes ?m ?p ?d1) ?q ?d2] =>
    rewrite (store_bytes_then m p d1 q d2)
      by (rewrite ?length_app, ?bytes_of_uint_length;
          cbn [length KVSTORE_HEADER_MAGIC]; lia)
  end.

Ltac ramw_simpl :=
  repeat first
    [ ramw_step
    | progress (cbn beta iota zeta)
    | progress (cbn [negb result_eqb andb orb]) ].

Lemma write_slot_ram_occupied m p k v :
  Z.of_nat (length m) < 2 ^ 32 -> 0 <= p -> v <> [] ->
  p + 12 + Z.of_nat (length k) + Z.of_nat (length v) <= Z.of_nat (length m) ->
  write_slot ram_store p (Some k) (Z.of_nat (length k)) (Some v) (Z.of_nat (length v)) m
  = (KVSTORE_OK, store_bytes m p (encode_slot k v)).
Proof.
  intros Hsz Hp Hv Hb. unfold write_slot.
  cbn [ram_store backend ram_backend get_size write ram_get_size].
  assert (Hv0 : (Z.of_nat (length v) =? 0) = false).
  { apply Z.eqb_neq. destruct v; [congruence | simpl length; lia]. }
  rewrite Hv0. unfold calculate_slot_size.
  unfold KVSTORE_HEADER_SIZE_BYTES, KVSTORE_KEY_SIZE_BYTES, KVSTORE_VALUE_SIZE_BYTES.
  unfold bind, ret, ram_get_size. ramw_simpl.
  unfold encode_slot, KVSTORE_KEY_SIZE_BYTES, KVSTORE_VALUE_SIZE_BYTES.
  rewrite <- !app_assoc. reflexivity.
Qed.

Lemma write_slot_ram_free m p vs :
  Z.of_nat (length m) < 2 ^ 32 -> 0 <= p -> 0 < vs ->
  p + 12 + vs <= Z.of_nat (length m) ->
  write_slot ram_store p None 0 None vs m
  = (KVSTORE_OK, store_bytes m p (encode_free vs)).
Proof.
  intros Hsz Hp Hv Hb. unfold write_slot.
  cbn [ram_store backend ram_backend get_size write ram_get_size].
  assert (Hv0 : (vs =? 0) = false) by (apply Z.eqb_neq; lia).
  rewrite Hv0. unfold calculate_slot_size.
  unfold KVSTORE_HEADER_SIZE_BYTES, KVSTORE_KEY_SIZE_BYTES, KVSTORE_VALUE_SIZE_BYTES.
  unfold bind, ret, ram_get_size. ramw_simpl.
  unfold encode_free, KVSTORE_KEY_SIZE_BYTES, KVSTORE_VALUE_SIZE_BYTES.
  reflexivity.
Qed.

(** ** Slots of a buffer and how a store changes them *)

Lemma slot_at_intro m p ks vs :
  0 <= p -> bytes_at m p 4 = KVSTORE_HEADER_MAGIC ->
  ks = le_combine (bytes_at m (p + 4) 4) ->
  vs = le_combine (bytes_at m (p + 8 + ks) 4) ->
  p + 12 + ks + vs <= Z.of_nat (length m) ->
  slot_at m p = Some (ks, vs).
Proof.
  intros Hp Hm Hks Hvs Hb.
  pose proof (le_combine_bound (bytes_at m (p + 4) 4)) as B1.
  pose proof (le_combine_bound (bytes_at m (p + 8 + ks) 4)) as B2.
  unfold slot_at. rewrite Hm.
  destruct (bytes_eq_dec KVSTORE_HEADER_MAGIC KVSTORE_HEADER_MAGIC) as [_|N];
    [|congruence].
  replace ((0 <=? p) && (p + 8 <=? Z.of_nat (length m)) && true) with true
    by (symmetry; rewrite !andb_true_iff, !Z.leb_le; lia).
  rewrite <- Hks.
  replace (p + 8 + ks + 4 <=? Z.of_nat (length m)) with true
    by (symmetry; apply Z.leb_le; lia).
  rewrite <- Hvs.
  replace (p + 12 + ks + vs <=? Z.of_nat (length m)) with true
    by (symmetry; apply Z.leb_le; lia).
  reflexivity.
Qed.

Lemma slot_at_store_before m p d q ks vs :
  slot_at m q = Some (ks, vs) -> q + 12 + ks + vs <= p ->
  p + Z.of_nat (length d) <= Z.of_nat (length m) ->
  slot_at (store_bytes m p d) q = Some (ks, vs).
Proof.
  intros Hs Hq Hb. apply slot_at_inv in Hs.
  destruct Hs as (Hq0 & Hmagic & Hks & Hks0 & Hvs & Hvs0 & Hend).
  apply slot_at_intro; rewrite ?store_bytes_length by lia;
    rewrite ?bytes_at_store_before by lia; auto.
Qed.

Lemma slot_at_store_after m p d q ks vs :
  slot_at m q = Some (ks, vs) -> 0 <= p -> p + Z.of_nat (length d) <= q ->
  slot_at (store_bytes m p d) q = Some (ks, vs).
Proof.
  intros Hs Hp Hq. apply slot_at_inv in Hs.
  destruct Hs as (Hq0 & Hmagic & Hks & Hks0 & Hvs & Hvs0 & Hend).
  apply slot_at_intro; rewrite ?store_bytes_length by lia;
    rewrite ?bytes_at_store_after by lia; auto.
Qed.

Lemma skipn_app_exact {A} n (a b : list A) : n = length a -> skipn n (a ++ b) = b.
Proof.
  intros ->. rewrite skipn_app, skipn_all, Nat.sub_diag. reflexivity.
Qed.

Lemma firstn_app_exact {A} n (a b : list A) : n = length a -> firstn n (a ++ b) = a.
Proof.
  intros ->. rewrite firstn_app, firstn_all, Nat.sub_diag. simpl. apply app_nil_r.
Qed.

Lemma le_combine_bytes_of_uint x :
  0 <= x < 2 ^ 32 -> le_combine (bytes_of_uint 4 x) = x.
Proof.
  intros H. unfold bytes_of_uint. rewrite le_combine_split.
  apply Z.mod_small. exact H.
Qed.

Lemma encode_slot_length k v :
  Z.of_nat (length (encode_slot k v))
  = 12 + Z.of_nat (length k) + Z.of_nat (length v).
Proof.
  unfold encode_slot. rewrite !length_app, !bytes_of_uint_length.
  cbn [length KVSTORE_HEADER_MAGIC]. lia.
Qed.

Section EncodeSlot.

Variables (m : ram) (p : Z) (k v : list byte).
Hypothesis Hp : 0 <= p.
Hypothesis Hsz : Z.of_nat (length m) < 2 ^ 32.
Hypothesis Hb :
  p + 12 + Z.of_nat (length k) + Z.of_nat (length v) <= Z.of_nat (length m).

Let m' := store_bytes m p (encode_slot k v).

Lemma encode_slot_header : bytes_at m' p 4 = KVSTORE_HEADER_MAGIC.
Proof.
  pose proof (encode_slot_length k v) as L.
  replace p with (p + 0) by lia. unfold m'.
  rewrite bytes_at_store_in by lia. reflexivity.
Qed.

Lemma encode_slot_key_size :
  bytes_at m' (p + 4) 4 = bytes_of_uint 4 (Z.of_nat (length k)).
Proof.
  pose proof (encode_slot_length k v) as L. unfold m'.
  rewrite bytes_at_store_in by lia.
  unfold encode_slot. rewrite skipn_app_exact by reflexivity.
  apply firstn_app_exact. rewrite bytes_of_uint_length. reflexivity.
Qed.

Lemma encode_slot_key :
  bytes_at m' (p + 8) (Z.of_nat (length k)) = k.
Proof.
  pose proof (encode_slot_length k v) as L. unfold m'.
  rewrite bytes_at_store_in by lia.
  unfold encode_slot. rewrite app_assoc.
  rewrite skipn_app_exact
    by (rewrite length_app, bytes_of_uint_length; reflexivity).
  apply firstn_app_exact. lia.
Qed.

Lemma encode_slot_value_size :
  bytes_at m' (p + 8 + Z.of_nat (length k)) 4
  = bytes_of_uint 4 (Z.of_nat (length v)).
Proof.
  pose proof (encode_slot_length k v) as L. unfold m'.
  replace (p + 8 + Z.of_nat (length k)) with (p + (8 + Z.of_nat (length k))) by lia.
  rewrite bytes_at_store_in by lia.
  unfold encode_slot. rewrite 2 app_assoc.
  rewrite skipn_app_exact
    by (rewrite !length_app, bytes_of_uint_length; cbn [length KVSTORE_HEADER_MAGIC]; lia).
  apply firstn_app_exact. rewrite bytes_of_uint_length. reflexivity.
Qed.

Lemma encode_slot_value :
  bytes_at m' (p + 12 + Z.of_nat (length k)) (Z.of_nat (length v)) = v.
Proof.
  pose proof (encode_slot_length k v) as L. unfold m'.
  replace (p + 12 + Z.of_nat (length k)) with (p + (12 + Z.of_nat (length k))) by lia.
  rewrite bytes_at_store_in by lia.
  unfold encode_slot. rewrite 3 app_assoc.
  rewrite skipn_app_exact
    by (rewrite !length_app, !bytes_of_uint_length; cbn [length KVSTORE_HEADER_MAGIC]; lia).
  rewrite Nat2Z.id. apply firstn_all.
Qed.

Lemma slot_at_encode_slot :
  slot_at m' p = Some (Z.of_nat (length k), Z.of_nat (length v)).
Proof.
  pose proof (encode_slot_length k v) as L.
  apply slot_at_intro.
  - exact Hp.
  - exact encode_slot_header.
  - rewrite encode_slot_key_size, le_combine_bytes_of_uint by lia. reflexivity.
  - rewrite encode_slot_value_size, le_combine_bytes_of_uint by lia. reflexivity.
  - unfold m'. rewrite store_bytes_length by lia. lia.
Qed.

End EncodeSlot.

Lemma slot_at_encode_free m p vs :
  0 <= p -> 0 <= vs -> Z.of_nat (length m) < 2 ^ 32 ->
  p + 12 + vs <= Z.of_nat (length m) ->
  slot_at (store_bytes m p (encode_free vs)) p = Some (0, vs).
Proof.
  intros Hp Hvs Hsz Hb.
  assert (L : Z.of_nat (length (encode_free vs)) = 12).
  { unfold encode_free. rewrite !length_app, !bytes_of_uint_length. reflexivity. }
  assert (K : bytes_at (store_bytes m p (encode_free vs)) (p + 4) 4 = bytes_of_uint 4 0).
  { rewrite bytes_at_store_in by lia. reflexivity. }
  apply slot_at_intro.
  - exact Hp.
  - replace p with (p + 0) at 2 by lia. rewrite bytes_at_store_in by lia. reflexivity.
  - rewrite K. reflexivity.
  - replace (p + 8 + 0) with (p + 8) by lia.
    rewrite bytes_at_store_in by lia.
    unfold encode_free. rewrite app_assoc.
    rewrite skipn_app_exact by reflexivity.
    rewrite <- (bytes_of_uint_length vs) at 1. rewrite firstn_all.
    rewrite le_combine_bytes_of_uint by lia. reflexivity.
  - rewrite store_bytes_length by lia. lia.
Qed.

(** ** Tilings *)

Lemma chain_app m p l1 q l2 r :
  chain m p l1 q -> chain m q l2 r -> chain m p (l1 ++ l2) r.
Proof.
  induction 1 as [p|p ks vs l q Hs Hc IH]; intros H2; simpl.
  - exact H2.
  - apply chain_cons; [exact Hs | apply IH; exact H2].
Qed.

Lemma chain_split m l1 : forall p l2 r,
  chain m p (l1 ++ l2) r -> exists q, chain m p l1 q /\ chain m q l2 r.
Proof.
  induction l1 as [|s l1 IH]; intros p l2 r H; simpl in H.
  - exists p. split; [apply chain_nil | exact H].
  - inversion H as [|p0 ks vs l q Hs Hc]; subst.
    destruct (IH _ _ _ Hc) as (q & H1 & H2).
    exists q. split; [apply chain_cons; assumption | exact H2].
Qed.

Lemma chain_le m p l q : chain m p l q -> p + 12 * Z.of_nat (length l) <= q.
Proof.
  induction 1 as [p|p ks vs l q Hs Hc IH].
  - simpl. lia.
  - apply slot_at_inv in Hs. cbn [length]. lia.
Qed.

Lemma chain_end_le m p l q :
  chain m p l q -> p <= Z.of_nat (length m) -> q <= Z.of_nat (length m).
Proof.
  induction 1 as [p|p ks vs l q Hs Hc IH]; intros Hp.
  - exact Hp.
  - apply IH. apply slot_at_inv in Hs. lia.
Qed.

Lemma chain_start_nonneg m p l q : chain m p l q -> 0 <= p -> 0 <= q.
Proof.
  induction 1 as [p|p ks vs l q Hs Hc IH]; intros Hp.
  - exact Hp.
  - apply IH. apply slot_at_inv in Hs. lia.
Qed.

Lemma slots_from_chain fuel m : forall p l,
  slots_from fuel m p = Some l -> chain m p l (Z.of_nat (length m)).
Proof.
  induction fuel as [|fuel IH]; intros p l H; simpl in H.
  - destruct (p =? Z.of_nat (length m)) eqn:E; [|discriminate].
    apply Z.eqb_eq in E. inversion H; subst. apply chain_nil.
  - destruct (p =? Z.of_nat (length m)) eqn:E.
    + apply Z.eqb_eq in E. inversion H; subst. apply chain_nil.
    + destruct (slot_at m p) as [[ks vs]|] eqn:Hs; [|discriminate].
      destruct (slots_from fuel m (p + 12 + ks + vs)) as [l'|] eqn:Hr; [|discriminate].
      inversion H; subst. apply chain_cons; [exact Hs | apply IH; exact Hr].
Qed.

Lemma slots_chain m l : slots m = Some l -> chain m 0 l (Z.of_nat (length m)).
Proof. apply slots_from_chain. Qed.

Lemma chain_store_after m p' d : forall p l q,
  chain m p l q -> q <= p' -> p' + Z.of_nat (length d) <= Z.of_nat (length m) ->
  chain (store_bytes m p' d) p l q.
Proof.
  induction 1 as [p|p ks vs l q Hs Hc IH]; intros Hq Hb.
  - apply chain_nil.
  - apply chain_cons; [|apply IH; assumption].
    apply slot_at_store_before; [exact Hs| |exact Hb].
    apply chain_le in Hc. lia.
Qed.

Lemma chain_store_before m p' d : forall p l q,
  chain m p l q -> 0 <= p' -> p' + Z.of_nat (length d) <= p ->
  chain (store_bytes m p' d) p l q.
Proof.
  induction 1 as [p|p ks vs l q Hs Hc IH]; intros Hq Hb.
  - apply chain_nil.
  - apply chain_cons.
    + apply slot_at_store_after; assumption.
    + apply IH; [assumption|]. apply slot_at_inv in Hs. lia.
Qed.

(** The slots of a tiling lie inside its range. *)
Lemma chain_In m p l q s :
  chain m p l q -> In s l ->
  slot_at m (slot_pos s) = Some (slot_key_size s, slot_value_size s)
  /\ p <= slot_pos s /\ slot_pos s + slot_span s <= q.
Proof.
  induction 1 as [p|p ks vs l q Hs Hc IH]; intros Hin.
  - destruct Hin.
  - destruct Hin as [<-|Hin].
    + unfold slot_span, slot_pos, slot_key_size, slot_value_size. cbn [fst snd].
      split; [exact Hs|]. apply chain_le in Hc. lia.
    + destruct (IH Hin) as (A & B & D). split; [exact A|].
      apply slot_at_inv in Hs. lia.
Qed.

(** ** Cursors over the RAM buffer *)

Lemma advance_ram m cur ks vs :
  Z.of_nat (length m) < 2 ^ 32 ->
  slot_at m (cursor_position cur) = Some (ks, vs) ->
  kvstore_advance ram_store (Some cur) m
  = (KVSTORE_OK, Some (with_position cur (cursor_position cur + 12 + ks + vs)), m).
Proof.
  intros Hsz Hs. unfold kvstore_advance. cbn [ram_store].
  unfold bind. rewrite (read_slot_ram m _ ks vs) by assumption.
  apply slot_at_inv in Hs.
  destruct Hs as (Hp & Hmagic & Hks & Hks0 & Hvs & Hvs0 & Hend).
  cbn [andb option_map]. rewrite !andb_false_r. cbn beta iota zeta.
  cbn [negb result_eqb out_key_size out_value_size deref ret].
  unfold calculate_slot_size, with_position.
  unfold KVSTORE_HEADER_SIZE_BYTES, KVSTORE_KEY_SIZE_BYTES, KVSTORE_VALUE_SIZE_BYTES.
  rewrite (size_t_small (4 + 4 + ks + 4 + vs)) by lia.
  rewrite size_t_small by lia.
  replace (cursor_position cur + (4 + 4 + ks + 4 + vs))
    with (cursor_position cur + 12 + ks + vs) by lia.
  reflexivity.
Qed.

Lemma memcmp_fill buf data b n :
  length data = Z.to_nat n ->
  (memcmp (fill buf data) b n =? 0) = if bytes_eq_dec data (firstn (Z.to_nat n) b) then true else false.
Proof.
  intros H. unfold memcmp, fill.
  rewrite firstn_app_exact by (symmetry; exact H).
  destruct (bytes_eq_dec data (firstn (Z.to_nat n) b)); reflexivity.
Qed.

Section SearchStep.

Variables (m : ram) (K : list byte) (cur : KvStoreCursor) (ks vs : Z).
Hypothesis Hsz : Z.of_nat (length m) < 2 ^ 32.
Hypothesis Hcur : cursor_for K cur.
Hypothesis Hs : slot_at m (cursor_position cur) = Some (ks, vs).

Let s : slot := (cursor_position cur, ks, vs).

Lemma search_step_long fuel :
  KVSTORE_MAX_KEY_SIZE < ks ->
  search_next_loop (S fuel) ram_store cur m = Some (KVSTORE_FAILED, cur, m).
Proof.
  intros Hl. cbn [search_next_loop].
  rewrite (read_slot_ram m _ ks vs) by assumption.
  rewrite gtb_true by exact Hl. reflexivity.
Qed.

Lemma search_step_hit fuel :
  ks <= KVSTORE_MAX_KEY_SIZE -> holds_key m K s = true ->
  search_next_loop (S fuel) ram_store cur m = Some (KVSTORE_OK, cur, m).
Proof.
  intros Hl Hk. cbn [search_next_loop].
  rewrite (read_slot_ram m _ ks vs) by assumption.
  rewrite gtb_false by exact Hl.
  cbn [andb option_map]. rewrite andb_false_r. cbn beta iota zeta.
  cbn [negb result_eqb out_key out_key_size deref].
  pose proof (slot_at_inv _ _ _ _ Hs) as (Hp & _ & _ & Hks0 & _ & Hvs0 & Hend).
  unfold holds_key, slot_key, s, slot_pos, slot_key_size in Hk. cbn [fst snd] in Hk.
  destruct (bytes_eq_dec (bytes_at m (cursor_position cur + 8) ks) K) as [E|];
    [|discriminate].
  destruct Hcur as [Hc1 Hc2].
  assert (Hlen : ks = Z.of_nat (length K)).
  { rewrite <- E. rewrite bytes_at_length by lia. lia. }
  rewrite Hc1, <- Hlen, Z.eqb_refl. cbn [negb].
  rewrite memcmp_fill by (rewrite bytes_at_length; lia).
  replace (Z.to_nat ks) with (length K) by lia. rewrite Hc2.
  destruct (bytes_eq_dec (bytes_at m (cursor_position cur + 8) ks) K); [|contradiction].
  reflexivity.
Qed.

Lemma search_step_miss fuel :
  ks <= KVSTORE_MAX_KEY_SIZE -> holds_key m K s = false ->
  search_next_loop (S fuel) ram_store cur m
  = search_next_loop fuel ram_store
      (with_position cur (cursor_position cur + 12 + ks + vs)) m.
Proof.
  intros Hl Hk. cbn [search_next_loop].
  rewrite (read_slot_ram m _ ks vs) by assumption.
  rewrite gtb_false by exact Hl.
  cbn [andb option_map]. rewrite andb_false_r. cbn beta iota zeta.
  cbn [negb result_eqb out_key out_key_size deref].
  pose proof (slot_at_inv _ _ _ _ Hs) as (Hp & _ & _ & Hks0 & _ & Hvs0 & Hend).
  unfold holds_key, slot_key, s, slot_pos, slot_key_size in Hk. cbn [fst snd] in Hk.
  destruct (bytes_eq_dec (bytes_at m (cursor_position cur + 8) ks) K) as [|N];
    [discriminate|].
  destruct Hcur as [Hc1 Hc2].
  rewrite (advance_ram m cur ks vs) by assumption.
  destruct (ks =? cursor_key_size cur) eqn:E; cbn [negb]; [|reflexivity].
  apply Z.eqb_eq in E.
  rewrite memcmp_fill by (rewrite bytes_at_length; lia).
  replace (Z.to_nat ks) with (length K) by lia. rewrite Hc2.
  destruct (bytes_eq_dec (bytes_at m (cursor_position cur + 8) ks) K)
    as [E2|]; [|reflexivity].
  exfalso. apply N. exact E2.
Qed.

End SearchStep.

Lemma search_step_end m cur fuel :
  Z.of_nat (length m) < 2 ^ 32 -> 0 <= cursor_position cur < 2 ^ 32 ->
  Z.of_nat (length m) < cursor_position cur + 4 ->
  search_next_loop (S fuel) ram_store cur m = Some (KVSTORE_FAILED, cur, m).
Proof.
  intros Hsz Hp Hb. cbn [search_next_loop].
  rewrite read_slot_ram_end by assumption. reflexivity.
Qed.

(** ** The scan of [kvstore_put] over the RAM buffer *)

Section PutStep.

Variables (m : ram) (k v : list byte) (p ks vs : Z).
Hypothesis Hsz : Z.of_nat (length m) < 2 ^ 32.
Hypothesis Hv : v <> [].
Hypothesis Hneed : Z.of_nat (length k) + Z.of_nat (length v) + 24 < 2 ^ 32.
Hypothesis Hs : slot_at m p = Some (ks, vs).

Let need := 12 + Z.of_nat (length k) + Z.of_nat (length v).

Lemma put_step_skip fuel fks fvs :
  usable need (p, ks, vs) = false ->
  put_loop (S fuel) ram_store (Some k) (Z.of_nat (length k)) (Some v) (Z.of_nat (length v))
    (Z.of_nat (length m)) p fks fvs m
  = put_loop fuel ram_store (Some k) (Z.of_nat (length k)) (Some v) (Z.of_nat (length v))
      (Z.of_nat (length m)) (p + 12 + ks + vs) ks vs m.
Proof.
  intros Hu. cbn [put_loop].
  pose proof (slot_at_inv _ _ _ _ Hs) as (Hp & _ & _ & Hks0 & _ & Hvs0 & Hend).
  replace (p >=? Z.of_nat (length m)) with false by (symmetry; rewrite Z.geb_leb; apply Z.leb_gt; lia).
  rewrite (read_slot_ram m _ ks vs) by assumption.
  rewrite !andb_false_r. cbn beta iota zeta.
  cbn [negb result_eqb out_key_size out_value_size deref].
  unfold calculate_slot_size.
  unfold KVSTORE_HEADER_SIZE_BYTES, KVSTORE_KEY_SIZE_BYTES, KVSTORE_VALUE_SIZE_BYTES.
  rewrite !(size_t_small (4 + 4 + _ + 4 + _)) by lia.
  rewrite !size_t_small by lia.
  replace (p + (4 + 4 + ks + 4 + vs)) with (p + 12 + ks + vs) by lia.
  destruct (ks >? 0) eqn:E; [reflexivity|].
  unfold usable, slot_span, slot_key_size, slot_value_size, need in Hu. cbn [fst snd] in Hu.
  rewrite Z.gtb_ltb in E. apply Z.ltb_ge in E.
  replace (ks =? 0) with true in Hu by (symmetry; apply Z.eqb_eq; lia).
  cbn [andb] in Hu. apply Z.leb_gt in Hu.
  replace (4 + 4 + ks + 4 + vs <?
           4 + 4 + Z.of_nat (length k) + 4 + Z.of_nat (length v) + (4 + 4 + 0 + 4 + 0))
    with true by (symmetry; apply Z.ltb_lt; lia).
  reflexivity.
Qed.

Lemma put_step_split fuel fks fvs :
  usable need (p, ks, vs) = true ->
  put_loop (S fuel) ram_store (Some k) (Z.of_nat (length k)) (Some v) (Z.of_nat (length v))
    (Z.of_nat (length m)) p fks fvs m
  = Some (LoopReturn KVSTORE_OK, split_result m p k v vs).
Proof.
  intros Hu. cbn [put_loop].
  pose proof (slot_at_inv _ _ _ _ Hs) as (Hp & _ & _ & Hks0 & _ & Hvs0 & Hend).
  unfold usable, slot_span, slot_key_size, slot_value_size, need in Hu. cbn [fst snd] in Hu.
  apply andb_true_iff in Hu. destruct Hu as [Hk0 Hfit].
  apply Z.eqb_eq in Hk0. apply Z.leb_le in Hfit. subst ks.
  replace (p >=? Z.of_nat (length m)) with false by (symmetry; rewrite Z.geb_leb; apply Z.leb_gt; lia).
  rewrite (read_slot_ram m _ 0 vs) by assumption.
  rewrite !andb_false_r. cbn beta iota zeta.
  cbn [negb result_eqb out_key_size out_value_size deref].
  unfold calculate_slot_size, calculate_value_size.
  unfold KVSTORE_HEADER_SIZE_BYTES, KVSTORE_KEY_SIZE_BYTES, KVSTORE_VALUE_SIZE_BYTES.
  repeat ram_step.
  change (0 >? 0) with false. cbn beta iota zeta.
  replace (4 + 4 + 0 + 4 + vs <?
           4 + 4 + Z.of_nat (length k) + 4 + Z.of_nat (length v) + (4 + 4 + 0 + 4 + 0))
    with false by (symmetry; apply Z.ltb_ge; lia).
  rewrite write_slot_ram_occupied by (assumption || lia).
  unfold split_result.
  replace (4 + 4 + 0 + 4 + vs - (4 + 4 + Z.of_nat (length k) + 4 + Z.of_nat (length v))
           - 4 - 4 - 0 - 4)
    with (vs - Z.of_nat (length k) - Z.of_nat (length v) - 12) by lia.
  replace (p + (4 + 4 + Z.of_nat (length k) + 4 + Z.of_nat (length v)))
    with (p + 12 + Z.of_nat (length k) + Z.of_nat (length v)) by lia.
  pose proof (encode_slot_length k v) as L.
  destruct (vs - Z.of_nat (length k) - Z.of_nat (length v) - 12 =? 0) eqn:E.
  - apply Z.eqb_eq in E. rewrite E, write_slot_zero. reflexivity.
  - apply Z.eqb_neq in E.
    rewrite write_slot_ram_free by (rewrite ?store_bytes_length; lia).
    reflexivity.
Qed.

End PutStep.

Lemma put_step_end m key key_size value value_size p fks fvs fuel :
  Z.of_nat (length m) <= p ->
  put_loop (S fuel) ram_store key key_size value value_size
    (Z.of_nat (length m)) p fks fvs m
  = Some (LoopBreak p, m).
Proof.
  intros H. cbn [put_loop].
  replace (p >=? Z.of_nat (length m)) with true by (symmetry; rewrite Z.geb_leb; apply Z.leb_le; lia).
  reflexivity.
Qed.

(** ** Scans over a tiling *)

Lemma cursor_for_with_position K cur p :
  cursor_for K cur -> cursor_for K (with_position cur p).
Proof. intros H. exact H. Qed.

Lemma holds_key_free m K p vs : K <> [] -> holds_key m K (p, 0, vs) = false.
Proof.
  intros HK. unfold holds_key, slot_key, slot_key_size, bytes_at. cbn [fst snd].
  change (Z.to_nat 0) with 0%nat. cbn [firstn].
  destruct (bytes_eq_dec [] K) as [E|]; [congruence | reflexivity].
Qed.

Lemma put_scan_skip m k v p l q :
  Z.of_nat (length m) < 2 ^ 32 -> v <> [] ->
  Z.of_nat (length k) + Z.of_nat (length v) + 24 < 2 ^ 32 ->
  chain m p l q ->
  forallb (fun s => negb (usable (12 + Z.of_nat (length k) + Z.of_nat (length v)) s)) l = true ->
  forall fuel fks fvs, exists fks' fvs',
    put_loop (length l + fuel) ram_store (Some k) (Z.of_nat (length k))
      (Some v) (Z.of_nat (length v)) (Z.of_nat (length m)) p fks fvs m
    = put_loop fuel ram_store (Some k) (Z.of_nat (length k))
        (Some v) (Z.of_nat (length v)) (Z.of_nat (length m)) q fks' fvs' m.
Proof.
  intros Hsz Hv Hneed Hc. induction Hc as [p|p ks vs l q Hs Hc IH]; intros Hu fuel fks fvs.
  - exists fks, fvs. reflexivity.
  - cbn [forallb] in Hu. apply andb_true_iff in Hu. destruct Hu as [Hu1 Hu2].
    apply negb_true_iff in Hu1.
    cbn [length Nat.add].
    rewrite (put_step_skip m k v p ks vs) by assumption.
    apply IH. exact Hu2.
Qed.

Lemma search_scan_skip m K cur p l q :
  Z.of_nat (length m) < 2 ^ 32 -> cursor_for K cur ->
  chain m p l q ->
  forallb (fun s => (slot_key_size s <=? KVSTORE_MAX_KEY_SIZE) && negb (holds_key m K s)) l
  = true ->
  forall fuel,
    search_next_loop (length l + fuel) ram_store (with_position cur p) m
    = search_next_loop fuel ram_store (with_position cur q) m.
Proof.
  intros Hsz Hcur Hc. induction Hc as [p|p ks vs l q Hs Hc IH]; intros Hm fuel.
  - reflexivity.
  - cbn [forallb] in Hm. apply andb_true_iff in Hm. destruct Hm as [Hm1 Hm2].
    apply andb_true_iff in Hm1. destruct Hm1 as [Hfit Hmiss].
    apply Z.leb_le in Hfit. apply negb_true_iff in Hmiss.
    cbn [length Nat.add].
    rewrite (search_step_miss m K (with_position cur p) ks vs);
      try first [assumption | exact Hs].
    apply IH. exact Hm2.
Qed.

(** A scan for a key that no occupied slot holds fails: at a stored key that
    is longer than the key buffer, or else at the end of the buffer. *)
Lemma search_scan_absent m K cur p l :
  Z.of_nat (length m) < 2 ^ 32 -> cursor_for K cur -> K <> [] -> 0 <= p ->
  chain m p l (Z.of_nat (length m)) ->
  key_absent m K l = true ->
  forall fuel, (length l < fuel)%nat ->
  exists q,
    search_next_loop fuel ram_store (with_position cur p) m
    = Some (KVSTORE_FAILED, with_position cur q, m)
    /\ (keys_fit l = true -> q = Z.of_nat (length m)).
Proof.
  intros Hsz Hcur HK Hp Hc.
  remember (Z.of_nat (length m)) as e eqn:He in Hc.
  induction Hc as [p|p ks vs l q Hs Hc IH]; intros Ha fuel Hf.
  - destruct fuel as [|fuel]; [inversion Hf|].
    exists p. split; [|intros _; exact He].
    apply search_step_end; cbn [with_position cursor_position]; lia.
  - destruct fuel as [|fuel]; [inversion Hf|].
    cbn [length] in Hf.
    cbn [key_absent forallb] in Ha. apply andb_true_iff in Ha. destruct Ha as [Ha1 Ha2].
    apply negb_true_iff in Ha1.
    pose proof (slot_at_inv _ _ _ _ Hs) as (_ & _ & _ & Hks0 & _ & Hvs0 & Hend).
    destruct (Z_lt_le_dec KVSTORE_MAX_KEY_SIZE ks) as [Hlong|Hfit].
    + exists p. split.
      * apply (search_step_long m (with_position cur p) ks vs).
        all: try first [assumption | exact Hs].
      * intros Hk. cbn [keys_fit forallb] in Hk.
        apply andb_true_iff in Hk. destruct Hk as [Hk _].
        apply Z.leb_le in Hk. unfold slot_key_size in Hk. cbn [fst snd] in Hk. lia.
    + assert (Hmiss : holds_key m K (p, ks, vs) = false).
      { destruct (Z.eq_dec ks 0) as [->|Hnz].
        - apply holds_key_free. exact HK.
        - unfold slot_key_size in Ha1. cbn [fst snd] in Ha1.
          replace (0 <? ks) with true in Ha1 by (symmetry; apply Z.ltb_lt; lia).
          exact Ha1. }
      rewrite (search_step_miss m K (with_position cur p) ks vs);
      try first [assumption | exact Hs].
      cbn [with_position cursor_position cursor_key cursor_key_size].
      destruct (IH ltac:(lia) He Ha2 fuel ltac:(lia)) as (q' & Hq & Hq2).
      exists q'. split; [exact Hq|].
      intros Hk. apply Hq2. cbn [keys_fit forallb] in Hk.
      apply andb_true_iff in Hk. apply Hk.
Qed.

(** ** [kvstore_put] over the RAM buffer *)

Lemma existsb_first {A} (f : A -> bool) (l : list A) :
  existsb f l = true ->
  exists l1 x l2, l = l1 ++ x :: l2
                  /\ forallb (fun y => negb (f y)) l1 = true /\ f x = true.
Proof.
  induction l as [|a l IH]; intros H; [discriminate|].
  cbn [existsb] in H. destruct (f a) eqn:E.
  - exists [], a, l. repeat split. exact E.
  - destruct (IH H) as (l1 & x & l2 & -> & H1 & H2).
    exists (a :: l1), x, l2. repeat split; [|exact H2].
    cbn [forallb]. rewrite E. exact H1.
Qed.

Lemma existsb_none {A} (f : A -> bool) (l : list A) :
  existsb f l = false -> forallb (fun y => negb (f y)) l = true.
Proof.
  induction l as [|a l IH]; intros H; [reflexivity|].
  cbn [existsb] in H. apply orb_false_iff in H. destruct H as [H1 H2].
  cbn [forallb]. rewrite H1. apply IH. exact H2.
Qed.

Lemma valid_key_args (k : list byte) :
  1 <= Z.of_nat (length k) <= KVSTORE_MAX_KEY_SIZE -> forall v : list byte, v <> [] ->
  (Z.of_nat (length k) =? 0) || (Z.of_nat (length v) =? 0)
  || (Z.of_nat (length k) >? KVSTORE_MAX_KEY_SIZE) = false.
Proof.
  intros Hk v Hv.
  assert (Z.of_nat (length v) <> 0) by (destruct v; [congruence | cbn [length]; lia]).
  rewrite gtb_false by lia.
  rewrite !orb_false_iff, !Z.eqb_neq. lia.
Qed.

Section PutRam.

Variables (m : ram) (k v : list byte).
Hypothesis Hsz : Z.of_nat (length m) < 2 ^ 32.
Hypothesis Hk : 1 <= Z.of_nat (length k) <= KVSTORE_MAX_KEY_SIZE.
Hypothesis Hv : v <> [].

Let need := 12 + Z.of_nat (length k) + Z.of_nat (length v).

(** The first usable free slot is split. *)
Lemma put_ram_split l1 s l2 q fuel :
  chain m 0 (l1 ++ s :: l2) q ->
  forallb (fun y => negb (usable need y)) l1 = true -> usable need s = true ->
  (length l1 < fuel)%nat ->
  kvstore_put fuel ram_store (Some k) (Z.of_nat (length k)) (Some v) (Z.of_nat (length v)) m
  = Some (KVSTORE_OK, split_result m (slot_pos s) k v (slot_value_size s)).
Proof.
  intros Hc Hl1 Hs Hf.
  apply chain_split in Hc. destruct Hc as (p & Hc1 & Hc2).
  inversion Hc2 as [|p0 ks vs l q0 Hslot Hc3]; subst.
  pose proof (slot_at_inv _ _ _ _ Hslot) as (Hp & _ & _ & Hks0 & _ & Hvs0 & Hend).
  assert (Hneed : Z.of_nat (length k) + Z.of_nat (length v) + 24 < 2 ^ 32).
  { unfold usable, slot_span, slot_key_size, slot_value_size, need in Hs.
    cbn [fst snd] in Hs. apply andb_true_iff in Hs. destruct Hs as [_ Hs].
    apply Z.leb_le in Hs. lia. }
  unfold kvstore_put. cbn [ram_store backend ram_backend get_size ram_get_size].
  rewrite valid_key_args by assumption.
  replace fuel with (length l1 + S (fuel - length l1 - 1))%nat by lia.
  destruct (put_scan_skip m k v 0 l1 p Hsz Hv Hneed Hc1 Hl1
              (S (fuel - length l1 - 1)) 0 0) as (fks & fvs & ->).
  rewrite (put_step_split m k v p ks vs) by assumption.
  reflexivity.
Qed.

(** Without a usable free slot the scan reaches the end of the buffer and
    the write past the end is refused. *)
Lemma put_ram_full l fuel :
  Z.of_nat (length k) + Z.of_nat (length v) + 24 < 2 ^ 32 ->
  chain m 0 l (Z.of_nat (length m)) ->
  forallb (fun y => negb (usable need y)) l = true ->
  (length l < fuel)%nat ->
  kvstore_put fuel ram_store (Some k) (Z.of_nat (length k)) (Some v) (Z.of_nat (length v)) m
  = Some (KVSTORE_NOT_FOUND, m).
Proof.
  intros Hneed Hc Hl Hf.
  unfold kvstore_put. cbn [ram_store backend ram_backend get_size ram_get_size].
  rewrite valid_key_args by assumption.
  replace fuel with (length l + S (fuel - length l - 1))%nat by lia.
  destruct (put_scan_skip m k v 0 l _ Hsz Hv Hneed Hc Hl
              (S (fuel - length l - 1)) 0 0) as (fks & fvs & ->).
  rewrite put_step_end by lia.
  unfold write_slot. cbn [ram_store backend ram_backend get_size write ram_get_size].
  destruct (Z.of_nat (length v) =? 0) eqn:E.
  { apply Z.eqb_eq in E. destruct v; [congruence | cbn [length] in E; lia]. }
  unfold bind, ret, ram_get_size. cbn beta iota zeta.
  destruct (size_t _ >? _); [reflexivity|].
  unfold ram_write, KVSTORE_HEADER_SIZE_BYTES.
  replace (Z.of_nat (length m) + 4 <=? Z.of_nat (length m)) with false
    by (symmetry; apply Z.leb_gt; lia).
  rewrite andb_false_r. reflexivity.
Qed.

End PutRam.

(** ** The buffer after a split *)

Section SplitResult.

Variables (m : ram) (p fvs : Z) (k v : list byte).
Hypothesis Hsz : Z.of_nat (length m) < 2 ^ 32.
Hypothesis Hp : 0 <= p.
Hypothesis Hfit : 12 + Z.of_nat (length k) + Z.of_nat (length v) + 12 <= 12 + fvs.
Hypothesis Hend : p + 12 + fvs <= Z.of_nat (length m).

Let m' := split_result m p k v fvs.

Lemma split_result_length : length m' = length m.
Proof.
  pose proof (encode_slot_length k v) as L.
  unfold m', split_result.
  destruct (_ =? 0); rewrite ?store_bytes_length; rewrite ?store_bytes_length;
    try reflexivity; try lia.
  change (Z.of_nat (length (encode_free _))) with 12. lia.
Qed.

Lemma split_result_before q n :
  0 <= q -> 0 <= n -> q + n <= p + 12 + Z.of_nat (length k) + Z.of_nat (length v) ->
  bytes_at m' q n = bytes_at (store_bytes m p (encode_slot k v)) q n.
Proof.
  intros Hq Hn Hb. pose proof (encode_slot_length k v) as L.
  unfold m', split_result. destruct (_ =? 0); [reflexivity|].
  apply bytes_at_store_before; rewrite ?store_bytes_length; lia.
Qed.

Lemma split_result_outside q n :
  0 <= q -> 0 <= n -> q + n <= p \/ p + 12 + fvs <= q ->
  bytes_at m' q n = bytes_at m q n.
Proof.
  intros Hq Hn Hb. pose proof (encode_slot_length k v) as L.
  assert (E : bytes_at (store_bytes m p (encode_slot k v)) q n = bytes_at m q n).
  { destruct Hb; [apply bytes_at_store_before | apply bytes_at_store_after]; lia. }
  unfold m', split_result. destruct (_ =? 0); [exact E|].
  rewrite <- E.
  destruct Hb; [apply bytes_at_store_before | apply bytes_at_store_after];
    rewrite ?store_bytes_length; try lia;
    change (Z.of_nat (length (encode_free _))) with 12; lia.
Qed.

Lemma split_result_slot :
  slot_at m' p = Some (Z.of_nat (length k), Z.of_nat (length v)).
Proof.
  pose proof (encode_slot_length k v) as L.
  apply slot_at_intro.
  - exact Hp.
  - unfold m'. rewrite split_result_before by lia.
    apply encode_slot_header; lia.
  - unfold m'. rewrite split_result_before by lia.
    rewrite encode_slot_key_size, le_combine_bytes_of_uint by lia. reflexivity.
  - unfold m'. rewrite split_result_before by lia.
    rewrite encode_slot_value_size, le_combine_bytes_of_uint by lia. reflexivity.
  - rewrite split_result_length. lia.
Qed.

Lemma split_result_key :
  bytes_at m' (p + 8) (Z.of_nat (length k)) = k.
Proof.
  unfold m'. rewrite split_result_before by lia. apply encode_slot_key; lia.
Qed.

Lemma split_result_value :
  bytes_at m' (p + 12 + Z.of_nat (length k)) (Z.of_nat (length v)) = v.
Proof.
  unfold m'. rewrite split_result_before by lia. apply encode_slot_value; lia.
Qed.

Lemma split_result_slot_outside q ks vs :
  slot_at m q = Some (ks, vs) -> q + 12 + ks + vs <= p \/ p + 12 + fvs <= q ->
  slot_at m' q = Some (ks, vs).
Proof.
  intros Hs Hb. apply slot_at_inv in Hs.
  destruct Hs as (Hq0 & Hmagic & Hks & Hks0 & Hvs & Hvs0 & Hqe).
  apply slot_at_intro; rewrite ?split_result_length;
    unfold m'; rewrite ?split_result_outside by lia; auto.
Qed.

Lemma split_result_chain : forall q l r,
  chain m q l r -> r <= p \/ p + 12 + fvs <= q -> chain m' q l r.
Proof.
  induction 1 as [q|q ks vs l r Hs Hc IH]; intros Hb.
  - apply chain_nil.
  - pose proof (chain_le _ _ _ _ Hc) as Hle.
    pose proof (slot_at_inv _ _ _ _ Hs) as (Hq0 & _ & _ & Hks0 & _ & Hvs0 & _).
    apply chain_cons.
    + apply split_result_slot_outside; [exact Hs | lia].
    + apply IH. lia.
Qed.

Lemma split_result_holds_key K s q l r :
  chain m q l r -> r <= p \/ p + 12 + fvs <= q -> In s l ->
  holds_key m' K s = holds_key m K s.
Proof.
  intros Hc Hb Hin.
  destruct (chain_In _ _ _ _ _ Hc Hin) as (Hs & Hlo & Hhi).
  pose proof (slot_at_inv _ _ _ _ Hs) as (Hq0 & _ & _ & Hks0 & _ & Hvs0 & _).
  unfold slot_span in Hhi.
  unfold holds_key, slot_key, m'. rewrite split_result_outside by lia. reflexivity.
Qed.

End SplitResult.

(** ** Search and retrieval over the RAM buffer *)

Lemma search_cursor_for cur0 K : cursor_for K (search_cursor cur0 K).
Proof.
  split; [reflexivity|].
  cbn [search_cursor cursor_key]. unfold memcpy, fill.
  rewrite Nat2Z.id, firstn_all. apply firstn_app_exact. reflexivity.
Qed.

Lemma search_ram_unfold fuel cur0 (K : list byte) m :
  1 <= Z.of_nat (length K) <= KVSTORE_MAX_KEY_SIZE ->
  kvstore_search fuel ram_store (Some cur0) (Some K) (Z.of_nat (length K)) m
  = match search_next_loop fuel ram_store (with_position (search_cursor cur0 K) 0) m with
    | Some (r, cur, c) => Some (r, Some cur, c)
    | None => None
    end.
Proof.
  intros HK. unfold kvstore_search. cbn [ram_store].
  replace ((Z.of_nat (length K) =? 0) || (Z.of_nat (length K) >? KVSTORE_MAX_KEY_SIZE))
    with false.
  - reflexivity.
  - symmetry. rewrite gtb_false by lia. rewrite orb_false_r. apply Z.eqb_neq. lia.
Qed.

(** The search stops on the first slot of the scan that holds the key. *)
Lemma search_ram_first m K cur0 a s b q fuel :
  Z.of_nat (length m) < 2 ^ 32 ->
  1 <= Z.of_nat (length K) <= KVSTORE_MAX_KEY_SIZE ->
  chain m 0 (a ++ s :: b) q ->
  keys_fit a = true -> key_absent m K a = true ->
  holds_key m K s = true -> 0 < slot_key_size s ->
  (length a < fuel)%nat ->
  kvstore_search fuel ram_store (Some cur0) (Some K) (Z.of_nat (length K)) m
  = Some (KVSTORE_OK, Some (with_position (search_cursor cur0 K) (slot_pos s)), m).
Proof.
  intros Hsz HK Hc Hfit Habs Hhit Hocc Hf.
  assert (HKne : K <> []) by (destruct K; [cbn [length] in HK; lia | congruence]).
  rewrite search_ram_unfold by exact HK.
  apply chain_split in Hc. destruct Hc as (p & Hc1 & Hc2).
  inversion Hc2 as [|p0 ks vs l q0 Hslot Hc3]; subst.
  replace fuel with (length a + S (fuel - length a - 1))%nat by lia.
  rewrite (search_scan_skip m K (search_cursor cur0 K) 0 a p Hsz
             (search_cursor_for cur0 K) Hc1).
  - rewrite (search_step_hit m K (with_position (search_cursor cur0 K) p) ks vs).
    + reflexivity.
    + exact Hsz.
    + apply search_cursor_for.
    + exact Hslot.
    + unfold holds_key, slot_key, slot_key_size, slot_pos in Hhit. cbn [fst snd] in Hhit.
      destruct (bytes_eq_dec (bytes_at m (p + 8) ks) K) as [E|]; [|discriminate].
      pose proof (slot_at_inv _ _ _ _ Hslot) as (Hp & _ & _ & Hks0 & _ & Hvs0 & Hend).
      assert (ks = Z.of_nat (length K)).
      { rewrite <- E. rewrite bytes_at_length by lia. lia. }
      lia.
    + exact Hhit.
  - clear - Hfit Habs HKne. induction a as [|[[p0 ks0] vs0] a IH]; [reflexivity|].
    cbn [keys_fit key_absent forallb] in *.
    apply andb_true_iff in Hfit. destruct Hfit as [F1 F2].
    apply andb_true_iff in Habs. destruct Habs as [A1 A2].
    rewrite F1, (IH F2 A2). cbn [andb]. rewrite andb_true_r.
    apply negb_true_iff in A1. apply negb_true_iff.
    unfold slot_key_size in A1. cbn [fst snd] in A1.
    destruct (Z.eq_dec ks0 0) as [->|Hnz].
    + apply holds_key_free. exact HKne.
    + apply Z.leb_le in F1. unfold slot_key_size in F1. cbn [fst snd] in F1.
      destruct (0 <? ks0) eqn:E; [exact A1|].
      apply Z.ltb_ge in E.
      unfold holds_key, slot_key, slot_key_size, bytes_at. cbn [fst snd].
      replace (Z.to_nat ks0) with 0%nat by lia. cbn [firstn].
      destruct (bytes_eq_dec [] K); [congruence | reflexivity].
Qed.

Lemma get_ram m cur ks vs buf cap :
  Z.of_nat (length m) < 2 ^ 32 ->
  slot_at m (cursor_position cur) = Some (ks, vs) ->
  0 < cap -> vs <= cap ->
  kvstore_get ram_store (Some cur) (Some buf) (Some cap) m
  = (KVSTORE_OK,
     Some (fill buf (bytes_at m (cursor_position cur + 12 + ks) vs)), Some vs, m).
Proof.
  intros Hsz Hs Hcap Hvs. unfold kvstore_get. cbn [ram_store].
  replace (cap =? 0) with false by (symmetry; apply Z.eqb_neq; lia).
  unfold bind, ret. rewrite (read_slot_ram m _ ks vs) by assumption.
  rewrite andb_false_r. cbn beta iota zeta.
  rewrite gtb_false by exact Hvs. reflexivity.
Qed.

(** ** The read path and the backend *)

Section ReadPath.

Variables (C : Type) (self : option (KvStore C)).

(** A relation between contexts that the [read] and [get_size] callbacks of
    the store respect. *)
Variable R : C -> C -> Prop.
Hypothesis R_refl : forall c, R c c.
Hypothesis R_trans : forall c1 c2 c3, R c1 c2 -> R c2 c3 -> R c1 c3.
Hypothesis R_read :
  forall s f, self = Some s -> read (backend s) = Some f ->
  forall c pos size, R c (snd (f c pos size)).
Hypothesis R_get_size :
  forall s g, self = Some s -> get_size (backend s) = Some g ->
  forall c, R c (snd (g c)).

Lemma read_slot_respects position key key_size value value_size c :
  R c (snd (read_slot self position key key_size value value_size c)).
Proof.
  unfold read_slot.
  destruct self as [s|] eqn:Es; [|apply R_refl].
  destruct key_size as [ks0|]; [|apply R_refl].
  destruct value_size as [vs0|]; [|apply R_refl].
  destruct (get_size (backend s)) as [g|] eqn:Eg; [|apply R_refl].
  destruct (read (backend s)) as [f|] eqn:Ef; [|apply R_refl].
  pose proof (R_get_size s g eq_refl Eg) as Hg.
  pose proof (R_read s f eq_refl Ef) as Hf.
  unfold bind, ret.
  pose proof (Hg c) as Hacc. destruct (g c) as [size c0]. cbn [snd] in Hacc.
  repeat first
    [ progress (cbn beta iota zeta)
    | progress (cbn [snd])
    | match goal with
      | |- context [if ?x then _ else _] => destruct x
      | |- context [match ?k with Some _ => _ | None => _ end] => destruct k
      | Hacc : R c ?c1 |- context [f ?c1 ?p ?n] =>
        let H := fresh in
        pose proof (R_trans _ _ _ Hacc (Hf c1 p n)) as H;
        clear Hacc; rename H into Hacc;
        destruct (f c1 p n) as [[? ?] ?]; cbn [snd] in Hacc
      end ].
  all: assumption.
Qed.

Lemma advance_respects cursor c :
  R c (snd (kvstore_advance self cursor c)).
Proof.
  unfold kvstore_advance.
  remember self as s0 eqn:Es in |- *.
  destruct s0 as [s|]; [|apply R_refl].
  destruct cursor as [cur|]; [|apply R_refl].
  unfold bind, ret. rewrite Es.
  pose proof (read_slot_respects (cursor_position cur) None (Some 0) None (Some 0) c) as H.
  destruct (read_slot self (cursor_position cur) None (Some 0) None (Some 0) c)
    as [[r o] c1].
  cbn [snd] in H. cbn beta iota.
  destruct (negb (result_eqb r KVSTORE_OK)); exact H.
Qed.

Lemma search_next_loop_respects fuel : forall cur c,
  R c (state_after (search_next_loop fuel self cur c) c).
Proof.
  induction fuel as [|fuel IH]; intros cur c; [apply R_refl|].
  cbn [search_next_loop].
  pose proof (read_slot_respects (cursor_position cur) (Some search_key_buffer)
                (Some KVSTORE_MAX_KEY_SIZE) None (Some 0) c) as H.
  destruct (read_slot self (cursor_position cur) (Some search_key_buffer)
              (Some KVSTORE_MAX_KEY_SIZE) None (Some 0) c) as [[r o] c1].
  cbn [snd] in H.
  destruct (negb (result_eqb r KVSTORE_OK)); [exact H|].
  pose proof (advance_respects (Some cur) c1) as Ha.
  destruct (kvstore_advance self (Some cur) c1) as [[ra cursor] c2]. cbn [snd] in Ha.
  assert (Hstep : forall cur', R c (state_after (search_next_loop fuel self cur' c2) c)).
  { intros cur'. pose proof (IH cur' c2) as H2.
    destruct (search_next_loop fuel self cur' c2) as [[[r2 cur2] c3]|].
    - cbn [state_after] in *. eapply R_trans; [exact H|]. eapply R_trans; eassumption.
    - apply R_refl. }
  destruct (negb (_ =? _)); [apply Hstep|].
  destruct (negb (_ =? _)); [apply Hstep|].
  exact H.
Qed.

Lemma search_next_respects fuel cursor c :
  R c (state_after (kvstore_search_next fuel self cursor c) c).
Proof.
  unfold kvstore_search_next.
  remember self as s0 eqn:Es in |- *.
  destruct s0 as [s|]; [|apply R_refl].
  destruct cursor as [cur|]; [|apply R_refl].
  rewrite Es.
  pose proof (search_next_loop_respects fuel cur c) as H.
  destruct (search_next_loop fuel self cur c) as [[[r cur'] c1]|]; exact H.
Qed.

Lemma search_respects fuel cursor key key_size c :
  R c (state_after (kvstore_search fuel self cursor key key_size c) c).
Proof.
  unfold kvstore_search.
  remember self as s0 eqn:Es in |- *.
  destruct s0 as [s|]; [|apply R_refl].
  destruct cursor as [cur|]; [|apply R_refl].
  destruct key as [k|]; [|apply R_refl].
  destruct (_ || _); [apply R_refl|].
  rewrite Es. apply search_next_respects.
Qed.

Lemma get_respects cursor value value_size c :
  R c (snd (kvstore_get self cursor value value_size c)).
Proof.
  unfold kvstore_get.
  remember self as s0 eqn:Es in |- *.
  destruct s0 as [s|]; [|apply R_refl].
  destruct cursor as [cur|]; [|apply R_refl].
  destruct value as [v|]; [|apply R_refl].
  destruct value_size as [vs|]; [|apply R_refl].
  destruct (vs =? 0); [apply R_refl|].
  unfold bind, ret. rewrite Es.
  pose proof (read_slot_respects (cursor_position cur) None (Some 0) (Some v) (Some vs) c) as H.
  destruct (read_slot self (cursor_position cur) None (Some 0) (Some v) (Some vs) c)
    as [[r o] c1].
  exact H.
Qed.

Lemma get_kv_respects cursor key key_size value value_size c :
  R c (snd (kvstore_get_kv self cursor key key_size value value_size c)).
Proof.
  unfold kvstore_get_kv.
  remember self as s0 eqn:Es in |- *.
  destruct s0 as [s|]; [|apply R_refl].
  destruct cursor as [cur|]; [|apply R_refl].
  destruct key_size as [ks|]; [|apply R_refl].
  destruct value_size as [vs|]; [|apply R_refl].
  rewrite Es. apply read_slot_respects.
Qed.

End ReadPath.

(** ** Properties of the argument checks and of the read path *)

(** C4 (as amended): when [read_slot] returns a failure, the two length
    out-parameters are in one of three states, told apart by what the
    backend answered.  The key length was not decoded or exceeds the capacity
    of the key buffer: both keep their values from before the call.  The key
    length was stored but the value length was not decoded or exceeds the
    capacity of the value buffer: [*key_size] holds the key length decoded
    from the answer of the backend and [*value_size] keeps its value.  Both
    lengths were stored and the value overruns the reported size or its read
    failed: both hold the lengths decoded from the answers of the backend.
    With a [NULL] store or without the [get_size] or [read] callback both
    keep their values. *)
Theorem read_slot_failure_lengths :
  forall C (self : option (KvStore C)) position key ks0 value vs0 c r o c',
    read_slot self position key (Some ks0) value (Some vs0) c = (r, o, c') ->
    r <> KVSTORE_OK ->
    match callbacks self with
    | None => out_key_size o = Some ks0 /\ out_value_size o = Some vs0
    | Some (g, f) =>
      (key_size_stored g f position key ks0 c = false
       /\ out_key_size o = Some ks0 /\ out_value_size o = Some vs0)
      \/ (key_size_stored g f position key ks0 c = true
          /\ value_size_stored g f position key ks0 value vs0 c = false
          /\ out_key_size o = Some (decoded_key_size g f position c)
          /\ out_value_size o = Some vs0)
      \/ (value_size_stored g f position key ks0 value vs0 c = true
          /\ value_read g f position key value c = false
          /\ out_key_size o = Some (decoded_key_size g f position c)
          /\ out_value_size o = Some (decoded_value_size g f position key c))
    end.
Proof.
  intros C self position key ks0 value vs0 c r o c'.
  unfold read_slot, callbacks.
  destruct self as [s|]; [|intros H _; inversion H; subst; split; reflexivity].
  destruct (get_size (backend s)) as [g|];
    [|intros H _; inversion H; subst; split; reflexivity].
  destruct (read (backend s)) as [f|];
    [|intros H _; inversion H; subst; split; reflexivity].
  unfold value_read, value_size_stored, value_size_decoded, decoded_value_size,
    value_size_answer, value_position, value_size_position, key_answer, key_position,
    key_size_stored, key_size_decoded, decoded_key_size, key_size_answer,
    key_size_position, header_answer, reported_size.
  unfold bind, ret. cbn beta iota zeta.
  destruct (g c) as [size c0].
  destruct key as [k|]; destruct value as [v|];
  repeat first
    [ progress (cbn beta iota zeta)
    | progress (cbn [fst snd negb andb result_eqb])
    | match goal with
      | |- context [if negb ?b then _ else _] => destruct b eqn:?
      | |- context [if ?b then _ else _] => destruct b eqn:?
      | |- context [f ?x ?p ?n] => is_var x; destruct (f x p n) as [[? ?] ?]
      end ];
  intros H Hr; inversion H; subst; clear H; cbn [out_key_size out_value_size];
  try (exfalso; apply Hr; reflexivity).
  all: first [ left; repeat split; reflexivity
             | right; left; repeat split; reflexivity
             | right; right; repeat split; reflexivity ].
Qed.

(** C9: [kvstore_put] called with a [NULL] key, a zero [key_size], a [NULL]
    value, a zero [value_size] or a [key_size] above [KVSTORE_MAX_KEY_SIZE]
    returns [KVSTORE_BAD_ARG] and hands back the backend context it was
    given, whatever the backend is: no callback of the backend is called
    (for a recording backend the record of calls is the same). *)
Theorem put_bad_arg_no_backend_access :
  forall C (self : option (KvStore C)) fuel key key_size value value_size c,
    key = None \/ key_size = 0 \/ value = None \/ value_size = 0
    \/ key_size > KVSTORE_MAX_KEY_SIZE ->
    kvstore_put fuel self key key_size value value_size c = Some (KVSTORE_BAD_ARG, c).
Proof.
  intros C self fuel key key_size value value_size c H.
  unfold kvstore_put.
  destruct self as [s|]; [|reflexivity].
  destruct key as [k|]; [|reflexivity].
  destruct value as [v|]; [|reflexivity].
  destruct H as [H|[H|[H|[H|H]]]]; try discriminate.
  - subst. reflexivity.
  - subst. rewrite Z.eqb_refl, orb_true_r. reflexivity.
  - rewrite (gtb_true key_size) by lia. rewrite orb_true_r. reflexivity.
Qed.

(** C7: when the scan of [kvstore_put] leaves its loop at the end of the
    backend and [write_slot] rejects the new slot there on bounds, the call
    returns [KVSTORE_NOT_FOUND]. *)
Theorem put_capacity_exhausted :
  forall C (s : KvStore C) be_get_size be_write fuel k key_size v value_size
         c size c1 position c2 size2 c3,
    key_size <> 0 -> value_size <> 0 -> key_size <= KVSTORE_MAX_KEY_SIZE ->
    get_size (backend s) = Some be_get_size ->
    write (backend s) = Some be_write ->
    be_get_size c = (size, c1) ->
    put_loop fuel (Some s) (Some k) key_size (Some v) value_size size 0 0 0 c1
    = Some (LoopBreak position, c2) ->
    be_get_size c2 = (size2, c3) ->
    size_t (position + calculate_slot_size key_size value_size) > size2 ->
    kvstore_put fuel (Some s) (Some k) key_size (Some v) value_size c
    = Some (KVSTORE_NOT_FOUND, c3).
Proof.
  intros C s be_get_size be_write fuel k key_size v value_size
         c size c1 position c2 size2 c3 Hk Hv Hmax Hg Hw Hsize Hloop Hsize2 Hbound.
  unfold kvstore_put.
  replace ((key_size =? 0) || (value_size =? 0) || (key_size >? KVSTORE_MAX_KEY_SIZE))
    with false.
  2:{ symmetry. rewrite gtb_false by lia. rewrite !orb_false_iff, !Z.eqb_neq. auto. }
  rewrite Hg, Hsize, Hloop.
  unfold write_slot. rewrite Hg, Hw.
  replace (value_size =? 0) with false by (symmetry; apply Z.eqb_neq; exact Hv).
  unfold bind, ret. rewrite Hsize2.
  rewrite gtb_true by lia. reflexivity.
Qed.

(** C10: [kvstore_search], [kvstore_search_next], [kvstore_advance],
    [kvstore_get] and [kvstore_get_kv] never call the [write] callback: on a
    backend that records its calls, the recorded writes are the same after
    the call as before, for every store, cursor, argument and result; and on
    the RAM buffer the contents after the call are the contents before. *)
Theorem read_path_never_writes :
  forall C (b : kvstore_backend C) (st : C * list backend_call) (m : ram)
         fuel cursor key key_size key_cap value value_cap,
    let self := Some {| backend := traced b |} in
    (writes_of (snd (state_after (kvstore_search fuel self cursor key key_size st) st))
     = writes_of (snd st)
     /\ writes_of (snd (state_after (kvstore_search_next fuel self cursor st) st))
        = writes_of (snd st)
     /\ writes_of (snd (snd (kvstore_advance self cursor st))) = writes_of (snd st)
     /\ writes_of (snd (snd (kvstore_get self cursor value value_cap st)))
        = writes_of (snd st)
     /\ writes_of (snd (snd (kvstore_get_kv self cursor key key_cap value value_cap st)))
        = writes_of (snd st))
    /\ (state_after (kvstore_search fuel ram_store cursor key key_size m) m = m
        /\ state_after (kvstore_search_next fuel ram_store cursor m) m = m
        /\ snd (kvstore_advance ram_store cursor m) = m
        /\ snd (kvstore_get ram_store cursor value value_cap m) = m
        /\ snd (kvstore_get_kv ram_store cursor key key_cap value value_cap m) = m).
Proof.
  intros C b st m fuel cursor key key_size key_cap value value_cap self.
  split.
  - set (R := fun s1 s2 : C * list backend_call => writes_of (snd s2) = writes_of (snd s1)).
    assert (Rr : forall c, R c c) by (intros; reflexivity).
    assert (Rt : forall c1 c2 c3, R c1 c2 -> R c2 c3 -> R c1 c3)
      by (unfold R; intros; congruence).
    assert (Rrd : forall s f, self = Some s -> read (backend s) = Some f ->
                  forall c pos size, R c (snd (f c pos size))).
    { intros s f Hs Hf c pos size. inversion Hs; subst s. cbn in Hf.
      destruct (read b) as [f0|]; [|discriminate]. cbn in Hf. inversion Hf; subst f.
      unfold R. destruct (f0 (fst c) pos size) as [[r data] c']. cbn [snd].
      unfold writes_of. rewrite filter_app. cbn. apply app_nil_r. }
    assert (Rgs : forall s g, self = Some s -> get_size (backend s) = Some g ->
                  forall c, R c (snd (g c))).
    { intros s g Hs Hg c. inversion Hs; subst s. cbn in Hg.
      destruct (get_size b) as [g0|]; [|discriminate]. cbn in Hg. inversion Hg; subst g.
      unfold R. destruct (g0 (fst c)) as [n c']. cbn [snd].
      unfold writes_of. rewrite filter_app. cbn. apply app_nil_r. }
    repeat split.
    + apply (search_respects _ self R Rr Rt Rrd Rgs).
    + apply (search_next_respects _ self R Rr Rt Rrd Rgs).
    + apply (advance_respects _ self R Rr Rt Rrd Rgs).
    + apply (get_respects _ self R Rr Rt Rrd Rgs).
    + apply (get_kv_respects _ self R Rr Rt Rrd Rgs).
  - set (R := fun m1 m2 : ram => m2 = m1).
    assert (Rr : forall c, R c c) by (intros; reflexivity).
    assert (Rt : forall c1 c2 c3, R c1 c2 -> R c2 c3 -> R c1 c3)
      by (unfold R; intros; congruence).
    assert (Rrd : forall s f, ram_store = Some s -> read (backend s) = Some f ->
                  forall c pos size, R c (snd (f c pos size))).
    { intros s f Hs Hf c pos size. inversion Hs; subst s. cbn in Hf. inversion Hf; subst f.
      unfold R, ram_read. destruct (_ && _); reflexivity. }
    assert (Rgs : forall s g, ram_store = Some s -> get_size (backend s) = Some g ->
                  forall c, R c (snd (g c))).
    { intros s g Hs Hg c. inversion Hs; subst s. cbn in Hg. inversion Hg; subst g.
      reflexivity. }
    repeat split.
    + apply (search_respects _ ram_store R Rr Rt Rrd Rgs).
    + apply (search_next_respects _ ram_store R Rr Rt Rrd Rgs).
    + apply (advance_respects _ ram_store R Rr Rt Rrd Rgs).
    + apply (get_respects _ ram_store R Rr Rt Rrd Rgs).
    + apply (get_kv_respects _ ram_store R Rr Rt Rrd Rgs).
Qed.

(** ** Search for an absent key *)

Lemma chain_length_le m p l q :
  chain m p l q -> 0 <= p -> q <= Z.of_nat (length m) -> (length l <= length m)%nat.
Proof. intros Hc Hp Hq. apply chain_le in Hc. lia. Qed.

(** C6 (as amended): on a buffer that satisfies the packing invariant,
    [kvstore_search] for a key that no occupied slot holds returns, for
    every fuel above the size of the buffer, [KVSTORE_FAILED] (never
    [KVSTORE_NOT_FOUND]) and leaves the buffer as it was; when every stored
    key fits the key buffer of the cursor, the failure is the decode failure
    at the end of the buffer, where the cursor is left. *)
Theorem search_absent_key_fails :
  forall (m : ram) (l : list slot) (K : list byte) (cur0 : KvStoreCursor) (fuel : nat),
    Z.of_nat (length m) < 2 ^ 32 ->
    slots m = Some l ->
    1 <= Z.of_nat (length K) <= KVSTORE_MAX_KEY_SIZE ->
    key_absent m K l = true ->
    (length m < fuel)%nat ->
    exists cur,
      kvstore_search fuel ram_store (Some cur0) (Some K) (Z.of_nat (length K)) m
      = Some (KVSTORE_FAILED, Some cur, m)
      /\ (keys_fit l = true -> cursor_position cur = Z.of_nat (length m)).
Proof.
  intros m l K cur0 fuel Hsz Hl HK Habs Hf.
  apply slots_chain in Hl.
  assert (HKne : K <> []) by (destruct K; [cbn [length] in HK; lia | congruence]).
  pose proof (chain_length_le _ _ _ _ Hl ltac:(lia) ltac:(lia)) as Hlen.
  rewrite search_ram_unfold by exact HK.
  destruct (search_scan_absent m K (search_cursor cur0 K) 0 l Hsz
              (search_cursor_for cur0 K) HKne ltac:(lia) Hl Habs fuel ltac:(lia))
    as (q & Hq & Hend).
  rewrite Hq. exists (with_position (search_cursor cur0 K) q).
  split; [reflexivity | exact Hend].
Qed.

(** ** Round trip and duplicate keys *)

Lemma forallb_ext_In {A} (f g : A -> bool) (l : list A) :
  (forall x, In x l -> f x = g x) -> forallb f l = forallb g l.
Proof.
  induction l as [|a l IH]; intros H; [reflexivity|].
  cbn [forallb]. rewrite (H a (or_introl eq_refl)), IH; [reflexivity|].
  intros x Hx. apply H. right. exact Hx.
Qed.

Lemma key_absent_split_result m p fvs k v K q l r :
  Z.of_nat (length m) < 2 ^ 32 -> 0 <= p ->
  12 + Z.of_nat (length k) + Z.of_nat (length v) + 12 <= 12 + fvs ->
  p + 12 + fvs <= Z.of_nat (length m) ->
  chain m q l r -> r <= p \/ p + 12 + fvs <= q ->
  key_absent (split_result m p k v fvs) K l = key_absent m K l.
Proof.
  intros Hsz Hp Hfit Hend Hc Hb. unfold key_absent.
  apply forallb_ext_In. intros s Hin.
  rewrite (split_result_holds_key m p fvs k v Hp Hfit Hend K s q l r Hc Hb Hin).
  reflexivity.
Qed.

Lemma usable_inv need p ks vs :
  usable need (p, ks, vs) = true -> ks = 0 /\ need + 12 <= 12 + vs.
Proof.
  unfold usable, slot_span, slot_key_size, slot_value_size. cbn [fst snd].
  intros H. apply andb_true_iff in H. destruct H as [H1 H2].
  apply Z.eqb_eq in H1. apply Z.leb_le in H2. lia.
Qed.

(** C2 (as amended): on a buffer that satisfies the packing invariant, whose
    stored keys fit the key buffer and none of whose occupied slots holds
    [K], and that has a free slot with room for the pair, [kvstore_put] of a
    key of 1 to [KVSTORE_MAX_KEY_SIZE] bytes and a non-empty value succeeds,
    [kvstore_search] for the key succeeds, and [kvstore_get] at the cursor,
    with a buffer of capacity at least the length of the value, returns
    exactly the value and its length. *)
Theorem put_search_get_roundtrip :
  forall (m : ram) (l : list slot) (K V : list byte) (cur0 : KvStoreCursor)
         (buf : list byte) (cap : Z) (fuel : nat),
    Z.of_nat (length m) < 2 ^ 32 ->
    slots m = Some l ->
    keys_fit l = true ->
    key_absent m K l = true ->
    1 <= Z.of_nat (length K) <= KVSTORE_MAX_KEY_SIZE ->
    V <> [] ->
    existsb (usable (12 + Z.of_nat (length K) + Z.of_nat (length V))) l = true ->
    (length m < fuel)%nat ->
    Z.of_nat (length V) <= cap ->
    exists m' cur,
      kvstore_put fuel ram_store (Some K) (Z.of_nat (length K))
        (Some V) (Z.of_nat (length V)) m = Some (KVSTORE_OK, m')
      /\ kvstore_search fuel ram_store (Some cur0) (Some K) (Z.of_nat (length K)) m'
         = Some (KVSTORE_OK, Some cur, m')
      /\ kvstore_get ram_store (Some cur) (Some buf) (Some cap) m'
         = (KVSTORE_OK, Some (fill buf V), Some (Z.of_nat (length V)), m').
Proof.
  intros m l K V cur0 buf cap fuel Hsz Hl Hfit Habs HK HV Hroom Hf Hcap.
  apply slots_chain in Hl.
  pose proof (chain_length_le _ _ _ _ Hl ltac:(lia) ltac:(lia)) as Hlen.
  destruct (existsb_first _ _ Hroom) as (l1 & [[p ks] vs] & l2 & -> & Hl1 & Hs).
  rewrite length_app in Hlen.
  pose proof (put_ram_split m K V Hsz HK HV l1 (p, ks, vs) l2 _ fuel Hl Hl1 Hs ltac:(lia))
    as Hput.
  destruct (usable_inv _ _ _ _ Hs) as [-> Hneed].
  apply chain_split in Hl. destruct Hl as (p' & Hc1 & Hc2).
  inversion Hc2 as [|p0 ks0 vs0 l0 q0 Hslot Hc3]; subst.
  pose proof (slot_at_inv _ _ _ _ Hslot) as (Hp & _ & _ & _ & _ & Hvs0 & Hend).
  unfold keys_fit in Hfit. rewrite forallb_app in Hfit.
  apply andb_true_iff in Hfit. destruct Hfit as [Hfit1 _].
  unfold key_absent in Habs. rewrite forallb_app in Habs.
  apply andb_true_iff in Habs. destruct Habs as [Habs1 _].
  cbn [slot_pos slot_value_size fst snd] in Hput.
  set (m' := split_result m p K V vs) in *.
  assert (Hlen' : length m' = length m)
    by (apply split_result_length; lia).
  assert (Hslot' : slot_at m' p = Some (Z.of_nat (length K), Z.of_nat (length V)))
    by (apply split_result_slot; lia).
  assert (Hchain' : chain m' 0 (l1 ++ (p, Z.of_nat (length K), Z.of_nat (length V)) :: [])
                      (p + 12 + Z.of_nat (length K) + Z.of_nat (length V))).
  { eapply chain_app.
    - apply split_result_chain; [lia..|exact Hc1|left; lia].
    - apply chain_cons; [exact Hslot' | apply chain_nil]. }
  assert (Hkey' : holds_key m' K (p, Z.of_nat (length K), Z.of_nat (length V)) = true).
  { unfold holds_key, slot_key, slot_pos, slot_key_size. cbn [fst snd].
    unfold m'. rewrite split_result_key by lia.
    destruct (bytes_eq_dec K K); [reflexivity | contradiction]. }
  exists m', (with_position (search_cursor cur0 K) p).
  split; [exact Hput|]. split.
  - rewrite (search_ram_first m' K cur0 l1 (p, Z.of_nat (length K), Z.of_nat (length V)) []
               (p + 12 + Z.of_nat (length K) + Z.of_nat (length V)) fuel); try eassumption.
    all: try (rewrite Hlen'; exact Hsz).
    all: try (unfold slot_key_size; cbn [fst snd]; lia).
    all: try lia.
    all: try reflexivity.
    unfold m'.
    rewrite (key_absent_split_result m p vs K V K 0 l1 p); try lia; try assumption.
  - rewrite (get_ram m' _ (Z.of_nat (length K)) (Z.of_nat (length V)));
      cbn [with_position cursor_position]; try assumption; try lia.
    all: try (rewrite Hlen'; exact Hsz).
    all: try (destruct V; [congruence | cbn [length] in *; lia]).
    unfold m'. rewrite split_result_value by lia. reflexivity.
Qed.

Lemma occupied_not_usable need l :
  occupied_fit l = true -> forallb (fun y => negb (usable need y)) l = true.
Proof.
  unfold occupied_fit. induction l as [|s l IH]; intros H; [reflexivity|].
  cbn [forallb] in *. apply andb_true_iff in H. destruct H as [H1 H2].
  rewrite (IH H2), andb_true_r.
  apply andb_true_iff in H1. destruct H1 as [H1 _]. apply Z.ltb_lt in H1.
  unfold usable. replace (slot_key_size s =? 0) with false
    by (symmetry; apply Z.eqb_neq; lia).
  reflexivity.
Qed.

Lemma occupied_keys_fit l : occupied_fit l = true -> keys_fit l = true.
Proof.
  unfold occupied_fit, keys_fit. induction l as [|s l IH]; intros H; [reflexivity|].
  cbn [forallb] in *. apply andb_true_iff in H. destruct H as [H1 H2].
  rewrite (IH H2), andb_true_r.
  apply andb_true_iff in H1. apply H1.
Qed.

(** C8: on a buffer as [kvstore_prepare] and [kvstore_put] build it
    (occupied slots followed by one free slot) in which the key [K] is
    already stored, [kvstore_put] of [K] with a new value succeeds when the
    free slot has room: it makes no check against the stored keys and
    creates one more slot with the key [K], behind the slot that already
    holds it.  [kvstore_search] for [K] then stops on the first slot of the
    scan order that holds [K], the one that was stored earlier, and
    [kvstore_get] returns the earlier value. *)
Theorem put_duplicate_key_search_first :
  forall (m : ram) (a b : list slot) (sK f : slot) (K V : list byte)
         (cur0 : KvStoreCursor) (buf : list byte) (cap : Z) (fuel : nat),
    Z.of_nat (length m) < 2 ^ 32 ->
    slots m = Some ((a ++ sK :: b) ++ [f]) ->
    occupied_fit (a ++ sK :: b) = true ->
    key_absent m K a = true ->
    holds_key m K sK = true ->
    1 <= Z.of_nat (length K) <= KVSTORE_MAX_KEY_SIZE ->
    V <> [] ->
    usable (12 + Z.of_nat (length K) + Z.of_nat (length V)) f = true ->
    (length m < fuel)%nat ->
    0 < cap -> slot_value_size sK <= cap ->
    exists m' cur,
      kvstore_put fuel ram_store (Some K) (Z.of_nat (length K))
        (Some V) (Z.of_nat (length V)) m = Some (KVSTORE_OK, m')
      /\ (let s' := (slot_pos f, Z.of_nat (length K), Z.of_nat (length V)) in
          slot_at m' (slot_pos f) = Some (Z.of_nat (length K), Z.of_nat (length V))
          /\ slot_key m' s' = K /\ slot_value m' s' = V)
      /\ (slot_pos sK < slot_pos f
          /\ slot_at m' (slot_pos sK) = Some (slot_key_size sK, slot_value_size sK)
          /\ slot_key m' sK = K /\ slot_value m' sK = slot_value m sK)
      /\ kvstore_search fuel ram_store (Some cur0) (Some K) (Z.of_nat (length K)) m'
         = Some (KVSTORE_OK, Some cur, m')
      /\ cursor_position cur = slot_pos sK
      /\ kvstore_get ram_store (Some cur) (Some buf) (Some cap) m'
         = (KVSTORE_OK, Some (fill buf (slot_value m sK)), Some (slot_value_size sK), m').
Proof.
  intros m a b sK f K V cur0 buf cap fuel Hsz Hl Hocc Habs Hhit HK HV Hroom Hf Hcap Hvcap.
  apply slots_chain in Hl.
  pose proof (chain_length_le _ _ _ _ Hl ltac:(lia) ltac:(lia)) as Hlen.
  rewrite !length_app in Hlen. cbn [length] in Hlen.
  destruct f as [[p fks] fvs].
  pose proof (put_ram_split m K V Hsz HK HV (a ++ sK :: b) (p, fks, fvs) [] _ fuel Hl
                (occupied_not_usable _ _ Hocc) Hroom
                ltac:(rewrite length_app; cbn [length]; lia)) as Hput.
  destruct (usable_inv _ _ _ _ Hroom) as [-> Hneed].
  apply chain_split in Hl. destruct Hl as (p' & Hc1 & Hc2).
  inversion Hc2 as [|p0 ks0 vs0 l0 q0 Hslot Hc3]; subst.
  pose proof (slot_at_inv _ _ _ _ Hslot) as (Hp & _ & _ & _ & _ & Hvs0 & Hend).
  replace (p + 12 + 0 + fvs) with (p + 12 + fvs) in Hend by lia.
  cbn [slot_pos slot_value_size fst snd] in Hput |- *.
  set (m' := split_result m p K V fvs) in *.
  assert (Hlen' : length m' = length m) by (apply split_result_length; lia).
  assert (Hc1' : chain m' 0 (a ++ sK :: b) p)
    by (apply split_result_chain; [lia..|exact Hc1|left; lia]).
  destruct (chain_In _ _ _ _ sK Hc1 ltac:(apply in_or_app; right; left; reflexivity))
    as (HsK & HsKlo & HsKhi).
  pose proof (slot_at_inv _ _ _ _ HsK) as (HpK & _ & _ & HksK & _ & HvsK & _).
  unfold slot_span in HsKhi.
  destruct (chain_In _ _ _ _ sK Hc1' ltac:(apply in_or_app; right; left; reflexivity))
    as (HsK' & _ & _).
  assert (HhitK' : holds_key m' K sK = true).
  { unfold m'.
    rewrite (split_result_holds_key m p fvs K V Hp Hneed Hend K sK 0 (a ++ sK :: b) p Hc1);
      [exact Hhit | left; lia | apply in_or_app; right; left; reflexivity]. }
  assert (HoccK : 0 < slot_key_size sK).
  { unfold occupied_fit in Hocc. rewrite forallb_app in Hocc.
    apply andb_true_iff in Hocc. destruct Hocc as [_ Hocc].
    cbn [forallb] in Hocc. apply andb_true_iff in Hocc. destruct Hocc as [Hocc _].
    apply andb_true_iff in Hocc. destruct Hocc as [Hocc _]. apply Z.ltb_lt. exact Hocc. }
  assert (Hfita : keys_fit a = true).
  { apply occupied_keys_fit in Hocc. unfold keys_fit in *. rewrite forallb_app in Hocc.
    apply andb_true_iff in Hocc. apply Hocc. }
  assert (Hval : slot_value m' sK = slot_value m sK).
  { unfold slot_value, m'. apply split_result_outside; lia. }
  exists m', (with_position (search_cursor cur0 K) (slot_pos sK)).
  split; [exact Hput|]. split; [|split; [|split; [|split]]].
  - split; [apply split_result_slot; lia|]. split.
    + unfold slot_key, slot_pos, slot_key_size. cbn [fst snd].
      apply split_result_key; lia.
    + unfold slot_value, slot_pos, slot_key_size, slot_value_size. cbn [fst snd].
      apply split_result_value; lia.
  - split; [lia|]. split; [exact HsK'|]. split; [|exact Hval].
    unfold holds_key in HhitK'.
    destruct (bytes_eq_dec (slot_key m' sK) K); [assumption | discriminate].
  - apply chain_split in Hc1'. destruct Hc1' as (pk & Hca & Hcb).
    rewrite (search_ram_first m' K cur0 a sK b p fuel); try assumption.
    + reflexivity.
    + rewrite Hlen'. exact Hsz.
    + eapply chain_app; eassumption.
    + unfold m'.
      apply chain_split in Hc1. destruct Hc1 as (pk0 & Hca0 & Hcb0).
      pose proof (chain_le _ _ _ _ Hcb0).
      rewrite (key_absent_split_result m p fvs K V K 0 a pk0); try lia; try assumption.
    + lia.
  - reflexivity.
  - rewrite (get_ram m' _ (slot_key_size sK) (slot_value_size sK));
      cbn [with_position cursor_position]; try assumption.
    + unfold slot_value in Hval. rewrite Hval. reflexivity.
    + rewrite Hlen'. exact Hsz.
Qed.

(** ** The packing invariant outside the defect *)

Lemma chain_slots_from m p l :
  chain m p l (Z.of_nat (length m)) ->
  forall fuel, (length l < fuel)%nat -> slots_from fuel m p = Some l.
Proof.
  intros Hc. remember (Z.of_nat (length m)) as e eqn:He in Hc.
  induction Hc as [p|p ks vs l q Hs Hc IH]; intros fuel Hf.
  - destruct fuel as [|fuel]; [inversion Hf|].
    cbn [slots_from]. subst p. rewrite Z.eqb_refl. reflexivity.
  - destruct fuel as [|fuel]; [inversion Hf|].
    cbn [length] in Hf. cbn [slots_from].
    pose proof (slot_at_inv _ _ _ _ Hs) as (Hp & _ & _ & Hks0 & _ & Hvs0 & Hend).
    replace (p =? Z.of_nat (length m)) with false by (symmetry; apply Z.eqb_neq; lia).
    rewrite Hs, (IH He fuel) by lia. reflexivity.
Qed.

Lemma chain_slots m l : chain m 0 l (Z.of_nat (length m)) -> slots m = Some l.
Proof.
  intros Hc. apply chain_slots_from; [exact Hc|].
  pose proof (chain_length_le _ _ _ _ Hc ltac:(lia) ltac:(lia)). lia.
Qed.

(** On a buffer of more than 12 bytes [kvstore_prepare] writes one free
    slot that spans the buffer. *)
Lemma prepare_ram m :
  12 < Z.of_nat (length m) < 2 ^ 32 ->
  kvstore_prepare ram_store m
  = (KVSTORE_OK, store_bytes m 0 (encode_free (Z.of_nat (length m) - 12))).
Proof.
  intros Hsz. unfold kvstore_prepare.
  cbn [ram_store backend ram_backend get_size ram_get_size].
  unfold bind, ret, ram_get_size. cbn beta iota zeta.
  unfold calculate_value_size.
  unfold KVSTORE_HEADER_SIZE_BYTES, KVSTORE_KEY_SIZE_BYTES, KVSTORE_VALUE_SIZE_BYTES.
  rewrite size_t_small by lia.
  replace (Z.of_nat (length m) - 4 - 4 - 0 - 4) with (Z.of_nat (length m) - 12) by lia.
  change (Some {| backend := ram_backend |}) with ram_store.
  rewrite write_slot_ram_free by lia. reflexivity.
Qed.

Lemma prepare_slots m :
  12 < Z.of_nat (length m) < 2 ^ 32 ->
  slots (snd (kvstore_prepare ram_store m)) = Some [(0, 0, Z.of_nat (length m) - 12)].
Proof.
  intros Hsz. rewrite prepare_ram by exact Hsz. cbn [snd].
  assert (L : Z.of_nat (length (encode_free (Z.of_nat (length m) - 12))) = 12).
  { unfold encode_free. rewrite !length_app, !bytes_of_uint_length. reflexivity. }
  apply chain_slots. rewrite store_bytes_length by lia.
  apply chain_cons.
  - apply slot_at_encode_free; lia.
  - replace (0 + 12 + 0 + (Z.of_nat (length m) - 12)) with (Z.of_nat (length m)) by lia.
    apply chain_nil.
Qed.

(** A split that leaves room for padding in the trailing free slot keeps the
    packing invariant: the free slot is replaced by the occupied slot and a
    smaller free slot. *)
Lemma put_split_slots m l1 p fvs l2 (k v : list byte) fuel :
  Z.of_nat (length m) < 2 ^ 32 ->
  1 <= Z.of_nat (length k) <= KVSTORE_MAX_KEY_SIZE -> v <> [] ->
  slots m = Some (l1 ++ (p, 0, fvs) :: l2) ->
  forallb (fun y => negb (usable (12 + Z.of_nat (length k) + Z.of_nat (length v)) y)) l1
  = true ->
  12 + Z.of_nat (length k) + Z.of_nat (length v) + 12 < 12 + fvs ->
  (length m < fuel)%nat ->
  exists m',
    kvstore_put fuel ram_store (Some k) (Z.of_nat (length k)) (Some v) (Z.of_nat (length v)) m
    = Some (KVSTORE_OK, m')
    /\ length m' = length m
    /\ slots m'
       = Some (l1 ++ (p, Z.of_nat (length k), Z.of_nat (length v))
                  :: (p + 12 + Z.of_nat (length k) + Z.of_nat (length v), 0,
                      fvs - Z.of_nat (length k) - Z.of_nat (length v) - 12) :: l2).
Proof.
  intros Hsz Hk Hv Hl Hl1 Hroom Hf.
  apply slots_chain in Hl.
  pose proof (chain_length_le _ _ _ _ Hl ltac:(lia) ltac:(lia)) as Hlen.
  rewrite length_app in Hlen.
  assert (Hu : usable (12 + Z.of_nat (length k) + Z.of_nat (length v)) (p, 0, fvs) = true).
  { unfold usable, slot_span, slot_key_size, slot_value_size. cbn [fst snd].
    rewrite Z.eqb_refl. cbn [andb]. apply Z.leb_le. lia. }
  assert (Hf1 : (length l1 < fuel)%nat) by lia.
  pose proof (put_ram_split m k v Hsz Hk Hv l1 (p, 0, fvs) l2 _ fuel Hl Hl1 Hu Hf1)
    as Hput.
  cbn [slot_pos slot_value_size fst snd] in Hput.
  apply chain_split in Hl. destruct Hl as (p' & Hc1 & Hc2).
  inversion Hc2 as [|p0 ks0 vs0 l0 q0 Hslot Hc3]; subst.
  pose proof (slot_at_inv _ _ _ _ Hslot) as (Hp & _ & _ & _ & _ & Hvs0 & Hend).
  replace (p + 12 + 0 + fvs) with (p + 12 + fvs) in * by lia.
  pose proof (encode_slot_length k v) as L.
  set (rest := fvs - Z.of_nat (length k) - Z.of_nat (length v) - 12) in *.
  set (m' := split_result m p k v fvs) in *.
  assert (Hlen' : length m' = length m) by (apply split_result_length; lia).
  exists m'. split; [exact Hput|]. split; [exact Hlen'|].
  apply chain_slots. rewrite Hlen'.
  eapply chain_app.
  - apply split_result_chain; [lia..|exact Hc1|left; lia].
  - apply chain_cons; [apply split_result_slot; lia|].
    apply chain_cons.
    + unfold m', split_result. fold rest.
      replace (rest =? 0) with false by (symmetry; apply Z.eqb_neq; unfold rest; lia).
      apply slot_at_encode_free; rewrite ?store_bytes_length; unfold rest; lia.
    + replace (p + 12 + Z.of_nat (length k) + Z.of_nat (length v) + 12 + 0 + rest)
        with (p + 12 + fvs) by (unfold rest; lia).
      apply split_result_chain; [lia..|exact Hc3|right; lia].
Qed.

(** ** The defects *)

(** C1: the packing invariant is broken where the free slot to write has no
    padding.  [kvstore_prepare] on a backend of exactly 12 bytes returns
    [KVSTORE_OK] and writes nothing, so that [read_slot] fails at offset 0;
    and [kvstore_put] into a free slot that exceeds the new slot by exactly
    12 bytes returns [KVSTORE_OK] and leaves, behind the new slot, 12 bytes
    at which [read_slot] fails. *)
Theorem packing_invariant_broken :
  (kvstore_prepare ram_store (zeros 12) = (KVSTORE_OK, zeros 12)
   /\ fst (fst (read_slot ram_store 0 None (Some 0) None (Some 0) (zeros 12)))
      = KVSTORE_FAILED
   /\ packed (zeros 12) = false)
  /\ (packed (prepared 27) = true
      /\ exists m1,
           kvstore_put 28 ram_store (Some key_a) 1 (Some value_bc) 2 (prepared 27)
           = Some (KVSTORE_OK, m1)
           /\ slot_at m1 0 = Some (1, 2)
           /\ fst (fst (read_slot ram_store 15 None (Some 0) None (Some 0) m1))
              = KVSTORE_FAILED
           /\ packed m1 = false).
Proof.
  split; [repeat split; vm_compute; reflexivity|].
  split; [vm_compute; reflexivity|].
  eexists. split; [vm_compute; reflexivity|].
  repeat split; vm_compute; reflexivity.
Qed.

(** C3: a failed slot encode is not propagated.  On a write-protected
    backend that holds one free slot, the first [write_slot] of the split
    path fails and [kvstore_put] returns [KVSTORE_OK] without having stored
    anything; [kvstore_prepare] returns [KVSTORE_OK] although its
    [write_slot] fails; and on a RAM buffer of 12 bytes the [write_slot] of
    [kvstore_prepare] returns [KVSTORE_BAD_ARG] while [kvstore_prepare]
    returns [KVSTORE_OK]. *)
Theorem encode_failure_not_propagated :
  (write_slot write_protected_store 0 (Some key_a) 1 (Some value_bc) 2 (prepared 40)
   = (KVSTORE_FAILED, prepared 40)
   /\ kvstore_put 41 write_protected_store (Some key_a) 1 (Some value_bc) 2 (prepared 40)
      = Some (KVSTORE_OK, prepared 40))
  /\ (write_slot write_protected_store 0 None 0 None (calculate_value_size 40 0) (zeros 40)
      = (KVSTORE_FAILED, zeros 40)
      /\ kvstore_prepare write_protected_store (zeros 40) = (KVSTORE_OK, zeros 40))
  /\ (write_slot ram_store 0 None 0 None (calculate_value_size 12 0) (zeros 12)
      = (KVSTORE_BAD_ARG, zeros 12)
      /\ kvstore_prepare ram_store (zeros 12) = (KVSTORE_OK, zeros 12)).
Proof.
  repeat split; vm_compute; reflexivity.
Qed.

(** C5: on a zero-filled backend of exactly 12 bytes, [kvstore_prepare]
    returns [KVSTORE_OK] without writing the free slot, and the following
    [kvstore_put] of any valid pair returns [KVSTORE_FAILED], not
    [KVSTORE_NOT_FOUND]: no slot decodes at offset 0. *)
Theorem minimal_backend_put_fails :
  forall (k v : list byte) (fuel : nat),
    1 <= Z.of_nat (length k) <= KVSTORE_MAX_KEY_SIZE ->
    v <> [] ->
    kvstore_prepare ram_store (zeros 12) = (KVSTORE_OK, zeros 12)
    /\ slot_at (zeros 12) 0 = None
    /\ kvstore_put (S fuel) ram_store (Some k) (Z.of_nat (length k))
         (Some v) (Z.of_nat (length v)) (zeros 12)
       = Some (KVSTORE_FAILED, zeros 12).
Proof.
  intros k v fuel Hk Hv.
  split; [vm_compute; reflexivity|].
  split; [vm_compute; reflexivity|].
  unfold kvstore_put. cbn [ram_store backend ram_backend get_size ram_get_size].
  rewrite valid_key_args by assumption.
  cbn [put_loop].
  replace (0 >=? Z.of_nat (length (zeros 12))) with false by reflexivity.
  replace (read_slot (Some {| backend := ram_backend |}) 0 None (Some 0) None (Some 0)
             (zeros 12))
    with (KVSTORE_FAILED,
          {| out_key := None; out_key_size := Some 0;
             out_value := None; out_value_size := Some 0 |}, zeros 12)
    by (vm_compute; reflexivity).
  reflexivity.
Qed.

(** ** Counterexamples to the claims as stated *)

(** C2 as stated fails when the key is already stored: after the pair
    ("a", "bc"), the pair ("a", "de") is put with success and the search for
    "a" followed by [kvstore_get] returns "bc". *)
Lemma roundtrip_fails_on_stored_key :
  ~ (forall (m : ram) (l : list slot) (K V : list byte) (cur0 : KvStoreCursor)
            (buf : list byte) (cap : Z) (fuel : nat) (m' : ram),
       Z.of_nat (length m) < 2 ^ 32 ->
       slots m = Some l ->
       1 <= Z.of_nat (length K) <= KVSTORE_MAX_KEY_SIZE ->
       V <> [] ->
       existsb (usable (12 + Z.of_nat (length K) + Z.of_nat (length V))) l = true ->
       (length m < fuel)%nat ->
       Z.of_nat (length V) <= cap ->
       kvstore_put fuel ram_store (Some K) (Z.of_nat (length K))
         (Some V) (Z.of_nat (length V)) m = Some (KVSTORE_OK, m') ->
       exists cur,
         kvstore_search fuel ram_store (Some cur0) (Some K) (Z.of_nat (length K)) m'
         = Some (KVSTORE_OK, Some cur, m')
         /\ kvstore_get ram_store (Some cur) (Some buf) (Some cap) m'
            = (KVSTORE_OK, Some (fill buf V), Some (Z.of_nat (length V)), m')).
Proof.
  intros H.
  specialize (H store_a [(0, 1, 2); (15, 0, 37)] key_a value_de blank_cursor
                (zeros 2) 2 65%nat (after_put key_a value_de store_a)).
  destruct H as (cur & Hsearch & Hget).
  - vm_compute. reflexivity.
  - vm_compute. reflexivity.
  - vm_compute. split; discriminate.
  - discriminate.
  - vm_compute. reflexivity.
  - vm_compute. lia.
  - vm_compute. discriminate.
  - vm_compute. reflexivity.
  - vm_compute in Hsearch. inversion Hsearch; subst cur.
    vm_compute in Hget. discriminate Hget.
Qed.

(** C4 as stated fails when the failure comes after the key length was
    decoded: reading the slot of ("a", "bc") with a value buffer of one byte
    fails and leaves the key length 1 in [*key_size], which held 0. *)
Lemma read_slot_failure_overwrites_key_size :
  ~ (forall C (self : option (KvStore C)) position key ks0 value vs0 c r o c',
       read_slot self position key (Some ks0) value (Some vs0) c = (r, o, c') ->
       r <> KVSTORE_OK ->
       out_key_size o = Some ks0 /\ out_value_size o = Some vs0).
Proof.
  intros H.
  destruct (H ram ram_store 0 None 0 (Some (zeros 1)) 1 store_a
              KVSTORE_FAILED
              {| out_key := None; out_key_size := Some 1;
                 out_value := Some (zeros 1); out_value_size := Some 1 |}
              store_a) as [Hk _].
  - vm_compute. reflexivity.
  - discriminate.
  - discriminate Hk.
Qed.

(** C6 as stated fails when a stored key is longer than the key buffer of
    the cursor: on a packed buffer whose first slot holds a key of 17 bytes,
    the search for the absent key "a" fails on the key-capacity check at
    offset 0 and leaves the cursor there, not at the end of the backend. *)
Lemma search_absent_key_stops_at_long_key :
  ~ (forall (m : ram) (l : list slot) (K : list byte) (cur0 : KvStoreCursor) (fuel : nat),
       Z.of_nat (length m) < 2 ^ 32 ->
       slots m = Some l ->
       1 <= Z.of_nat (length K) <= KVSTORE_MAX_KEY_SIZE ->
       key_absent m K l = true ->
       (length m < fuel)%nat ->
       exists cur,
         kvstore_search fuel ram_store (Some cur0) (Some K) (Z.of_nat (length K)) m
         = Some (KVSTORE_FAILED, Some cur, m)
         /\ cursor_position cur = Z.of_nat (length m)).
Proof.
  intros H.
  specialize (H store17 [(0, 17, 2); (31, 0, 4)] key_a blank_cursor 48%nat).
  destruct H as (cur & Hsearch & Hpos).
  - vm_compute. reflexivity.
  - vm_compute. reflexivity.
  - vm_compute. split; discriminate.
  - vm_compute. reflexivity.
  - vm_compute. lia.
  - vm_compute in Hsearch. inversion Hsearch; subst cur.
    vm_compute in Hpos. discriminate Hpos.
Qed.

(** ** The theorems at concrete stores *)

Lemma read_slot_failure_lengths_witness :
  (key_size_stored ram_get_size ram_read 0 None 0 store_a = false
   /\ Some 1 = Some 0 /\ Some 1 = Some 1)
  \/ (key_size_stored ram_get_size ram_read 0 None 0 store_a = true
      /\ value_size_stored ram_get_size ram_read 0 None 0 (Some (zeros 1)) 1 store_a = false
      /\ Some 1 = Some (decoded_key_size ram_get_size ram_read 0 store_a)
      /\ Some 1 = Some 1)
  \/ (value_size_stored ram_get_size ram_read 0 None 0 (Some (zeros 1)) 1 store_a = true
      /\ value_read ram_get_size ram_read 0 None (Some (zeros 1)) store_a = false
      /\ Some 1 = Some (decoded_key_size ram_get_size ram_read 0 store_a)
      /\ Some 1 = Some (decoded_value_size ram_get_size ram_read 0 None store_a)).
Proof.
  refine (read_slot_failure_lengths ram ram_store 0 None 0 (Some (zeros 1)) 1 store_a
            KVSTORE_FAILED
            {| out_key := None; out_key_size := Some 1;
               out_value := Some (zeros 1); out_value_size := Some 1 |}
            store_a _ _).
  - vm_compute. reflexivity.
  - discriminate.
Defined.

Lemma put_bad_arg_no_backend_access_witness :
  kvstore_put 65 ram_store (Some []) 0 (Some value_bc) 2 store_a
  = Some (KVSTORE_BAD_ARG, store_a).
Proof.
  apply (put_bad_arg_no_backend_access ram ram_store 65 (Some []) 0 (Some value_bc) 2 store_a).
  right. left. reflexivity.
Defined.

Lemma put_capacity_exhausted_witness :
  kvstore_put 31 ram_store (Some key_a) 1 (Some value_bc) 2 store_full
  = Some (KVSTORE_NOT_FOUND, store_full).
Proof.
  apply (put_capacity_exhausted ram {| backend := ram_backend |} ram_get_size ram_write
           31 key_a 1 value_bc 2 store_full 30 store_full 30 store_full 30 store_full).
  - lia.
  - lia.
  - vm_compute. discriminate.
  - reflexivity.
  - reflexivity.
  - vm_compute. reflexivity.
  - vm_compute. reflexivity.
  - vm_compute. reflexivity.
  - vm_compute. reflexivity.
Defined.

Lemma search_absent_key_fails_witness :
  exists cur,
    kvstore_search 65 ram_store (Some blank_cursor) (Some key_z) 1 store_a
    = Some (KVSTORE_FAILED, Some cur, store_a)
    /\ (keys_fit [(0, 1, 2); (15, 0, 37)] = true -> cursor_position cur = 64).
Proof.
  apply (search_absent_key_fails store_a [(0, 1, 2); (15, 0, 37)] key_z blank_cursor 65).
  - vm_compute. reflexivity.
  - vm_compute. reflexivity.
  - vm_compute. split; discriminate.
  - vm_compute. reflexivity.
  - vm_compute. lia.
Defined.

Lemma put_search_get_roundtrip_witness :
  exists m' cur,
    kvstore_put 65 ram_store (Some key_z) 1 (Some value_de) 2 store_a
    = Some (KVSTORE_OK, m')
    /\ kvstore_search 65 ram_store (Some blank_cursor) (Some key_z) 1 m'
       = Some (KVSTORE_OK, Some cur, m')
    /\ kvstore_get ram_store (Some cur) (Some (zeros 4)) (Some 4) m'
       = (KVSTORE_OK, Some (fill (zeros 4) value_de), Some 2, m').
Proof.
  apply (put_search_get_roundtrip store_a [(0, 1, 2); (15, 0, 37)] key_z value_de
           blank_cursor (zeros 4) 4 65).
  - vm_compute. reflexivity.
  - vm_compute. reflexivity.
  - vm_compute. reflexivity.
  - vm_compute. reflexivity.
  - vm_compute. split; discriminate.
  - discriminate.
  - vm_compute. reflexivity.
  - vm_compute. lia.
  - vm_compute. discriminate.
Defined.

Lemma put_duplicate_key_search_first_witness :
  exists m' cur,
    kvstore_put 65 ram_store (Some key_a) 1 (Some value_de) 2 store_a
    = Some (KVSTORE_OK, m')
    /\ (let s' := (15, 1, 2) in
        slot_at m' 15 = Some (1, 2) /\ slot_key m' s' = key_a /\ slot_value m' s' = value_de)
    /\ (0 < 15
        /\ slot_at m' 0 = Some (1, 2)
        /\ slot_key m' (0, 1, 2) = key_a
        /\ slot_value m' (0, 1, 2) = slot_value store_a (0, 1, 2))
    /\ kvstore_search 65 ram_store (Some blank_cursor) (Some key_a) 1 m'
       = Some (KVSTORE_OK, Some cur, m')
    /\ cursor_position cur = 0
    /\ kvstore_get ram_store (Some cur) (Some (zeros 4)) (Some 4) m'
       = (KVSTORE_OK, Some (fill (zeros 4) (slot_value store_a (0, 1, 2))), Some 2, m').
Proof.
  apply (put_duplicate_key_search_first store_a [] [] (0, 1, 2) (15, 0, 37)
           key_a value_de blank_cursor (zeros 4) 4 65).
  - vm_compute. reflexivity.
  - vm_compute. reflexivity.
  - vm_compute. reflexivity.
  - vm_compute. reflexivity.
  - vm_compute. reflexivity.
  - vm_compute. split; discriminate.
  - discriminate.
  - vm_compute. reflexivity.
  - vm_compute. lia.
  - lia.
  - vm_compute. discriminate.
Defined.

Lemma minimal_backend_put_fails_witness :
  kvstore_prepare ram_store (zeros 12) = (KVSTORE_OK, zeros 12)
  /\ slot_at (zeros 12) 0 = None
  /\ kvstore_put 13 ram_store (Some key_a) 1 (Some value_bc) 2 (zeros 12)
     = Some (KVSTORE_FAILED, zeros 12).
Proof.
  apply (minimal_backend_put_fails key_a value_bc 12).
  - vm_compute. split; discriminate.
  - discriminate.
Defined.

(** ** Size arithmetic and the slot round trip *)

(** X1: [calculate_value_size] and [calculate_slot_size] are inverse to each
    other in [size_t] arithmetic, wrap-around included: the value size
    computed for a slot size gives back that slot size. *)
Theorem slot_size_value_size_inverse :
  forall slot_size key_size value_size,
    calculate_slot_size key_size (calculate_value_size slot_size key_size)
    = size_t slot_size
    /\ calculate_value_size (calculate_slot_size key_size value_size) key_size
       = size_t value_size.
Proof.
  intros slot_size key_size value_size.
  unfold calculate_slot_size, calculate_value_size, size_t, SIZE_BITS.
  unfold KVSTORE_HEADER_SIZE_BYTES, KVSTORE_KEY_SIZE_BYTES, KVSTORE_VALUE_SIZE_BYTES.
  change (2 ^ 32) with 4294967296.
  split.
  - rewrite Zplus_mod_idemp_r. f_equal. lia.
  - replace ((4 + 4 + key_size + 4 + value_size) mod 4294967296 - 4 - 4 - key_size - 4)
      with ((4 + 4 + key_size + 4 + value_size) mod 4294967296 - (12 + key_size)) by lia.
    rewrite Zminus_mod_idemp_l. f_equal. lia.
Qed.

(** X2: encode/decode round trip of the slot codec.  On a RAM buffer,
    [write_slot] of a key and a non-empty value at an offset where the slot
    fits returns [KVSTORE_OK]; [read_slot] at that offset, with buffers of
    sufficient capacity, then returns the key, the value and their lengths;
    the buffer keeps its size and every byte outside the slot. *)
Theorem write_read_slot_roundtrip :
  forall (m : ram) (p : Z) (k v kbuf vbuf : list byte) (kcap vcap : Z),
    Z.of_nat (length m) < 2 ^ 32 -> 0 <= p -> v <> [] ->
    p + 12 + Z.of_nat (length k) + Z.of_nat (length v) <= Z.of_nat (length m) ->
    Z.of_nat (length k) <= kcap -> Z.of_nat (length v) <= vcap ->
    exists m',
      write_slot ram_store p (Some k) (Z.of_nat (length k))
        (Some v) (Z.of_nat (length v)) m = (KVSTORE_OK, m')
      /\ read_slot ram_store p (Some kbuf) (Some kcap) (Some vbuf) (Some vcap) m'
         = (KVSTORE_OK,
            {| out_key := Some (fill kbuf k);
               out_key_size := Some (Z.of_nat (length k));
               out_value := Some (fill vbuf v);
               out_value_size := Some (Z.of_nat (length v)) |}, m')
      /\ length m' = length m
      /\ (forall q n, 0 <= q -> 0 <= n ->
            q + n <= p \/ p + 12 + Z.of_nat (length k) + Z.of_nat (length v) <= q ->
            bytes_at m' q n = bytes_at m q n).
Proof.
  intros m p k v kbuf vbuf kcap vcap Hsz Hp Hv Hb Hkcap Hvcap.
  pose proof (encode_slot_length k v) as L.
  exists (store_bytes m p (encode_slot k v)).
  split; [apply write_slot_ram_occupied; assumption|].
  assert (Hlen : length (store_bytes m p (encode_slot k v)) = length m)
    by (apply store_bytes_length; lia).
  split; [|split; [exact Hlen|]].
  - rewrite (read_slot_ram _ p (Z.of_nat (length k)) (Z.of_nat (length v))).
    + rewrite !(gtb_false (Z.of_nat (length _))) by assumption.
      cbn [andb option_map].
      rewrite encode_slot_key, encode_slot_value by assumption. reflexivity.
    + rewrite Hlen. exact Hsz.
    + apply slot_at_encode_slot; assumption.
  - intros q n Hq Hn [Hbefore|Hafter].
    + apply bytes_at_store_before; lia.
    + apply bytes_at_store_after; lia.
Qed.

(** X3: [write_slot] over a RAM buffer writes the whole slot or nothing.
    When the value is not empty and the slot fits it returns [KVSTORE_OK]
    and the buffer holds the encoded slot at the offset; otherwise it
    returns a failure and the buffer is unchanged. *)
Theorem write_slot_all_or_nothing :
  forall (m : ram) (p : Z) (k v : list byte),
    Z.of_nat (length m) < 2 ^ 32 -> 0 <= p ->
    p + 12 + Z.of_nat (length k) + Z.of_nat (length v) < 2 ^ 32 ->
    let r := write_slot ram_store p (Some k) (Z.of_nat (length k))
               (Some v) (Z.of_nat (length v)) m in
    (v <> [] /\ p + 12 + Z.of_nat (length k) + Z.of_nat (length v) <= Z.of_nat (length m)
     /\ r = (KVSTORE_OK, store_bytes m p (encode_slot k v)))
    \/ (v = [] /\ r = (KVSTORE_BAD_ARG, m))
    \/ (Z.of_nat (length m) < p + 12 + Z.of_nat (length k) + Z.of_nat (length v)
        /\ r = (KVSTORE_FAILED, m)).
Proof.
  intros m p k v Hsz Hp Hnw r.
  destruct v as [|b v'].
  { right. left. split; [reflexivity|]. apply write_slot_zero. }
  set (v := b :: v') in *.
  assert (Hv : v <> []) by discriminate.
  destruct (Z_le_gt_dec (p + 12 + Z.of_nat (length k) + Z.of_nat (length v))
              (Z.of_nat (length m))) as [Hfit|Hbig].
  - left. split; [exact Hv|]. split; [exact Hfit|].
    apply write_slot_ram_occupied; assumption.
  - right. right. split; [lia|].
    unfold r, write_slot.
    cbn [ram_store backend ram_backend get_size write ram_get_size].
    assert (Hv0 : (Z.of_nat (length v) =? 0) = false)
      by (apply Z.eqb_neq; unfold v; cbn [length]; lia).
    rewrite Hv0. unfold calculate_slot_size.
    unfold KVSTORE_HEADER_SIZE_BYTES, KVSTORE_KEY_SIZE_BYTES, KVSTORE_VALUE_SIZE_BYTES.
    unfold bind, ret, ram_get_size. cbn beta iota zeta.
    rewrite (size_t_small (4 + 4 + _ + 4 + _)) by lia.
    rewrite size_t_small by lia.
    rewrite gtb_true by lia. reflexivity.
Qed.

(** X4: encoding a free slot writes its three fields only.  [write_slot]
    with a [NULL] key, a [NULL] value and a value size of at least 1 returns
    [KVSTORE_OK] when the slot fits, [read_slot] then decodes key length 0
    and the given value length, and every byte behind the 12 field bytes,
    the padding of the free slot included, keeps its previous content. *)
Theorem write_free_slot_keeps_padding :
  forall (m : ram) (p vs : Z),
    Z.of_nat (length m) < 2 ^ 32 -> 0 <= p -> 0 < vs ->
    p + 12 + vs <= Z.of_nat (length m) ->
    exists m',
      write_slot ram_store p None 0 None vs m = (KVSTORE_OK, m')
      /\ read_slot ram_store p None (Some 0) None (Some 0) m'
         = (KVSTORE_OK,
            {| out_key := None; out_key_size := Some 0;
               out_value := None; out_value_size := Some vs |}, m')
      /\ (forall q n, 0 <= q -> 0 <= n -> q + n <= p \/ p + 12 <= q ->
            bytes_at m' q n = bytes_at m q n).
Proof.
  intros m p vs Hsz Hp Hvs Hb.
  assert (L : Z.of_nat (length (encode_free vs)) = 12).
  { unfold encode_free. rewrite !length_app, !bytes_of_uint_length. reflexivity. }
  exists (store_bytes m p (encode_free vs)).
  split; [apply write_slot_ram_free; assumption|]. split.
  - rewrite (read_slot_ram _ p 0 vs).
    + rewrite !andb_false_r. reflexivity.
    + rewrite store_bytes_length by lia. exact Hsz.
    + apply slot_at_encode_free; lia.
  - intros q n Hq Hn [Hbefore|Hafter].
    + apply bytes_at_store_before; lia.
    + apply bytes_at_store_after; lia.
Qed.

(** ** Formatting a buffer *)

Lemma ram_write_length m buf pos size :
  length (snd (ram_write m buf pos size)) = length m.
Proof.
  unfold ram_write.
  destruct ((0 <=? pos) && (0 <=? size) && (pos + size <=? Z.of_nat (length m))
            && (size <=? Z.of_nat (length buf))) eqn:E; [|reflexivity].
  rewrite !andb_true_iff, !Z.leb_le in E.
  cbn [snd]. rewrite !length_app, !length_firstn, length_skipn. lia.
Qed.

Lemma write_slot_ram_length p key ks value vs m :
  length (snd (write_slot ram_store p key ks value vs m)) = length m.
Proof.
  unfold write_slot.
  cbn [ram_store backend ram_backend get_size write ram_get_size].
  destruct (vs =? 0); [reflexivity|].
  unfold bind, ret, ram_get_size. cbn beta iota zeta.
  destruct (_ >? _); [reflexivity|].
  pose proof ram_write_length as W.
  repeat first
    [ progress (cbn beta iota zeta)
    | progress (cbn [snd])
    | match goal with
      | |- context [ram_write ?m1 ?b ?q ?n] =>
        let H := fresh "H" in
        pose proof (W m1 b q n) as H;
        destruct (ram_write m1 b q n) as [? ?]; cbn [snd] in H
      | |- context [if ?x then _ else _] => destruct x
      | |- context [match ?k with Some _ => _ | None => _ end] => destruct k
      end ].
  all: congruence.
Qed.

Lemma slot_at_short m p :
  0 <= p -> Z.of_nat (length m) < p + 12 -> slot_at m p = None.
Proof.
  intros Hp H. destruct (slot_at m p) as [[ks vs]|] eqn:E; [|reflexivity].
  apply slot_at_inv in E. lia.
Qed.

(** X5: on a RAM buffer of more than 12 bytes, whatever it holds,
    [kvstore_prepare] returns [KVSTORE_OK] and leaves exactly one slot, a
    free slot that spans the buffer; the size is unchanged and only the
    first 12 bytes are written. *)
Theorem prepare_formats_one_free_slot :
  forall m : ram,
    12 < Z.of_nat (length m) < 2 ^ 32 ->
    exists m',
      kvstore_prepare ram_store m = (KVSTORE_OK, m')
      /\ length m' = length m
      /\ slots m' = Some [(0, 0, Z.of_nat (length m) - 12)]
      /\ (forall q n, 12 <= q -> bytes_at m' q n = bytes_at m q n).
Proof.
  intros m Hsz.
  assert (L : Z.of_nat (length (encode_free (Z.of_nat (length m) - 12))) = 12).
  { unfold encode_free. rewrite !length_app, !bytes_of_uint_length. reflexivity. }
  exists (store_bytes m 0 (encode_free (Z.of_nat (length m) - 12))).
  split; [apply prepare_ram; exact Hsz|].
  split; [apply store_bytes_length; lia|]. split.
  - pose proof (prepare_slots m Hsz) as H. rewrite prepare_ram in H by exact Hsz. exact H.
  - intros q n Hq. apply bytes_at_store_after; lia.
Qed.

Lemma ram_write_fail m buf pos size :
  Z.of_nat (length m) < pos + size -> ram_write m buf pos size = (KVSTORE_FAILED, m).
Proof.
  intros H. unfold ram_write.
  replace (pos + size <=? Z.of_nat (length m)) with false
    by (symmetry; apply Z.leb_gt; exact H).
  rewrite andb_false_r. reflexivity.
Qed.

Lemma size_t_negative x : - 2 ^ 32 <= x < 0 -> size_t x = x + 2 ^ 32.
Proof.
  intros H. unfold size_t, SIZE_BITS. symmetry.
  apply (Z.mod_unique x (2 ^ 32) (-1)); lia.
Qed.

(** On a buffer of 8 to 11 bytes [kvstore_prepare] writes the header and the
    key-length field and fails at the value-length field. *)
Lemma prepare_ram_short m :
  8 <= Z.of_nat (length m) < 12 ->
  kvstore_prepare ram_store m
  = (KVSTORE_OK, store_bytes m 0 (KVSTORE_HEADER_MAGIC ++ bytes_of_uint 4 0)).
Proof.
  intros Hsz. unfold kvstore_prepare.
  cbn [ram_store backend ram_backend get_size ram_get_size].
  unfold bind, ret, ram_get_size. cbn beta iota zeta.
  unfold calculate_value_size.
  unfold KVSTORE_HEADER_SIZE_BYTES, KVSTORE_KEY_SIZE_BYTES, KVSTORE_VALUE_SIZE_BYTES.
  rewrite size_t_negative by lia.
  set (vs := Z.of_nat (length m) - 4 - 4 - 0 - 4 + 2 ^ 32).
  assert (Hvs : vs = Z.of_nat (length m) - 12 + 2 ^ 32) by (unfold vs; lia).
  unfold write_slot, ram_store.
  cbn [backend ram_backend get_size write].
  replace (vs =? 0) with false by (symmetry; apply Z.eqb_neq; lia).
  unfold calculate_slot_size.
  unfold KVSTORE_HEADER_SIZE_BYTES, KVSTORE_KEY_SIZE_BYTES, KVSTORE_VALUE_SIZE_BYTES.
  unfold bind, ret, ram_get_size. cbn beta iota zeta.
  assert (Hss : size_t (4 + 4 + 0 + 4 + vs) = Z.of_nat (length m)).
  { unfold size_t, SIZE_BITS. symmetry.
    apply (Z.mod_unique _ (2 ^ 32) 1); lia. }
  rewrite Hss.
  rewrite (size_t_small (0 + Z.of_nat (length m))) by lia.
  rewrite gtb_false by lia.
  rewrite (ram_write_ok m KVSTORE_HEADER_MAGIC 0 4) by (cbn [length KVSTORE_HEADER_MAGIC]; lia).
  cbn beta iota zeta. cbn [negb result_eqb].
  rewrite (size_t_small (0 + 4)) by lia.
  rewrite (uint_of_width_small 0) by lia.
  rewrite (ram_write_ok _ (bytes_of_uint 4 0) (0 + 4) 4)
    by (rewrite ?store_bytes_length; rewrite ?bytes_of_uint_length;
        cbn [length KVSTORE_HEADER_MAGIC]; lia).
  cbn beta iota zeta. cbn [negb result_eqb].
  rewrite (size_t_small (0 + 4 + 4)) by lia.
  rewrite (size_t_small (0 + 4 + 4 + 0)) by lia.
  rewrite store_bytes_then
    by (rewrite ?bytes_of_uint_length; cbn [length KVSTORE_HEADER_MAGIC]; lia).
  rewrite ram_write_fail; [reflexivity|].
  rewrite store_bytes_length; [lia|lia|].
  rewrite length_app, bytes_of_uint_length. cbn [length KVSTORE_HEADER_MAGIC]. lia.
Qed.

(** X6: on a RAM buffer of 1 to 11 bytes, too small for any slot,
    [kvstore_prepare] still returns [KVSTORE_OK]; the buffer keeps its size
    and holds no store: it does not satisfy the packing invariant and
    [read_slot] fails at offset 0. *)
Theorem prepare_too_small_backend :
  forall m : ram,
    0 < Z.of_nat (length m) < 12 ->
    exists m',
      kvstore_prepare ram_store m = (KVSTORE_OK, m')
      /\ length m' = length m
      /\ packed m' = false
      /\ fst (fst (read_slot ram_store 0 None (Some 0) None (Some 0) m')) = KVSTORE_FAILED.
Proof.
  intros m Hsz.
  assert (Hprep : exists m', kvstore_prepare ram_store m = (KVSTORE_OK, m')
                             /\ length m' = length m
                             /\ (8 <= Z.of_nat (length m) ->
                                 bytes_at m' 0 4 = KVSTORE_HEADER_MAGIC
                                 /\ bytes_at m' 4 4 = bytes_of_uint 4 0)).
  { destruct (Z_lt_le_dec (Z.of_nat (length m)) 8) as [Hs|Hs].
    - unfold kvstore_prepare.
      cbn [ram_store backend ram_backend get_size ram_get_size].
      unfold bind, ret, ram_get_size. cbn beta iota zeta.
      match goal with |- context [write_slot ?s ?p ?k ?ks ?v ?vs ?c] =>
        pose proof (write_slot_ram_length p k ks v vs c) as H;
        change s with ram_store;
        destruct (write_slot ram_store p k ks v vs c) as [r m'] end.
      exists m'. split; [reflexivity|]. split; [exact H | lia].
    - assert (L : Z.of_nat (length (KVSTORE_HEADER_MAGIC ++ bytes_of_uint 4 0)) = 8)
        by reflexivity.
      exists (store_bytes m 0 (KVSTORE_HEADER_MAGIC ++ bytes_of_uint 4 0)).
      split; [apply prepare_ram_short; lia|].
      split; [apply store_bytes_length; lia|].
      intros _. split.
      + pose proof (bytes_at_store_in m 0 (KVSTORE_HEADER_MAGIC ++ bytes_of_uint 4 0) 0 4
                      ltac:(lia) ltac:(lia) ltac:(lia) ltac:(lia) ltac:(lia)) as H.
        change (0 + 0) with 0 in H. rewrite H. reflexivity.
      + pose proof (bytes_at_store_in m 0 (KVSTORE_HEADER_MAGIC ++ bytes_of_uint 4 0) 4 4
                      ltac:(lia) ltac:(lia) ltac:(lia) ltac:(lia) ltac:(lia)) as H.
        change (0 + 4) with 4 in H. rewrite H. reflexivity. }
  destruct Hprep as (m' & Hp & Hlen & Hfields).
  exists m'. split; [exact Hp|]. split; [exact Hlen|].
  assert (Hnone : slot_at m' 0 = None) by (apply slot_at_short; lia).
  split.
  - unfold packed, slots. cbn [slots_from].
    replace (0 =? Z.of_nat (length m')) with false by (symmetry; apply Z.eqb_neq; lia).
    rewrite Hnone. reflexivity.
  - destruct (Z_lt_le_dec (Z.of_nat (length m')) 8) as [Hs|Hs].
    + rewrite read_slot_ram_no_header; [reflexivity|lia|lia|left; lia].
    + destruct (Hfields ltac:(lia)) as [Hmagic Hkey].
      unfold read_slot.
      cbn [ram_store backend ram_backend get_size read bind ret ram_get_size].
      unfold KVSTORE_HEADER_SIZE_BYTES, KVSTORE_KEY_SIZE_BYTES, KVSTORE_VALUE_SIZE_BYTES.
      unfold bind, ret.
      ram_simpl. rewrite Hmagic. ram_simpl.
      change (0 + 4) with 4. rewrite Hkey.
      change (le_combine (bytes_of_uint 4 0)) with 0.
      ram_simpl. reflexivity.
Qed.

(** X7: [kvstore_prepare] is destructive.  On a RAM buffer of more than 12
    bytes, whatever was stored in it, a [kvstore_search] for any key after
    [kvstore_prepare] returns [KVSTORE_FAILED] with the cursor at the end of
    the buffer. *)
Theorem prepare_erases_every_key :
  forall (m : ram) (K : list byte) (cur0 : KvStoreCursor) (fuel : nat),
    12 < Z.of_nat (length m) < 2 ^ 32 ->
    1 <= Z.of_nat (length K) <= KVSTORE_MAX_KEY_SIZE ->
    (length m < fuel)%nat ->
    exists m' cur,
      kvstore_prepare ram_store m = (KVSTORE_OK, m')
      /\ kvstore_search fuel ram_store (Some cur0) (Some K) (Z.of_nat (length K)) m'
         = Some (KVSTORE_FAILED, Some cur, m')
      /\ cursor_position cur = Z.of_nat (length m).
Proof.
  intros m K cur0 fuel Hsz HK Hf.
  assert (L : Z.of_nat (length (encode_free (Z.of_nat (length m) - 12))) = 12).
  { unfold encode_free. rewrite !length_app, !bytes_of_uint_length. reflexivity. }
  assert (HKne : K <> []) by (destruct K; [cbn [length] in HK; lia | congruence]).
  set (m' := store_bytes m 0 (encode_free (Z.of_nat (length m) - 12))).
  assert (Hlen : length m' = length m) by (apply store_bytes_length; lia).
  pose proof (prepare_slots m Hsz) as Hs. rewrite prepare_ram in Hs by exact Hsz.
  cbn [snd] in Hs. fold m' in Hs. apply slots_chain in Hs.
  destruct (search_scan_absent m' K (search_cursor cur0 K) 0 _
              ltac:(rewrite Hlen; lia) (search_cursor_for cur0 K) HKne ltac:(lia) Hs
              eq_refl fuel ltac:(cbn [length]; lia)) as (q & Hq & Hend).
  exists m', (with_position (search_cursor cur0 K) q).
  split; [apply prepare_ram; exact Hsz|]. split.
  - rewrite search_ram_unfold by exact HK. rewrite Hq. reflexivity.
  - cbn [with_position cursor_position]. rewrite (Hend eq_refl), Hlen. reflexivity.
Qed.

(** ** Insertion without a usable slot *)

(** X9: when no free slot of a packed RAM buffer can be split for the pair,
    [kvstore_put] returns [KVSTORE_NOT_FOUND] and leaves the buffer
    unchanged.  A free slot is usable only when it exceeds the slot of the
    pair by at least 12 bytes, so a free slot into which the pair would fit
    exactly is passed over. *)
Theorem put_without_usable_slot :
  forall (m : ram) (l : list slot) (K V : list byte) (fuel : nat),
    Z.of_nat (length m) < 2 ^ 32 ->
    slots m = Some l ->
    1 <= Z.of_nat (length K) <= KVSTORE_MAX_KEY_SIZE ->
    V <> [] ->
    Z.of_nat (length K) + Z.of_nat (length V) + 24 < 2 ^ 32 ->
    existsb (usable (12 + Z.of_nat (length K) + Z.of_nat (length V))) l = false ->
    (length m < fuel)%nat ->
    kvstore_put fuel ram_store (Some K) (Z.of_nat (length K))
      (Some V) (Z.of_nat (length V)) m = Some (KVSTORE_NOT_FOUND, m).
Proof.
  intros m l K V fuel Hsz Hl HK HV Hneed Hall Hf.
  apply slots_chain in Hl.
  pose proof (chain_length_le _ _ _ _ Hl ltac:(lia) ltac:(lia)) as Hlen.
  apply (put_ram_full m K V Hsz HK HV l fuel Hneed Hl); [|lia].
  apply existsb_none. exact Hall.
Qed.

(** ** The pairs of a store *)

Lemma contents_app m a b : contents m (a ++ b) = contents m a ++ contents m b.
Proof. unfold contents. rewrite filter_app, map_app. reflexivity. Qed.

Lemma contents_split_result m p fvs k v q l r :
  Z.of_nat (length m) < 2 ^ 32 -> 0 <= p ->
  12 + Z.of_nat (length k) + Z.of_nat (length v) + 12 <= 12 + fvs ->
  p + 12 + fvs <= Z.of_nat (length m) ->
  chain m q l r -> r <= p \/ p + 12 + fvs <= q ->
  contents (split_result m p k v fvs) l = contents m l.
Proof.
  intros Hsz Hp Hfit Hend Hc Hb. unfold contents.
  apply map_ext_in. intros s Hin. apply filter_In in Hin. destruct Hin as [Hin _].
  destruct (chain_In _ _ _ _ _ Hc Hin) as (Hs & Hlo & Hhi).
  pose proof (slot_at_inv _ _ _ _ Hs) as (Hq0 & _ & _ & Hks0 & _ & Hvs0 & _).
  unfold slot_span in Hhi. unfold slot_key, slot_value.
  rewrite !(split_result_outside m p fvs k v Hp Hfit Hend) by lia.
  reflexivity.
Qed.

Lemma lookup_contents_some m K V : forall l,
  lookup K (contents m l) = Some V ->
  exists a s b, l = a ++ s :: b /\ key_absent m K a = true
                /\ holds_key m K s = true /\ 0 < slot_key_size s
                /\ slot_value m s = V.
Proof.
  induction l as [|s l IH]; intros H; [discriminate|].
  unfold lookup, contents in H. cbn [filter] in H.
  destruct (slot_occupied s) eqn:Eo.
  - cbn [map find fst] in H.
    destruct (bytes_eq_dec (slot_key m s) K) as [E|N].
    + cbn [snd] in H. inversion H; subst V.
      exists [], s, l. repeat split.
      * unfold holds_key. destruct (bytes_eq_dec (slot_key m s) K); [reflexivity|contradiction].
      * apply Z.ltb_lt. exact Eo.
    + destruct (IH H) as (a & s' & b & -> & Ha & Hh & Ho & Hv).
      exists (s :: a), s', b. repeat split; try assumption.
      cbn [key_absent forallb]. fold (key_absent m K a). rewrite Ha.
      unfold holds_key. destruct (bytes_eq_dec (slot_key m s) K); [contradiction|].
      rewrite andb_false_r. reflexivity.
  - destruct (IH H) as (a & s' & b & -> & Ha & Hh & Ho & Hv).
    exists (s :: a), s', b. repeat split; try assumption.
    cbn [key_absent forallb]. fold (key_absent m K a). rewrite Ha.
    unfold slot_occupied in Eo. rewrite Eo. reflexivity.
Qed.

(** X10: the store read as a list of pairs.  On a packed RAM buffer whose
    stored keys fit the key buffer, [kvstore_search] followed by
    [kvstore_get] computes the first-match lookup in the list of the pairs
    of the occupied slots, taken in scan order: when that list holds the key,
    the search succeeds and the value returned is the one of the first pair
    with the key. *)
Theorem search_get_is_first_match_lookup :
  forall (m : ram) (l : list slot) (K V : list byte) (cur0 : KvStoreCursor)
         (buf : list byte) (cap : Z) (fuel : nat),
    Z.of_nat (length m) < 2 ^ 32 ->
    slots m = Some l ->
    keys_fit l = true ->
    1 <= Z.of_nat (length K) <= KVSTORE_MAX_KEY_SIZE ->
    lookup K (contents m l) = Some V ->
    (length m < fuel)%nat ->
    0 < cap -> Z.of_nat (length V) <= cap ->
    exists cur,
      kvstore_search fuel ram_store (Some cur0) (Some K) (Z.of_nat (length K)) m
      = Some (KVSTORE_OK, Some cur, m)
      /\ kvstore_get ram_store (Some cur) (Some buf) (Some cap) m
         = (KVSTORE_OK, Some (fill buf V), Some (Z.of_nat (length V)), m).
Proof.
  intros m l K V cur0 buf cap fuel Hsz Hl Hfit HK Hlook Hf Hcap HVcap.
  apply slots_chain in Hl.
  pose proof (chain_length_le _ _ _ _ Hl ltac:(lia) ltac:(lia)) as Hlen.
  destruct (lookup_contents_some m K V l Hlook) as (a & s & b & -> & Ha & Hh & Ho & Hv).
  rewrite length_app in Hlen.
  destruct (chain_In _ _ _ _ s Hl ltac:(apply in_or_app; right; left; reflexivity))
    as (Hs & Hlo & Hhi).
  pose proof (slot_at_inv _ _ _ _ Hs) as (Hp & _ & _ & Hks0 & _ & Hvs0 & Hend).
  unfold keys_fit in Hfit. rewrite forallb_app in Hfit.
  apply andb_true_iff in Hfit. destruct Hfit as [Hfita _].
  assert (HVlen : Z.of_nat (length V) = slot_value_size s).
  { rewrite <- Hv. unfold slot_value. rewrite bytes_at_length by lia. lia. }
  exists (with_position (search_cursor cur0 K) (slot_pos s)).
  split.
  - apply (search_ram_first m K cur0 a s b _ fuel Hsz HK Hl Hfita Ha Hh Ho). lia.
  - rewrite (get_ram m _ (slot_key_size s) (slot_value_size s));
      cbn [with_position cursor_position]; try assumption; try lia.
    rewrite HVlen, <- Hv. reflexivity.
Qed.

(** X8: free space is reused and nothing else is touched.  On a packed RAM
    buffer, when the first usable free slot leaves room for the new slot and
    for a free slot with padding, [kvstore_put] returns [KVSTORE_OK], the
    buffer keeps its size and stays packed, and the list of stored pairs is
    the former list with the new pair inserted at the place of the free
    slot. *)
Theorem put_inserts_pair :
  forall (m : ram) (l1 l2 : list slot) (p fvs : Z) (K V : list byte) (fuel : nat),
    Z.of_nat (length m) < 2 ^ 32 ->
    1 <= Z.of_nat (length K) <= KVSTORE_MAX_KEY_SIZE -> V <> [] ->
    slots m = Some (l1 ++ (p, 0, fvs) :: l2) ->
    existsb (usable (12 + Z.of_nat (length K) + Z.of_nat (length V))) l1 = false ->
    12 + Z.of_nat (length K) + Z.of_nat (length V) + 12 < 12 + fvs ->
    (length m < fuel)%nat ->
    exists m' l',
      kvstore_put fuel ram_store (Some K) (Z.of_nat (length K))
        (Some V) (Z.of_nat (length V)) m = Some (KVSTORE_OK, m')
      /\ length m' = length m
      /\ slots m' = Some l'
      /\ contents m' l' = contents m l1 ++ (K, V) :: contents m l2.
Proof.
  intros m l1 l2 p fvs K V fuel Hsz HK HV Hl Hl1 Hroom Hf.
  apply existsb_none in Hl1.
  destruct (put_split_slots m l1 p fvs l2 K V fuel Hsz HK HV Hl Hl1 Hroom Hf)
    as (m' & Hput & Hlen' & Hslots').
  apply slots_chain in Hl.
  pose proof (chain_length_le _ _ _ _ Hl ltac:(lia) ltac:(lia)) as Hlen.
  rewrite length_app in Hlen.
  assert (Hu : usable (12 + Z.of_nat (length K) + Z.of_nat (length V)) (p, 0, fvs) = true).
  { unfold usable, slot_span, slot_key_size, slot_value_size. cbn [fst snd].
    rewrite Z.eqb_refl. cbn [andb]. apply Z.leb_le. lia. }
  assert (Hf1 : (length l1 < fuel)%nat) by lia.
  pose proof (put_ram_split m K V Hsz HK HV l1 (p, 0, fvs) l2 _ fuel Hl Hl1 Hu Hf1) as Hput2.
  cbn [slot_pos slot_value_size fst snd] in Hput2.
  rewrite Hput in Hput2. inversion Hput2 as [Hm']. clear Hput2.
  apply chain_split in Hl. destruct Hl as (p' & Hc1 & Hc2).
  inversion Hc2 as [|p0 ks0 vs0 l0 q0 Hslot Hc3]; subst p0 ks0 vs0 l0 q0 p'.
  pose proof (slot_at_inv _ _ _ _ Hslot) as (Hp & _ & _ & _ & _ & Hvs0 & Hend).
  replace (p + 12 + 0 + fvs) with (p + 12 + fvs) in * by lia.
  eexists m', _. split; [exact Hput|]. split; [exact Hlen'|]. split; [exact Hslots'|].
  rewrite contents_app.
  change (?x :: ?y :: l2) with ([x] ++ [y] ++ l2). rewrite !contents_app.
  rewrite Hm'.
  rewrite (contents_split_result m p fvs K V 0 l1 p) by (assumption || lia).
  rewrite (contents_split_result m p fvs K V (p + 12 + fvs) l2 (Z.of_nat (length m)))
    by (assumption || lia).
  assert (C1 : contents (split_result m p K V fvs)
                 [(p, Z.of_nat (length K), Z.of_nat (length V))] = [(K, V)]).
  { unfold contents, slot_occupied, slot_key_size. cbn [filter fst snd].
    replace (0 <? Z.of_nat (length K)) with true by (symmetry; apply Z.ltb_lt; lia).
    cbn [map]. unfold slot_key, slot_value, slot_pos, slot_key_size, slot_value_size.
    cbn [fst snd]. rewrite split_result_key, split_result_value by lia. reflexivity. }
  assert (C2 : forall q rest, contents (split_result m p K V fvs) [(q, 0, rest)] = []).
  { intros q rest. reflexivity. }
  rewrite C1, C2. reflexivity.
Qed.

(** X11: an insertion does not disturb what was stored before.  On a RAM
    buffer of occupied slots, with keys of at most [KVSTORE_MAX_KEY_SIZE]
    bytes, followed by one free slot with room for the new slot and a minimal
    free slot, after [kvstore_put] of any pair every key that was stored
    before is still found by [kvstore_search], on the same slot and with the
    same value as before. *)
Theorem put_keeps_earlier_lookups :
  forall (m : ram) (occ : list slot) (f : slot) (K V K1 V1 : list byte)
         (cur0 : KvStoreCursor) (buf : list byte) (cap : Z) (fuel : nat),
    Z.of_nat (length m) < 2 ^ 32 ->
    slots m = Some (occ ++ [f]) ->
    occupied_fit occ = true ->
    1 <= Z.of_nat (length K) <= KVSTORE_MAX_KEY_SIZE -> V <> [] ->
    usable (12 + Z.of_nat (length K) + Z.of_nat (length V)) f = true ->
    1 <= Z.of_nat (length K1) <= KVSTORE_MAX_KEY_SIZE ->
    lookup K1 (contents m occ) = Some V1 ->
    (length m < fuel)%nat ->
    0 < cap -> Z.of_nat (length V1) <= cap ->
    exists m' cur,
      kvstore_put fuel ram_store (Some K) (Z.of_nat (length K))
        (Some V) (Z.of_nat (length V)) m = Some (KVSTORE_OK, m')
      /\ kvstore_search fuel ram_store (Some cur0) (Some K1) (Z.of_nat (length K1)) m'
         = Some (KVSTORE_OK, Some cur, m')
      /\ kvstore_search fuel ram_store (Some cur0) (Some K1) (Z.of_nat (length K1)) m
         = Some (KVSTORE_OK, Some cur, m)
      /\ kvstore_get ram_store (Some cur) (Some buf) (Some cap) m'
         = (KVSTORE_OK, Some (fill buf V1), Some (Z.of_nat (length V1)), m').
Proof.
  intros m occ f K V K1 V1 cur0 buf cap fuel Hsz Hl Hocc HK HV Hroom HK1 Hlook Hf Hcap HVcap.
  apply slots_chain in Hl.
  pose proof (chain_length_le _ _ _ _ Hl ltac:(lia) ltac:(lia)) as Hlen.
  rewrite length_app in Hlen. cbn [length] in Hlen.
  destruct f as [[p fks] fvs].
  assert (Hf1 : (length occ < fuel)%nat) by lia.
  pose proof (put_ram_split m K V Hsz HK HV occ (p, fks, fvs) [] _ fuel Hl
                (occupied_not_usable _ _ Hocc) Hroom Hf1) as Hput.
  destruct (usable_inv _ _ _ _ Hroom) as [-> Hneed].
  apply chain_split in Hl. destruct Hl as (p' & Hc1 & Hc2).
  inversion Hc2 as [|p0 ks0 vs0 l0 q0 Hslot Hc3]; subst.
  pose proof (slot_at_inv _ _ _ _ Hslot) as (Hp & _ & _ & _ & _ & Hvs0 & Hend).
  replace (p + 12 + 0 + fvs) with (p + 12 + fvs) in Hend by lia.
  cbn [slot_pos slot_value_size fst snd] in Hput.
  set (m' := split_result m p K V fvs) in *.
  assert (Hlen' : length m' = length m) by (apply split_result_length; lia).
  assert (Hc1' : chain m' 0 occ p)
    by (apply split_result_chain; [lia..|exact Hc1|left; lia]).
  destruct (lookup_contents_some m K1 V1 occ Hlook) as (a & sK & b & -> & Ha & Hh & Ho & Hv).
  assert (Hin : In sK (a ++ sK :: b)) by (apply in_or_app; right; left; reflexivity).
  destruct (chain_In _ _ _ _ sK Hc1 Hin) as (HsK & HsKlo & HsKhi).
  pose proof (slot_at_inv _ _ _ _ HsK) as (HpK & _ & _ & HksK & _ & HvsK & _).
  unfold slot_span in HsKhi.
  destruct (chain_In _ _ _ _ sK Hc1' Hin) as (HsK' & _ & _).
  assert (Hh' : holds_key m' K1 sK = true).
  { unfold m'.
    rewrite (split_result_holds_key m p fvs K V Hp Hneed Hend K1 sK 0 (a ++ sK :: b) p Hc1);
      [exact Hh | left; lia | exact Hin]. }
  assert (Hfita : keys_fit a = true).
  { apply occupied_keys_fit in Hocc. unfold keys_fit in *. rewrite forallb_app in Hocc.
    apply andb_true_iff in Hocc. apply Hocc. }
  assert (Hval : slot_value m' sK = slot_value m sK).
  { unfold slot_value, m'. apply split_result_outside; lia. }
  assert (HVlen : Z.of_nat (length V1) = slot_value_size sK).
  { rewrite <- Hv. unfold slot_value. rewrite bytes_at_length by lia. lia. }
  assert (Ha' : key_absent m' K1 a = true).
  { unfold m'. apply chain_split in Hc1. destruct Hc1 as (pk0 & Hca0 & Hcb0).
    pose proof (chain_le _ _ _ _ Hcb0).
    rewrite (key_absent_split_result m p fvs K V K1 0 a pk0); try lia; assumption. }
  assert (Hfa : (length a < fuel)%nat)
    by (rewrite length_app in Hf1; cbn [length] in Hf1; lia).
  exists m', (with_position (search_cursor cur0 K1) (slot_pos sK)).
  split; [exact Hput|]. split; [|split].
  - apply (search_ram_first m' K1 cur0 a sK b p fuel); try assumption; try lia.
  - apply (search_ram_first m K1 cur0 a sK b p fuel); try assumption; try lia.
  - rewrite (get_ram m' _ (slot_key_size sK) (slot_value_size sK));
      cbn [with_position cursor_position]; try assumption; try lia.
    unfold slot_value in Hval. rewrite Hval. fold (slot_value m sK).
    rewrite Hv, HVlen. reflexivity.
Qed.

(** X12: the first insertion into a freshly formatted store.  On a RAM
    buffer with room for the slot of the pair and a minimal free slot,
    whatever it holds, [kvstore_prepare], [kvstore_put], [kvstore_search] and
    [kvstore_get] in sequence all return [KVSTORE_OK] and the value read
    back is the value put; the new slot is the first of the buffer. *)
Theorem fresh_store_roundtrip :
  forall (m : ram) (K V : list byte) (cur0 : KvStoreCursor)
         (buf : list byte) (cap : Z) (fuel : nat),
    Z.of_nat (length m) < 2 ^ 32 ->
    1 <= Z.of_nat (length K) <= KVSTORE_MAX_KEY_SIZE -> V <> [] ->
    12 + Z.of_nat (length K) + Z.of_nat (length V) + 12 <= Z.of_nat (length m) ->
    (length m < fuel)%nat ->
    Z.of_nat (length V) <= cap ->
    exists m1 m2 cur,
      kvstore_prepare ram_store m = (KVSTORE_OK, m1)
      /\ kvstore_put fuel ram_store (Some K) (Z.of_nat (length K))
           (Some V) (Z.of_nat (length V)) m1 = Some (KVSTORE_OK, m2)
      /\ kvstore_search fuel ram_store (Some cur0) (Some K) (Z.of_nat (length K)) m2
         = Some (KVSTORE_OK, Some cur, m2)
      /\ cursor_position cur = 0
      /\ kvstore_get ram_store (Some cur) (Some buf) (Some cap) m2
         = (KVSTORE_OK, Some (fill buf V), Some (Z.of_nat (length V)), m2).
Proof.
  intros m K V cur0 buf cap fuel Hsz HK HV Hroom Hf Hcap.
  assert (HVpos : 0 < Z.of_nat (length V))
    by (destruct V; [congruence | cbn [length]; lia]).
  assert (Hsz12 : 12 < Z.of_nat (length m) < 2 ^ 32) by lia.
  assert (L : Z.of_nat (length (encode_free (Z.of_nat (length m) - 12))) = 12).
  { unfold encode_free. rewrite !length_app, !bytes_of_uint_length. reflexivity. }
  set (m1 := store_bytes m 0 (encode_free (Z.of_nat (length m) - 12))).
  assert (Hlen1 : length m1 = length m) by (apply store_bytes_length; lia).
  pose proof (prepare_slots m Hsz12) as Hs. rewrite prepare_ram in Hs by exact Hsz12.
  cbn [snd] in Hs. fold m1 in Hs. apply slots_chain in Hs.
  set (fvs := Z.of_nat (length m) - 12) in *.
  assert (Hu : usable (12 + Z.of_nat (length K) + Z.of_nat (length V)) (0, 0, fvs) = true).
  { unfold usable, slot_span, slot_key_size, slot_value_size. cbn [fst snd].
    rewrite Z.eqb_refl. cbn [andb]. apply Z.leb_le. unfold fvs. lia. }
  pose proof (put_ram_split m1 K V ltac:(rewrite Hlen1; lia) HK HV [] (0, 0, fvs) [] _ fuel
                Hs eq_refl Hu ltac:(cbn [length]; lia)) as Hput.
  cbn [slot_pos slot_value_size fst snd] in Hput.
  set (m2 := split_result m1 0 K V fvs) in *.
  assert (Hfit : 12 + Z.of_nat (length K) + Z.of_nat (length V) + 12 <= 12 + fvs)
    by (unfold fvs; lia).
  assert (Hend : 0 + 12 + fvs <= Z.of_nat (length m1)) by (rewrite Hlen1; unfold fvs; lia).
  assert (Hsz1 : Z.of_nat (length m1) < 2 ^ 32) by (rewrite Hlen1; lia).
  assert (Hlen2 : length m2 = length m1) by (apply split_result_length; lia).
  assert (Hslot2 : slot_at m2 0 = Some (Z.of_nat (length K), Z.of_nat (length V)))
    by (apply split_result_slot; lia).
  assert (Hkey2 : holds_key m2 K (0, Z.of_nat (length K), Z.of_nat (length V)) = true).
  { unfold holds_key, slot_key, slot_pos, slot_key_size. cbn [fst snd].
    unfold m2. rewrite split_result_key by lia.
    destruct (bytes_eq_dec K K); [reflexivity | contradiction]. }
  exists m1, m2, (with_position (search_cursor cur0 K) 0).
  split; [apply prepare_ram; exact Hsz12|]. split; [exact Hput|]. split; [|split].
  - apply (search_ram_first m2 K cur0 [] (0, Z.of_nat (length K), Z.of_nat (length V)) []
             (0 + 12 + Z.of_nat (length K) + Z.of_nat (length V)) fuel);
      try reflexivity; try assumption.
    all: try (rewrite Hlen2; exact Hsz1).
    all: try (apply chain_cons; [exact Hslot2 | apply chain_nil]).
    all: try (unfold slot_key_size; cbn [fst snd length]; lia).
    all: cbn [length]; lia.
  - reflexivity.
  - rewrite (get_ram m2 _ (Z.of_nat (length K)) (Z.of_nat (length V)));
      cbn [with_position cursor_position]; try assumption; try lia.
    all: try (rewrite Hlen2; exact Hsz1).
    unfold m2. rewrite split_result_value by lia. reflexivity.
Qed.

(** X13: corruption stops an insertion before it writes.  When the slots
    in front of offset [q] decode and none is usable, and at [q], inside the
    buffer, there is no room for a header and a key length or the header is
    not the magic number, [kvstore_put] returns [KVSTORE_FAILED] and leaves
    the buffer unchanged. *)
Theorem put_on_corrupt_store_fails :
  forall (m : ram) (l : list slot) (q : Z) (K V : list byte) (fuel : nat),
    Z.of_nat (length m) < 2 ^ 32 ->
    1 <= Z.of_nat (length K) <= KVSTORE_MAX_KEY_SIZE -> V <> [] ->
    Z.of_nat (length K) + Z.of_nat (length V) + 24 < 2 ^ 32 ->
    chain m 0 l q -> q < Z.of_nat (length m) ->
    existsb (usable (12 + Z.of_nat (length K) + Z.of_nat (length V))) l = false ->
    Z.of_nat (length m) < q + 8 \/ bytes_at m q 4 <> KVSTORE_HEADER_MAGIC ->
    (length m < fuel)%nat ->
    kvstore_put fuel ram_store (Some K) (Z.of_nat (length K))
      (Some V) (Z.of_nat (length V)) m = Some (KVSTORE_FAILED, m).
Proof.
  intros m l q K V fuel Hsz HK HV Hneed Hc Hq Hl Hbad Hf.
  pose proof (chain_le _ _ _ _ Hc) as Hle.
  pose proof (chain_start_nonneg _ _ _ _ Hc ltac:(lia)) as Hq0.
  unfold kvstore_put. cbn [ram_store backend ram_backend get_size ram_get_size].
  rewrite valid_key_args by assumption.
  replace fuel with (length l + S (fuel - length l - 1))%nat by lia.
  destruct (put_scan_skip m K V 0 l q Hsz HV Hneed Hc (existsb_none _ _ Hl)
              (S (fuel - length l - 1)) 0 0) as (fks & fvs & ->).
  cbn [put_loop].
  replace (q >=? Z.of_nat (length m)) with false
    by (symmetry; rewrite Z.geb_leb; apply Z.leb_gt; lia).
  change (Some {| backend := ram_backend |}) with ram_store.
  rewrite read_slot_ram_no_header by (assumption || lia).
  reflexivity.
Qed.

(** ** Advancing and reading under a cursor *)

Lemma scan_skippable m K : forall a,
  K <> [] -> keys_fit a = true -> key_absent m K a = true ->
  forallb (fun s => (slot_key_size s <=? KVSTORE_MAX_KEY_SIZE) && negb (holds_key m K s)) a
  = true.
Proof.
  intros a HKne Hfit Habs.
  induction a as [|[[p0 ks0] vs0] a IH]; [reflexivity|].
  cbn [keys_fit key_absent forallb] in *.
  apply andb_true_iff in Hfit. destruct Hfit as [F1 F2].
  apply andb_true_iff in Habs. destruct Habs as [A1 A2].
  rewrite F1, (IH F2 A2). cbn [andb]. rewrite andb_true_r.
  apply negb_true_iff in A1. apply negb_true_iff.
  unfold slot_key_size in A1. cbn [fst snd] in A1.
  destruct (Z.eq_dec ks0 0) as [->|Hnz].
  - apply holds_key_free. exact HKne.
  - destruct (0 <? ks0) eqn:E; [exact A1|].
    apply Z.ltb_ge in E.
    unfold holds_key, slot_key, slot_key_size, bytes_at. cbn [fst snd].
    replace (Z.to_nat ks0) with 0%nat by lia. cbn [firstn].
    destruct (bytes_eq_dec [] K); [congruence | reflexivity].
Qed.

Lemma holds_key_size m K p ks vs :
  slot_at m p = Some (ks, vs) -> holds_key m K (p, ks, vs) = true ->
  ks = Z.of_nat (length K).
Proof.
  intros Hs Hh.
  unfold holds_key, slot_key, slot_key_size, slot_pos in Hh. cbn [fst snd] in Hh.
  destruct (bytes_eq_dec (bytes_at m (p + 8) ks) K) as [E|]; [|discriminate].
  pose proof (slot_at_inv _ _ _ _ Hs) as (Hp & _ & _ & Hks0 & _ & Hvs0 & Hend).
  rewrite <- E. rewrite bytes_at_length by lia. lia.
Qed.

(** X14: [kvstore_advance] moves the cursor by exactly one slot.  On a
    packed RAM buffer, from the start of any slot, free or occupied, it
    returns [KVSTORE_OK] and the cursor stands at the start of the slot that
    follows, whatever that slot is, or at the end of the buffer after the
    last slot; from the end of the buffer it returns [KVSTORE_FAILED] and the
    cursor stays where it is.  The key captured by the cursor and the buffer
    are untouched. *)
Theorem advance_moves_one_slot :
  forall (m : ram) (a b : list slot) (s : slot) (cur : KvStoreCursor),
    Z.of_nat (length m) < 2 ^ 32 ->
    slots m = Some (a ++ s :: b) ->
    cursor_position cur = slot_pos s ->
    kvstore_advance ram_store (Some cur) m
      = (KVSTORE_OK, Some (with_position cur (slot_pos s + slot_span s)), m)
    /\ slot_pos s + slot_span s
       = match b with [] => Z.of_nat (length m) | s' :: _ => slot_pos s' end
    /\ kvstore_advance ram_store (Some (with_position cur (Z.of_nat (length m)))) m
       = (KVSTORE_FAILED, Some (with_position cur (Z.of_nat (length m))), m).
Proof.
  intros m a b s cur Hsz Hl Hcur.
  apply slots_chain in Hl. apply chain_split in Hl. destruct Hl as (p & _ & Hc).
  inversion Hc as [|p0 ks vs l q0 Hslot Hc']; subst.
  cbn [slot_pos fst snd] in Hcur.
  unfold slot_span, slot_pos, slot_key_size, slot_value_size. cbn [fst snd].
  split; [|split].
  - rewrite (advance_ram m cur ks vs) by (rewrite ?Hcur; assumption).
    rewrite Hcur. replace (p + (12 + ks + vs)) with (p + 12 + ks + vs) by lia.
    reflexivity.
  - inversion Hc' as [|p1 ks1 vs1 l1 q1 Hslot1 Hc'']; subst; [lia|].
    cbn [slot_pos fst snd]. lia.
  - unfold kvstore_advance. cbn [ram_store]. unfold bind, ret.
    rewrite read_slot_ram_end by (cbn [with_position cursor_position]; lia).
    reflexivity.
Qed.

(** X15: a value buffer that is too small.  With the cursor on a slot of a
    packed RAM buffer whose value is longer than the capacity passed, a
    capacity of at least 1, [kvstore_get] returns [KVSTORE_FAILED]; it copies
    no part of the value and leaves the capacity and the buffer as they
    were. *)
Theorem get_value_buffer_too_small :
  forall (m : ram) (l : list slot) (s : slot) (cur : KvStoreCursor)
         (buf : list byte) (cap : Z),
    Z.of_nat (length m) < 2 ^ 32 ->
    slots m = Some l -> In s l ->
    cursor_position cur = slot_pos s ->
    0 < cap < slot_value_size s ->
    kvstore_get ram_store (Some cur) (Some buf) (Some cap) m
    = (KVSTORE_FAILED, Some buf, Some cap, m).
Proof.
  intros m l s cur buf cap Hsz Hl Hin Hcur Hcap.
  apply slots_chain in Hl.
  destruct (chain_In _ _ _ _ s Hl Hin) as (Hs & _ & _).
  unfold kvstore_get. cbn [ram_store].
  replace (cap =? 0) with false by (symmetry; apply Z.eqb_neq; lia).
  unfold bind, ret.
  rewrite (read_slot_ram m _ (slot_key_size s) (slot_value_size s))
    by (rewrite ?Hcur; assumption).
  rewrite andb_false_r. cbn beta iota zeta.
  rewrite gtb_true by lia. reflexivity.
Qed.

(** X16: [kvstore_get_kv] reads the pair under the cursor.  With the cursor
    on a slot of a packed RAM buffer and buffers at least as large as the
    key and the value, it returns [KVSTORE_OK], the key and the value of the
    slot and their lengths; with [NULL] buffers it returns [KVSTORE_OK] and
    the two lengths, whatever capacities are passed. *)
Theorem get_kv_returns_key_and_value :
  forall (m : ram) (l : list slot) (s : slot) (cur : KvStoreCursor)
         (kbuf vbuf : list byte) (kcap vcap : Z),
    Z.of_nat (length m) < 2 ^ 32 ->
    slots m = Some l -> In s l ->
    cursor_position cur = slot_pos s ->
    slot_key_size s <= kcap -> slot_value_size s <= vcap ->
    kvstore_get_kv ram_store (Some cur) (Some kbuf) (Some kcap) (Some vbuf) (Some vcap) m
    = (KVSTORE_OK,
       {| out_key := Some (fill kbuf (slot_key m s));
          out_key_size := Some (slot_key_size s);
          out_value := Some (fill vbuf (slot_value m s));
          out_value_size := Some (slot_value_size s) |}, m)
    /\ forall kcap' vcap',
         kvstore_get_kv ram_store (Some cur) None (Some kcap') None (Some vcap') m
         = (KVSTORE_OK,
            {| out_key := None; out_key_size := Some (slot_key_size s);
               out_value := None; out_value_size := Some (slot_value_size s) |}, m).
Proof.
  intros m l s cur kbuf vbuf kcap vcap Hsz Hl Hin Hcur Hk Hv.
  apply slots_chain in Hl.
  destruct (chain_In _ _ _ _ s Hl Hin) as (Hs & _ & _).
  rewrite <- Hcur in Hs.
  unfold kvstore_get_kv. cbn [ram_store].
  split; [|intros kcap' vcap'].
  - rewrite (read_slot_ram m _ (slot_key_size s) (slot_value_size s)) by assumption.
    rewrite !gtb_false by assumption. cbn [andb option_map].
    unfold slot_key, slot_value. rewrite Hcur. reflexivity.
  - rewrite (read_slot_ram m _ (slot_key_size s) (slot_value_size s)) by assumption.
    rewrite !andb_false_r. reflexivity.
Qed.

(** X17: walking the duplicates of a key.  On a packed RAM buffer where
    the key is held by a slot [s1] and, further on, by a slot [s2], and by no
    slot before or between them, and where the keys of the slots before and
    between them are at most [KVSTORE_MAX_KEY_SIZE] bytes long,
    [kvstore_search] parks the cursor on [s1];
    [kvstore_search_next] called on that cursor returns the same slot again;
    after [kvstore_advance], [kvstore_search_next] parks the cursor on [s2].
    The buffer is unchanged by all four calls. *)
Theorem search_advance_search_next :
  forall (m : ram) (K : list byte) (cur0 : KvStoreCursor)
         (a b c : list slot) (s1 s2 : slot) (fuel : nat),
    Z.of_nat (length m) < 2 ^ 32 ->
    1 <= Z.of_nat (length K) <= KVSTORE_MAX_KEY_SIZE ->
    slots m = Some (a ++ s1 :: b ++ s2 :: c) ->
    keys_fit a = true -> key_absent m K a = true ->
    keys_fit b = true -> key_absent m K b = true ->
    0 < slot_key_size s1 -> holds_key m K s1 = true ->
    0 < slot_key_size s2 -> holds_key m K s2 = true ->
    (length m < fuel)%nat ->
    let on p := with_position (search_cursor cur0 K) p in
    kvstore_search fuel ram_store (Some cur0) (Some K) (Z.of_nat (length K)) m
      = Some (KVSTORE_OK, Some (on (slot_pos s1)), m)
    /\ kvstore_search_next fuel ram_store (Some (on (slot_pos s1))) m
      = Some (KVSTORE_OK, Some (on (slot_pos s1)), m)
    /\ kvstore_advance ram_store (Some (on (slot_pos s1))) m
      = (KVSTORE_OK, Some (on (slot_pos s1 + slot_span s1)), m)
    /\ kvstore_search_next fuel ram_store (Some (on (slot_pos s1 + slot_span s1))) m
      = Some (KVSTORE_OK, Some (on (slot_pos s2)), m).
Proof.
  intros m K cur0 a b c s1 s2 fuel Hsz HK Hl Hfa Haa Hfb Hab Ho1 Hh1 Ho2 Hh2 Hf on.
  assert (HKne : K <> []) by (destruct K; [cbn [length] in HK; lia | congruence]).
  apply slots_chain in Hl.
  pose proof (chain_length_le _ _ _ _ Hl ltac:(lia) ltac:(lia)) as Hlen.
  rewrite length_app in Hlen. cbn [length] in Hlen.
  rewrite length_app in Hlen. cbn [length] in Hlen.
  pose proof Hl as Hl0.
  apply chain_split in Hl. destruct Hl as (p1 & Hc1 & Hc).
  inversion Hc as [|p0 ks1 vs1 l0 q0 Hslot1 Hc']; subst.
  apply chain_split in Hc'. destruct Hc' as (p2 & Hcb & Hc2).
  inversion Hc2 as [|p0 ks2 vs2 l0 q0 Hslot2 Hc'']; subst.
  unfold slot_span, slot_pos, slot_key_size, slot_value_size in *. cbn [fst snd] in *.
  pose proof (holds_key_size _ _ _ _ _ Hslot1 Hh1) as Hk1.
  pose proof (holds_key_size _ _ _ _ _ Hslot2 Hh2) as Hk2.
  pose proof (search_cursor_for cur0 K) as Hcf.
  assert (Hhit1 : forall n, search_next_loop (S n) ram_store (on p1) m
                            = Some (KVSTORE_OK, on p1, m)).
  { intros n. apply (search_step_hit m K (on p1) ks1 vs1); try assumption; lia. }
  split; [|split; [|split]].
  - apply (search_ram_first m K cur0 a (p1, ks1, vs1) (b ++ (p2, ks2, vs2) :: c)
             (Z.of_nat (length m)) fuel); try assumption; lia.
  - unfold kvstore_search_next. cbn [ram_store].
    destruct fuel as [|n]; [lia|]. rewrite Hhit1. reflexivity.
  - rewrite (advance_ram m (on p1) ks1 vs1) by assumption.
    cbn [on with_position cursor_position cursor_key cursor_key_size].
    replace (p1 + (12 + ks1 + vs1)) with (p1 + 12 + ks1 + vs1) by lia.
    reflexivity.
  - unfold kvstore_search_next. cbn [ram_store].
    replace fuel with (length b + S (fuel - length b - 1))%nat by lia.
    replace (p1 + (12 + ks1 + vs1)) with (p1 + 12 + ks1 + vs1) by lia.
    unfold on.
    rewrite (search_scan_skip m K (search_cursor cur0 K) _ b p2 Hsz Hcf Hcb
               (scan_skippable m K b HKne Hfb Hab)).
    rewrite (search_step_hit m K (with_position (search_cursor cur0 K) p2) ks2 vs2);
      try assumption; try reflexivity; lia.
Qed.

(** ** What a search result means on any buffer *)

Lemma ram_read_cases m p n :
  ram_read m p n = (KVSTORE_OK, bytes_at m p n, m)
  \/ ram_read m p n = (KVSTORE_FAILED, [], m).
Proof.
  unfold ram_read, bytes_at.
  destruct ((0 <=? p) && (0 <=? n) && (p + n <=? Z.of_nat (length m))); auto.
Qed.

(** A successful [read_slot] with a key buffer has checked the header and read
    the key, whatever else the buffer holds. *)
Lemma read_slot_ram_key_ok m p kbuf kcap vcap o m' :
  Z.of_nat (length m) < 2 ^ 32 -> 0 <= p < 2 ^ 32 ->
  read_slot ram_store p (Some kbuf) (Some kcap) None (Some vcap) m = (KVSTORE_OK, o, m') ->
  m' = m /\ bytes_at m p 4 = KVSTORE_HEADER_MAGIC
  /\ le_combine (bytes_at m (p + 4) 4) <= kcap
  /\ p + 8 + le_combine (bytes_at m (p + 4) 4) <= Z.of_nat (length m)
  /\ out_key o = Some (fill kbuf (bytes_at m (p + 8) (le_combine (bytes_at m (p + 4) 4))))
  /\ out_key_size o = Some (le_combine (bytes_at m (p + 4) 4)).
Proof.
  intros Hsz Hp.
  destruct (Z_lt_le_dec (Z.of_nat (length m)) (p + 8)) as [Hshort|Hhdr].
  { rewrite read_slot_ram_no_header by (try assumption; left; lia). discriminate. }
  destruct (bytes_eq_dec (bytes_at m p 4) KVSTORE_HEADER_MAGIC) as [Hmagic|N].
  2:{ rewrite read_slot_ram_no_header by (try assumption; right; exact N). discriminate. }
  pose proof (le_combine_bound (bytes_at m (p + 4) 4)) as Hb.
  rewrite bytes_at_length in Hb by lia. change (8 * Z.of_nat (Z.to_nat 4)) with 32 in Hb.
  set (ks := le_combine (bytes_at m (p + 4) 4)) in *.
  unfold read_slot.
  cbn [ram_store backend ram_backend get_size read bind ret ram_get_size].
  unfold KVSTORE_HEADER_SIZE_BYTES, KVSTORE_KEY_SIZE_BYTES, KVSTORE_VALUE_SIZE_BYTES.
  unfold bind, ret.
  cbn beta iota zeta.
  rewrite (size_t_small (p + 4)) by lia.
  rewrite (gtb_false (p + 4)) by lia.
  rewrite (ram_read_ok m p 4) by lia. cbn beta iota zeta. cbn [negb result_eqb].
  rewrite fill_header_buffer by (rewrite bytes_at_length; lia).
  rewrite Hmagic, memcmp_refl. cbn [Z.eqb negb].
  rewrite (size_t_small (p + 4 + 4)) by lia.
  rewrite (gtb_false (p + 4 + 4)) by lia.
  rewrite (ram_read_ok m (p + 4) 4) by lia. cbn beta iota zeta. cbn [negb result_eqb].
  rewrite uint_of_bytes_4 by (rewrite bytes_at_length; lia). fold ks.
  replace (p + 4 + 4) with (p + 8) by lia.
  destruct (ks >? kcap) eqn:Ek; cbn [andb]; [discriminate|].
  assert (Hkcap : ks <= kcap) by (rewrite Z.gtb_ltb in Ek; apply Z.ltb_ge in Ek; exact Ek).
  destruct (size_t (p + 8 + ks) >? Z.of_nat (length m)) eqn:E1; [discriminate|].
  destruct (Z_lt_le_dec (Z.of_nat (length m)) (p + 8 + ks)) as [Hover|Hin].
  { rewrite (ram_read_fail m (p + 8) ks Hover). cbn beta iota zeta.
    cbn [negb result_eqb]. discriminate. }
  rewrite (ram_read_ok m (p + 8) ks) by lia. cbn beta iota zeta. cbn [negb result_eqb].
  destruct (size_t (size_t (p + 8 + ks) + 4) >? Z.of_nat (length m)); [discriminate|].
  destruct (ram_read_cases m (size_t (p + 8 + ks)) 4) as [->| ->]; cbn beta iota zeta;
    cbn [negb result_eqb]; [|discriminate].
  rewrite andb_false_r.
  match goal with |- context [if ?c then _ else _] => destruct c end; [discriminate|].
  intros H. inversion H; subst. cbn [out_key out_key_size].
  repeat split; try assumption; reflexivity.
Qed.

Lemma advance_ram_state cur m : snd (kvstore_advance ram_store (Some cur) m) = m.
Proof.
  symmetry. apply (advance_respects ram ram_store eq).
  - reflexivity.
  - intros c1 c2 c3 -> ->. reflexivity.
  - intros s f Hs Hf c pos size. inversion Hs; subst. cbn in Hf. inversion Hf; subst.
    unfold ram_read. destruct (_ && _); reflexivity.
  - intros s g Hs Hg c. inversion Hs; subst. cbn in Hg. inversion Hg; subst. reflexivity.
Qed.

Lemma advance_ram_cursor cur m :
  exists r cur',
    kvstore_advance ram_store (Some cur) m = (r, Some cur', m)
    /\ cursor_key cur' = cursor_key cur
    /\ cursor_key_size cur' = cursor_key_size cur
    /\ (0 <= cursor_position cur < 2 ^ 32 -> 0 <= cursor_position cur' < 2 ^ 32).
Proof.
  pose proof (advance_ram_state cur m) as Hst.
  unfold kvstore_advance, ram_store in *. cbn beta iota in *. unfold bind, ret in *.
  destruct (read_slot (Some {| backend := ram_backend |}) (cursor_position cur)
              None (Some 0) None (Some 0) m) as [[r o] c].
  destruct (negb (result_eqb r KVSTORE_OK)); cbn [snd] in Hst; subst c.
  - exists KVSTORE_FAILED, cur. repeat split; tauto.
  - eexists _, _. split; [reflexivity|]. cbn [cursor_key cursor_key_size cursor_position].
    repeat split; intros; unfold size_t; apply Z.mod_pos_bound; reflexivity.
Qed.

(** X18: a successful search is a real match, on any buffer.  Whatever a RAM
    buffer holds, packed or not, when [kvstore_search] returns [KVSTORE_OK]
    the buffer is unchanged, the cursor still carries the key, and at its
    position the buffer holds the magic header, the length of the key and
    the bytes of the key. *)
Theorem search_hit_is_sound :
  forall (m m' : ram) (K : list byte) (cur0 cur : KvStoreCursor) (fuel : nat),
    Z.of_nat (length m) < 2 ^ 32 ->
    1 <= Z.of_nat (length K) <= KVSTORE_MAX_KEY_SIZE ->
    kvstore_search fuel ram_store (Some cur0) (Some K) (Z.of_nat (length K)) m
      = Some (KVSTORE_OK, Some cur, m') ->
    m' = m
    /\ cursor_for K cur
    /\ 0 <= cursor_position cur
    /\ cursor_position cur + 8 + Z.of_nat (length K) <= Z.of_nat (length m)
    /\ bytes_at m (cursor_position cur) 4 = KVSTORE_HEADER_MAGIC
    /\ le_combine (bytes_at m (cursor_position cur + 4) 4) = Z.of_nat (length K)
    /\ bytes_at m (cursor_position cur + 8) (Z.of_nat (length K)) = K.
Proof.
  intros m m' K cur0 cur fuel Hsz HK H.
  rewrite search_ram_unfold in H by exact HK.
  assert (L : forall n c c' m1,
             cursor_for K c -> 0 <= cursor_position c < 2 ^ 32 ->
             search_next_loop n ram_store c m = Some (KVSTORE_OK, c', m1) ->
             m1 = m /\ cursor_for K c' /\ 0 <= cursor_position c'
             /\ cursor_position c' + 8 + Z.of_nat (length K) <= Z.of_nat (length m)
             /\ bytes_at m (cursor_position c') 4 = KVSTORE_HEADER_MAGIC
             /\ le_combine (bytes_at m (cursor_position c' + 4) 4) = Z.of_nat (length K)
             /\ bytes_at m (cursor_position c' + 8) (Z.of_nat (length K)) = K).
  { clear H cur cur0 m' fuel.
    induction n as [|n IH]; intros c c' m1 Hc Hp H; [discriminate|].
    cbn [search_next_loop] in H.
    destruct (read_slot ram_store (cursor_position c) (Some search_key_buffer)
                (Some KVSTORE_MAX_KEY_SIZE) None (Some 0) m) as [[r o] c0] eqn:Er.
    destruct r; cbn [negb result_eqb] in H; try discriminate.
    apply read_slot_ram_key_ok in Er; [|assumption..].
    destruct Er as (-> & Hmagic & Hcap & Hend & Hok & Hoks).
    rewrite Hok, Hoks in H. cbn [deref] in H.
    pose proof (le_combine_bound (bytes_at m (cursor_position c + 4) 4)) as Hb.
    set (ks := le_combine (bytes_at m (cursor_position c + 4) 4)) in *.
    destruct (advance_ram_cursor c m) as (r1 & c1 & Ea & Hk1 & Hks1 & Hp1).
    assert (Hc1 : cursor_for K c1).
    { destruct Hc as [A B]. split; [rewrite Hks1; exact A | rewrite Hk1; exact B]. }
    rewrite Ea in H.
    destruct (ks =? cursor_key_size c) eqn:E1; cbn [negb] in H;
      [|exact (IH _ _ _ Hc1 (Hp1 Hp) H)].
    apply Z.eqb_eq in E1. destruct Hc as [A B].
    rewrite memcmp_fill in H by (rewrite bytes_at_length; lia).
    destruct (bytes_eq_dec (bytes_at m (cursor_position c + 8) ks)
                (firstn (Z.to_nat ks) (cursor_key c))) as [E2|N]; cbn [negb] in H;
      [|exact (IH _ _ _ Hc1 (Hp1 Hp) H)].
    inversion H; subst c' m1.
    replace (Z.to_nat ks) with (length K) in E2 by lia. rewrite B in E2.
    repeat split; try assumption; try lia.
    rewrite <- A, <- E1. exact E2. }
  destruct (search_next_loop fuel ram_store (with_position (search_cursor cur0 K) 0) m)
    as [[[r c] m1]|] eqn:E; [|discriminate].
  inversion H; subst.
  apply (L fuel (with_position (search_cursor cur0 K) 0)).
  - apply search_cursor_for.
  - cbn [with_position cursor_position]. lia.
  - exact E.
Qed.

(** X19: the searches never answer [KVSTORE_NOT_FOUND].  For every backend
    and every state of it, a result of [kvstore_search] or of
    [kvstore_search_next] is [KVSTORE_OK], [KVSTORE_FAILED] or
    [KVSTORE_BAD_ARG]: a key that is not in the store is reported as
    [KVSTORE_FAILED], like a backend error. *)
Theorem search_never_reports_not_found :
  forall (C : Type) (self : option (KvStore C)) (fuel : nat)
         (cursor cur : option KvStoreCursor) (key : option (list byte)) (key_size : Z)
         (c c' : C) (r : KvStoreResult),
    kvstore_search fuel self cursor key key_size c = Some (r, cur, c')
    \/ kvstore_search_next fuel self cursor c = Some (r, cur, c') ->
    r <> KVSTORE_NOT_FOUND.
Proof.
  intros C self fuel cursor cur key key_size c c' r H.
  assert (L : forall n x y z k, search_next_loop n self x y = Some (r, k, z) ->
                                r <> KVSTORE_NOT_FOUND).
  { clear. induction n as [|n IH]; intros x y z k H; [discriminate|].
    cbn [search_next_loop] in H.
    destruct (read_slot self (cursor_position x) (Some search_key_buffer)
                (Some KVSTORE_MAX_KEY_SIZE) None (Some 0) y) as [[r0 o] c0].
    destruct (negb (result_eqb r0 KVSTORE_OK)).
    { inversion H; subst. discriminate. }
    destruct (kvstore_advance self (Some x) c0) as [[r1 cursor1] c1].
    destruct (negb (_ =? _)); [exact (IH _ _ _ _ H)|].
    destruct (negb (_ =? _)); [exact (IH _ _ _ _ H)|].
    inversion H; subst. discriminate. }
  assert (N : forall n cu y, kvstore_search_next n self cu y = Some (r, cur, c') ->
                             r <> KVSTORE_NOT_FOUND).
  { intros n cu y G. unfold kvstore_search_next in G.
    destruct self as [s|]; [|inversion G; subst; discriminate].
    destruct cu as [x|]; [|inversion G; subst; discriminate].
    destruct (search_next_loop n (Some s) x y) as [[[r2 k] z]|] eqn:E; [|discriminate].
    inversion G; subst. exact (L _ _ _ _ _ E). }
  destruct H as [H|H]; [|exact (N _ _ _ H)].
  unfold kvstore_search in H.
  destruct self as [s|]; [|inversion H; subst; discriminate].
  destruct cursor as [x|]; [|inversion H; subst; discriminate].
  destruct key as [k|]; [|inversion H; subst; discriminate].
  destruct ((key_size =? 0) || (key_size >? KVSTORE_MAX_KEY_SIZE)).
  { inversion H; subst. discriminate. }
  exact (N _ _ _ H).
Qed.

(** ** A key length that wraps the position *)

Section WrappingSlot.

Variables (m : ram) (p q : Z).
Hypothesis Hsz : Z.of_nat (length m) < 2 ^ 32.
Hypothesis Hhdr : p + 8 <= Z.of_nat (length m).
Hypothesis Hmagic : bytes_at m p 4 = KVSTORE_HEADER_MAGIC.
Hypothesis Hq : 0 <= q.
Hypothesis Hqp : q + 4 <= p.
Hypothesis Hks : le_combine (bytes_at m (p + 4) 4) = q + 2 ^ 32 - p - 8.
Hypothesis Hvs : le_combine (bytes_at m q 4) = p - q - 4.

Lemma read_slot_ram_wrapping kcap vcap :
  read_slot ram_store p None (Some kcap) None (Some vcap) m
  = (KVSTORE_OK,
     {| out_key := None; out_key_size := Some (q + 2 ^ 32 - p - 8);
        out_value := None; out_value_size := Some (p - q - 4) |}, m).
Proof.
  unfold read_slot.
  cbn [ram_store backend ram_backend get_size read bind ret ram_get_size].
  unfold KVSTORE_HEADER_SIZE_BYTES, KVSTORE_KEY_SIZE_BYTES, KVSTORE_VALUE_SIZE_BYTES.
  unfold bind, ret.
  cbn beta iota zeta.
  rewrite (size_t_small (p + 4)) by lia.
  rewrite (gtb_false (p + 4)) by lia.
  rewrite (ram_read_ok m p 4) by lia. cbn beta iota zeta. cbn [negb result_eqb].
  rewrite fill_header_buffer by (rewrite bytes_at_length; lia).
  rewrite Hmagic, memcmp_refl. cbn [Z.eqb negb].
  rewrite (size_t_small (p + 4 + 4)) by lia.
  rewrite (gtb_false (p + 4 + 4)) by lia.
  rewrite (ram_read_ok m (p + 4) 4) by lia. cbn beta iota zeta. cbn [negb result_eqb].
  rewrite uint_of_bytes_4 by (rewrite bytes_at_length; lia). rewrite Hks.
  rewrite andb_false_r.
  assert (W : size_t (p + 4 + 4 + (q + 2 ^ 32 - p - 8)) = q).
  { unfold size_t, SIZE_BITS. replace (p + 4 + 4 + (q + 2 ^ 32 - p - 8)) with (q + 1 * 2 ^ 32) by lia.
    rewrite Z.mod_add by lia. apply Z.mod_small. lia. }
  rewrite W.
  rewrite (gtb_false q) by lia. cbn beta iota zeta. cbn [negb result_eqb].
  rewrite (size_t_small (q + 4)) by lia.
  rewrite (gtb_false (q + 4)) by lia.
  rewrite (ram_read_ok m q 4) by lia. cbn beta iota zeta. cbn [negb result_eqb].
  rewrite uint_of_bytes_4 by (rewrite bytes_at_length; lia). rewrite Hvs.
  rewrite andb_false_r.
  rewrite (size_t_small (q + 4 + (p - q - 4))) by lia.
  rewrite gtb_false by lia.
  reflexivity.
Qed.

Lemma put_loop_wrapping k ksz v vsz : forall fuel fks fvs,
  put_loop fuel ram_store k ksz v vsz (Z.of_nat (length m)) p fks fvs m = None.
Proof.
  induction fuel as [|fuel IH]; intros fks fvs; [reflexivity|].
  cbn [put_loop].
  replace (p >=? Z.of_nat (length m)) with false
    by (symmetry; rewrite Z.geb_leb; apply Z.leb_gt; lia).
  rewrite read_slot_ram_wrapping.
  cbn beta iota zeta. cbn [negb result_eqb out_key_size out_value_size deref].
  rewrite gtb_true by lia.
  replace (size_t (p + calculate_slot_size (q + 2 ^ 32 - p - 8) (p - q - 4))) with p.
  - apply IH.
  - unfold calculate_slot_size, KVSTORE_HEADER_SIZE_BYTES, KVSTORE_KEY_SIZE_BYTES,
      KVSTORE_VALUE_SIZE_BYTES.
    replace (4 + 4 + (q + 2 ^ 32 - p - 8) + 4 + (p - q - 4)) with (0 + 1 * 2 ^ 32) by lia.
    unfold size_t at 2. unfold SIZE_BITS. rewrite Z.mod_add by lia.
    rewrite Z.mod_0_l by lia. rewrite Z.add_0_r. symmetry. apply size_t_small. lia.
Qed.

End WrappingSlot.

(** X20: a stored key length that wraps the 32-bit position makes
    [kvstore_put] loop forever.  When the slots in front of offset [p]
    decode and none is usable, and the slot at [p] has the magic header and a
    key length so large that the position after the key wraps around to an
    offset [q] in front of [p] where the four bytes read as value length end
    the slot at [p] again, the slot size computed by the loop of
    [kvstore_put] is 0 and the loop makes no progress: no amount of fuel gives
    a result. *)
Theorem put_never_returns_on_wrapping_key_length :
  forall (m : ram) (l : list slot) (p q : Z) (K V : list byte) (fuel : nat),
    Z.of_nat (length m) < 2 ^ 32 ->
    1 <= Z.of_nat (length K) <= KVSTORE_MAX_KEY_SIZE -> V <> [] ->
    Z.of_nat (length K) + Z.of_nat (length V) + 24 < 2 ^ 32 ->
    chain m 0 l p ->
    existsb (usable (12 + Z.of_nat (length K) + Z.of_nat (length V))) l = false ->
    p + 8 <= Z.of_nat (length m) ->
    bytes_at m p 4 = KVSTORE_HEADER_MAGIC ->
    0 <= q -> q + 4 <= p ->
    le_combine (bytes_at m (p + 4) 4) = q + 2 ^ 32 - p - 8 ->
    le_combine (bytes_at m q 4) = p - q - 4 ->
    kvstore_put fuel ram_store (Some K) (Z.of_nat (length K))
      (Some V) (Z.of_nat (length V)) m = None.
Proof.
  intros m l p q K V fuel Hsz HK HV Hneed Hc Hl Hhdr Hmagic Hq Hqp Hks Hvs.
  unfold kvstore_put. cbn [ram_store backend ram_backend get_size ram_get_size].
  rewrite valid_key_args by assumption.
  change (Some {| backend := ram_backend |}) with ram_store.
  assert (L : forall p0 l0,
             chain m p0 l0 p ->
             forallb (fun s => negb (usable (12 + Z.of_nat (length K) + Z.of_nat (length V)) s))
               l0 = true ->
             forall n fks fvs,
               put_loop n ram_store (Some K) (Z.of_nat (length K)) (Some V)
                 (Z.of_nat (length V)) (Z.of_nat (length m)) p0 fks fvs m = None).
  { intros p0 l0 Hc0.
    induction Hc0 as [p|p0 ks vs l0 p Hs Hc0 IH]; intros Hl0 n fks fvs.
    - apply (put_loop_wrapping m p q); assumption.
    - destruct n as [|n]; [reflexivity|].
      cbn [forallb] in Hl0. apply andb_true_iff in Hl0. destruct Hl0 as [Hu1 Hu2].
      apply negb_true_iff in Hu1.
      rewrite (put_step_skip m K V p0 ks vs) by assumption.
      apply IH; assumption. }
  rewrite (L 0 l Hc (existsb_none _ _ Hl)). reflexivity.
Qed.

(** ** The further properties at concrete stores *)

Ltac evaluated :=
  first [ discriminate
        | vm_compute;
          first [ reflexivity | discriminate | lia
                | split; first [reflexivity | discriminate] ] ].

Lemma write_read_slot_roundtrip_witness :
  exists m',
    write_slot ram_store 4 (Some key_a) 1 (Some value_bc) 2 (zeros 32) = (KVSTORE_OK, m')
    /\ read_slot ram_store 4 (Some (zeros 16)) (Some 16) (Some (zeros 8)) (Some 8) m'
       = (KVSTORE_OK,
          {| out_key := Some (fill (zeros 16) key_a); out_key_size := Some 1;
             out_value := Some (fill (zeros 8) value_bc); out_value_size := Some 2 |}, m')
    /\ length m' = length (zeros 32)
    /\ (forall q n, 0 <= q -> 0 <= n -> q + n <= 4 \/ 4 + 12 + 1 + 2 <= q ->
          bytes_at m' q n = bytes_at (zeros 32) q n).
Proof.
  apply (write_read_slot_roundtrip (zeros 32) 4 key_a value_bc (zeros 16) (zeros 8) 16 8);
    evaluated.
Defined.

Lemma write_slot_all_or_nothing_witness :
  let r := write_slot ram_store 4 (Some key_a) 1 (Some value_bc) 2 (zeros 32) in
  (value_bc <> [] /\ 4 + 12 + 1 + 2 <= Z.of_nat (length (zeros 32))
   /\ r = (KVSTORE_OK, store_bytes (zeros 32) 4 (encode_slot key_a value_bc)))
  \/ (value_bc = [] /\ r = (KVSTORE_BAD_ARG, zeros 32))
  \/ (Z.of_nat (length (zeros 32)) < 4 + 12 + 1 + 2 /\ r = (KVSTORE_FAILED, zeros 32)).
Proof.
  apply (write_slot_all_or_nothing (zeros 32) 4 key_a value_bc); evaluated.
Defined.

Lemma write_free_slot_keeps_padding_witness :
  exists m',
    write_slot ram_store 0 None 0 None 20 (zeros 32) = (KVSTORE_OK, m')
    /\ read_slot ram_store 0 None (Some 0) None (Some 0) m'
       = (KVSTORE_OK,
          {| out_key := None; out_key_size := Some 0;
             out_value := None; out_value_size := Some 20 |}, m')
    /\ (forall q n, 0 <= q -> 0 <= n -> q + n <= 0 \/ 0 + 12 <= q ->
          bytes_at m' q n = bytes_at (zeros 32) q n).
Proof.
  apply (write_free_slot_keeps_padding (zeros 32) 0 20); evaluated.
Defined.

Lemma prepare_formats_one_free_slot_witness :
  exists m',
    kvstore_prepare ram_store store_a = (KVSTORE_OK, m')
    /\ length m' = length store_a
    /\ slots m' = Some [(0, 0, Z.of_nat (length store_a) - 12)]
    /\ (forall q n, 12 <= q -> bytes_at m' q n = bytes_at store_a q n).
Proof.
  apply (prepare_formats_one_free_slot store_a); evaluated.
Defined.

Lemma prepare_too_small_backend_witness :
  exists m',
    kvstore_prepare ram_store (zeros 10) = (KVSTORE_OK, m')
    /\ length m' = length (zeros 10)
    /\ packed m' = false
    /\ fst (fst (read_slot ram_store 0 None (Some 0) None (Some 0) m')) = KVSTORE_FAILED.
Proof.
  apply (prepare_too_small_backend (zeros 10)); evaluated.
Defined.

Lemma prepare_erases_every_key_witness :
  exists m' cur,
    kvstore_prepare ram_store store_a = (KVSTORE_OK, m')
    /\ kvstore_search 65 ram_store (Some blank_cursor) (Some key_a) 1 m'
       = Some (KVSTORE_FAILED, Some cur, m')
    /\ cursor_position cur = Z.of_nat (length store_a).
Proof.
  apply (prepare_erases_every_key store_a key_a blank_cursor 65); evaluated.
Defined.

Lemma put_inserts_pair_witness :
  exists m' l',
    kvstore_put 65 ram_store (Some key_z) 1 (Some value_de) 2 store_a = Some (KVSTORE_OK, m')
    /\ length m' = length store_a
    /\ slots m' = Some l'
    /\ contents m' l' = contents store_a [(0, 1, 2)] ++ (key_z, value_de) :: contents store_a [].
Proof.
  apply (put_inserts_pair store_a [(0, 1, 2)] [] 15 37 key_z value_de 65); evaluated.
Defined.

Lemma put_without_usable_slot_witness :
  kvstore_put 31 ram_store (Some key_a) 1 (Some value_bc) 2 store_full
  = Some (KVSTORE_NOT_FOUND, store_full).
Proof.
  apply (put_without_usable_slot store_full [(0, 1, 2); (15, 0, 3)] key_a value_bc 31);
    evaluated.
Defined.

Lemma search_get_is_first_match_lookup_witness :
  exists cur,
    kvstore_search 65 ram_store (Some blank_cursor) (Some key_a) 1 store_a
    = Some (KVSTORE_OK, Some cur, store_a)
    /\ kvstore_get ram_store (Some cur) (Some (zeros 4)) (Some 4) store_a
       = (KVSTORE_OK, Some (fill (zeros 4) value_bc), Some 2, store_a).
Proof.
  apply (search_get_is_first_match_lookup store_a [(0, 1, 2); (15, 0, 37)] key_a value_bc
           blank_cursor (zeros 4) 4 65); evaluated.
Defined.

Lemma put_keeps_earlier_lookups_witness :
  exists m' cur,
    kvstore_put 65 ram_store (Some key_z) 1 (Some value_de) 2 store_a = Some (KVSTORE_OK, m')
    /\ kvstore_search 65 ram_store (Some blank_cursor) (Some key_a) 1 m'
       = Some (KVSTORE_OK, Some cur, m')
    /\ kvstore_search 65 ram_store (Some blank_cursor) (Some key_a) 1 store_a
       = Some (KVSTORE_OK, Some cur, store_a)
    /\ kvstore_get ram_store (Some cur) (Some (zeros 4)) (Some 4) m'
       = (KVSTORE_OK, Some (fill (zeros 4) value_bc), Some 2, m').
Proof.
  apply (put_keeps_earlier_lookups store_a [(0, 1, 2)] (15, 0, 37) key_z value_de
           key_a value_bc blank_cursor (zeros 4) 4 65); evaluated.
Defined.

Lemma fresh_store_roundtrip_witness :
  exists m1 m2 cur,
    kvstore_prepare ram_store (zeros 64) = (KVSTORE_OK, m1)
    /\ kvstore_put 65 ram_store (Some key_a) 1 (Some value_bc) 2 m1 = Some (KVSTORE_OK, m2)
    /\ kvstore_search 65 ram_store (Some blank_cursor) (Some key_a) 1 m2
       = Some (KVSTORE_OK, Some cur, m2)
    /\ cursor_position cur = 0
    /\ kvstore_get ram_store (Some cur) (Some (zeros 4)) (Some 4) m2
       = (KVSTORE_OK, Some (fill (zeros 4) value_bc), Some 2, m2).
Proof.
  apply (fresh_store_roundtrip (zeros 64) key_a value_bc blank_cursor (zeros 4) 4 65);
    evaluated.
Defined.

Lemma put_on_corrupt_store_fails_witness :
  kvstore_put 36 ram_store (Some key_z) 1 (Some value_de) 2
    (encode_slot key_a value_bc ++ zeros 20)
  = Some (KVSTORE_FAILED, encode_slot key_a value_bc ++ zeros 20).
Proof.
  apply (put_on_corrupt_store_fails (encode_slot key_a value_bc ++ zeros 20)
           [(0, 1, 2)] 15 key_z value_de 36).
  - evaluated.
  - evaluated.
  - evaluated.
  - evaluated.
  - refine (chain_cons _ 0 1 2 [] 15 _ (chain_nil _ 15)). vm_compute. reflexivity.
  - evaluated.
  - evaluated.
  - right. evaluated.
  - evaluated.
Defined.

Lemma advance_moves_one_slot_witness :
  kvstore_advance ram_store (Some blank_cursor) store_a
    = (KVSTORE_OK,
       Some (with_position blank_cursor (slot_pos (0, 1, 2) + slot_span (0, 1, 2))), store_a)
  /\ slot_pos (0, 1, 2) + slot_span (0, 1, 2) = slot_pos (15, 0, 37)
  /\ kvstore_advance ram_store
       (Some (with_position blank_cursor (Z.of_nat (length store_a)))) store_a
     = (KVSTORE_FAILED,
        Some (with_position blank_cursor (Z.of_nat (length store_a))), store_a).
Proof.
  apply (advance_moves_one_slot store_a [] [(15, 0, 37)] (0, 1, 2) blank_cursor); evaluated.
Defined.

Lemma get_value_buffer_too_small_witness :
  kvstore_get ram_store (Some blank_cursor) (Some (zeros 1)) (Some 1) store_a
  = (KVSTORE_FAILED, Some (zeros 1), Some 1, store_a).
Proof.
  apply (get_value_buffer_too_small store_a [(0, 1, 2); (15, 0, 37)] (0, 1, 2)
           blank_cursor (zeros 1) 1).
  - evaluated.
  - evaluated.
  - left. reflexivity.
  - evaluated.
  - evaluated.
Defined.

Lemma get_kv_returns_key_and_value_witness :
  kvstore_get_kv ram_store (Some blank_cursor) (Some (zeros 16)) (Some 16)
    (Some (zeros 4)) (Some 4) store_a
  = (KVSTORE_OK,
     {| out_key := Some (fill (zeros 16) (slot_key store_a (0, 1, 2)));
        out_key_size := Some (slot_key_size (0, 1, 2));
        out_value := Some (fill (zeros 4) (slot_value store_a (0, 1, 2)));
        out_value_size := Some (slot_value_size (0, 1, 2)) |}, store_a)
  /\ forall kcap' vcap',
       kvstore_get_kv ram_store (Some blank_cursor) None (Some kcap') None (Some vcap') store_a
       = (KVSTORE_OK,
          {| out_key := None; out_key_size := Some (slot_key_size (0, 1, 2));
             out_value := None; out_value_size := Some (slot_value_size (0, 1, 2)) |},
          store_a).
Proof.
  apply (get_kv_returns_key_and_value store_a [(0, 1, 2); (15, 0, 37)] (0, 1, 2)
           blank_cursor (zeros 16) (zeros 4) 16 4).
  - evaluated.
  - evaluated.
  - left. reflexivity.
  - evaluated.
  - evaluated.
  - evaluated.
Defined.

Lemma search_advance_search_next_witness :
  let m := after_put key_a value_de store_a in
  let on p := with_position (search_cursor blank_cursor key_a) p in
  kvstore_search 65 ram_store (Some blank_cursor) (Some key_a) 1 m
    = Some (KVSTORE_OK, Some (on (slot_pos (0, 1, 2))), m)
  /\ kvstore_search_next 65 ram_store (Some (on (slot_pos (0, 1, 2)))) m
    = Some (KVSTORE_OK, Some (on (slot_pos (0, 1, 2))), m)
  /\ kvstore_advance ram_store (Some (on (slot_pos (0, 1, 2)))) m
    = (KVSTORE_OK, Some (on (slot_pos (0, 1, 2) + slot_span (0, 1, 2))), m)
  /\ kvstore_search_next 65 ram_store
       (Some (on (slot_pos (0, 1, 2) + slot_span (0, 1, 2)))) m
    = Some (KVSTORE_OK, Some (on (slot_pos (15, 1, 2))), m).
Proof.
  apply (search_advance_search_next (after_put key_a value_de store_a) key_a blank_cursor
           [] [] [(30, 0, 22)] (0, 1, 2) (15, 1, 2) 65); evaluated.
Defined.

Lemma search_hit_is_sound_witness :
  store_a = store_a
  /\ cursor_for key_a (with_position (search_cursor blank_cursor key_a) 0)
  /\ 0 <= 0
  /\ 0 + 8 + 1 <= Z.of_nat (length store_a)
  /\ bytes_at store_a 0 4 = KVSTORE_HEADER_MAGIC
  /\ le_combine (bytes_at store_a (0 + 4) 4) = 1
  /\ bytes_at store_a (0 + 8) 1 = key_a.
Proof.
  apply (search_hit_is_sound store_a store_a key_a blank_cursor
           (with_position (search_cursor blank_cursor key_a) 0) 65); evaluated.
Defined.

Lemma search_never_reports_not_found_witness : KVSTORE_FAILED <> KVSTORE_NOT_FOUND.
Proof.
  apply (search_never_reports_not_found ram ram_store 65 (Some blank_cursor)
           (Some (with_position (search_cursor blank_cursor key_z) 64))
           (Some key_z) 1 store_a store_a KVSTORE_FAILED).
  left. vm_compute. reflexivity.
Defined.

Lemma put_never_returns_on_wrapping_key_length_witness :
  kvstore_put 1000 ram_store (Some key_a) 1 (Some value_bc) 2 store_wrapping = None.
Proof.
  apply (put_never_returns_on_wrapping_key_length store_wrapping [(0, 1, 4)] 17 13
           key_a value_bc 1000).
  - evaluated.
  - evaluated.
  - evaluated.
  - evaluated.
  - refine (chain_cons _ 0 1 4 [] 17 _ (chain_nil _ 17)). vm_compute. reflexivity.
  - evaluated.
  - evaluated.
  - evaluated.
  - evaluated.
  - evaluated.
  - evaluated.
  - evaluated.
Defined.
